(** * PVE management agent: status poller, event bus and stream translator

    A shallow embedding of the polling loop of [monitor_pve_task]
    (src/mcp/main_mcp.py) and of the event pipeline of
    src/monitoring/agent/agent.py ([broadcast_event], [sse_generator],
    [monitor_generator], [monitor_endpoint]), with the properties the
    design document states about them; and, with properties read off the
    code, of the tools that start, stop, reboot and delete a machine with
    [_handle_response], of the client's credentials and the health route
    (src/mcp/main_mcp.py), of the translator of
    src/monitoring/agent/pve_agent.py, and of the alert pusher
    (src/monitoring/pusher/prometheus_pusher.py).

    How the Python is read:
    - a value is [None], a [bool], an [int], a [str], a [list] or a [dict]
      with [str] keys; a [float] is outside the model, and a reading of
      the clock that ends up in an event is any value of the model;
    - the wall clock of the poller counts whole seconds; it moves while
      the code sleeps and while it waits for a reply, and reading it
      takes no time;
    - the remote end is a function of the request and of its rank among
      the requests sent: how long the reply takes and what [api_request]
      returns;
    - a call returns a value or raises; the [while] loop runs on fuel and
      is shown to return with the fuel [monitor_pve_task] gives it;
    - the coroutines run on one event loop and [put] on an unbounded queue
      never suspends, so a [broadcast_event] runs to its end before any
      other coroutine does anything;
    - a generator is its trace, the frames it yields and the events it
      broadcasts in the order it does so, when its stream is read to the
      end; a caller that takes some frames and no more leaves it
      suspended at a [yield], and what has run is the trace up to that
      [yield]; the upstream execution hands out steps and then stops or
      raises an [Exception]. *)

From Stdlib Require Import ZArith Lia List Bool Ascii String.
From Stdlib Require Import DecimalString DecimalFacts DecimalPos.
From stdpp Require Import base option list gmap.
Import ListNotations.

Local Open Scope string_scope.
Local Open Scope Z_scope.

(** ** Python values *)

Module Py.

(** The exceptions the modelled code can raise. *)
Inductive exn : Type :=
| UnboundLocalError
| AttributeError
| ValueError.

(** A call either returns a value or raises. *)
Inductive result (A : Type) : Type :=
| Return (a : A)
| Raise (e : exn).
Arguments Return {A} a.
Arguments Raise {A} e.

#[global] Instance result_ret : MRet result := @Return.
#[global] Instance result_bind : MBind result := fun A B k r =>
  match r with
  | Return a => k a
  | Raise e => Raise e
  end.

(** The values that travel through the code: what [response.json()]
    builds and what [json.dumps] is given.  A [str] is kept as the bytes
    of its UTF-8 encoding; a [dict] keeps its items in insertion order.
    Numbers are integers. *)
#[local] Unset Elimination Schemes.
Inductive pyval : Type :=
| PNone
| PBool (b : bool)
| PInt (z : Z)
| PStr (s : string)
| PList (l : list pyval)
| PDict (items : list (string * pyval)).
#[local] Set Elimination Schemes.

(** [key in d] and [d.get(key, default)] on the items of a dict. *)
Fixpoint items_lookup (key : string) (items : list (string * pyval)) : option pyval :=
  match items with
  | [] => None
  | (k, v) :: rest => if String.eqb k key then Some v else items_lookup key rest
  end.

Definition isinstance_dict (v : pyval) : bool :=
  match v with PDict _ => true | _ => false end.

Definition is_None (v : pyval) : bool :=
  match v with PNone => true | _ => false end.

(** [key in v] for a dict [v]. *)
Definition contains (key : string) (v : pyval) : bool :=
  match v with
  | PDict items => match items_lookup key items with Some _ => true | None => false end
  | _ => false
  end.

(** [v.get(key, default)]: only a dict has the method. *)
Definition get (v : pyval) (key : string) (default : pyval) : result pyval :=
  match v with
  | PDict items =>
      Return (match items_lookup key items with Some x => x | None => default end)
  | _ => Raise AttributeError
  end.

(** [v == s] for a string literal [s]. *)
Definition eq_str (v : pyval) (s : string) : bool :=
  match v with PStr s' => String.eqb s' s | _ => false end.

(** The line feed, [\n] in a Python literal. *)
Definition nl : string := String "010"%char "".

(** [sep.join(parts)]. *)
Fixpoint join (sep : string) (parts : list string) : string :=
  match parts with
  | [] => ""
  | [p] => p
  | p :: rest => p ++ sep ++ join sep rest
  end.

(** [str(z)] for an int. *)
Definition str_int (z : Z) : string := NilEmpty.string_of_int (Z.to_int z).

Section Repr.
(** Python's [repr] on a [str] (the quoting rules of the interpreter). *)
Variable repr_str : string -> string.

Fixpoint repr (v : pyval) : string :=
  match v with
  | PNone => "None"
  | PBool true => "True"
  | PBool false => "False"
  | PInt z => str_int z
  | PStr s => repr_str s
  | PList l => "[" ++ join ", " (map repr l) ++ "]"
  | PDict items =>
      "{" ++ join ", " (map (fun kv => repr_str (fst kv) ++ ": " ++ repr (snd kv)) items) ++ "}"
  end.

(** What an f-string field [{v}] prints: [str(v)]. *)
Definition str (v : pyval) : string :=
  match v with
  | PStr s => s
  | _ => repr v
  end.
End Repr.

(** [repr] of a [str] that has no quote, no backslash and no character
    the interpreter would escape: the text between single quotes. *)
Definition repr_plain (s : string) : string := "'" ++ s ++ "'".

(** *** [json.dumps(v, ensure_ascii=False)] *)

Definition dquote : ascii := "034"%char.
Definition backslash : ascii := "092"%char.

Definition hex_digit (n : nat) : ascii :=
  match n with
  | 0 => "0" | 1 => "1" | 2 => "2" | 3 => "3" | 4 => "4" | 5 => "5" | 6 => "6" | 7 => "7"
  | 8 => "8" | 9 => "9" | 10 => "a" | 11 => "b" | 12 => "c" | 13 => "d" | 14 => "e" | _ => "f"
  end%nat%char.

(** The replacement the encoder has for one character: the quote, the
    backslash and the control characters below U+0020 are escaped, every
    other character is written as it is. *)
Definition escape_char (c : ascii) : string :=
  if Ascii.eqb c dquote then String backslash (String dquote "")
  else if Ascii.eqb c backslash then String backslash (String backslash "")
  else if Ascii.eqb c "010" then String backslash "n"
  else if Ascii.eqb c "013" then String backslash "r"
  else if Ascii.eqb c "009" then String backslash "t"
  else if Ascii.eqb c "008" then String backslash "b"
  else if Ascii.eqb c "012" then String backslash "f"
  else if (nat_of_ascii c <? 32)%nat then
    String backslash
      (String "u" (String "0" (String "0"
         (String (hex_digit (nat_of_ascii c / 16)) (String (hex_digit (nat_of_ascii c mod 16)) "")))))
  else String c "".

Fixpoint escape (s : string) : string :=
  match s with
  | EmptyString => ""
  | String c rest => escape_char c ++ escape rest
  end.

Definition encode_basestring (s : string) : string :=
  String dquote (escape s ++ String dquote "").

Fixpoint json_dumps (v : pyval) : string :=
  match v with
  | PNone => "null"
  | PBool true => "true"
  | PBool false => "false"
  | PInt z => str_int z
  | PStr s => encode_basestring s
  | PList l => "[" ++ join ", " (map json_dumps l) ++ "]"
  | PDict items =>
      "{" ++ join ", " (map (fun kv => encode_basestring (fst kv) ++ ": " ++ json_dumps (snd kv)) items)
      ++ "}"
  end.

End Py.

(** ** The status poller: [monitor_pve_task] *)

Module Poller.
Import Py.

(** The part of [PveApiClient] the poller reads. *)
Record PveApiClient : Type := { is_authenticated : bool }.

(** The wall clock, in seconds, and the number of requests sent so far. *)
Record world : Type := { now : Z; calls : nat }.

Section Poller.
Variable repr_str : string -> string.

(** The remote end: what the request of a given method and path, the
    [k]-th one sent, takes in seconds and what [api_request] then
    returns (the decoded body, or the dict with an ["error"] key it
    builds on a transport failure). *)
Variable remote : string -> string -> nat -> nat * pyval.

Definition time_sleep (secs : Z) (w : world) : world :=
  {| now := now w + secs; calls := calls w |}.

Definition api_request (self : PveApiClient) (method path : string) (w : world)
  : pyval * world :=
  if negb (is_authenticated self) then
    (PDict [("error", PStr "Authentication required. PVE API Token is missing or invalid.")], w)
  else
    let '(latency, reply) := remote method path (calls w) in
    (reply, {| now := now w + Z.of_nat latency; calls := S (calls w) |}).

Section Task.
Variables (client : PveApiClient) (node upid : string) (timeout : Z).

Definition task_path : string := "/nodes/" ++ node ++ "/tasks/" ++ upid ++ "/status".

Definition fetch_failed (response : pyval) : string :=
  "ERROR: Failed to fetch task status for " ++ upid ++ ". Details: " ++ str repr_str response.

Definition succeeded (exitstatus : pyval) : string :=
  "SUCCESS: Task " ++ upid ++ " completed successfully. Exit status: " ++ str repr_str exitstatus.

Definition failed (exitstatus : pyval) : string :=
  "FAILURE: Task " ++ upid ++ " finished with error. Exit status: " ++ str repr_str exitstatus
  ++ ". Check PVE task log for details.".

Definition timed_out (status : pyval) : string :=
  "ERROR: Task " ++ upid ++ " timed out after " ++ str_int timeout
  ++ " seconds. Current status: " ++ str repr_str status.

(** [response is None or (isinstance(response, dict) and 'error' in response)]. *)
Definition fetch_error (response : pyval) : bool :=
  is_None response || (isinstance_dict response && contains "error" response).

(** The three reads that follow: [task_status], [status] and [exitstatus]. *)
Definition read_status (response : pyval) : result (pyval * pyval) :=
  task_status ← get response "data" (PDict []);
  status ← get task_status "status" PNone;
  exitstatus ← get task_status "exitstatus" (PStr "N/A");
  Return (status, exitstatus).

(** The [return] after the loop reads the local [status], bound only
    once the loop body has run. *)
Definition after_loop (status : option pyval) : result string :=
  match status with
  | Some s => Return (timed_out s)
  | None => Raise UnboundLocalError
  end.

(** The [while] loop; [status] is the local variable of that name,
    [None] while it is unbound.  One unit of fuel per test of the loop
    condition. *)
Fixpoint poll (fuel : nat) (start_time : Z) (status : option pyval) (w : world)
  : option (result string * world) :=
  match fuel with
  | O => None
  | S fuel' =>
      if (now w - start_time <? timeout)%Z then
        let w := time_sleep 2 w in
        let '(response, w) := api_request client "GET" task_path w in
        if fetch_error response then Some (Return (fetch_failed response), w)
        else
          match read_status response with
          | Raise e => Some (Raise e, w)
          | Return (status, exitstatus) =>
              if eq_str status "stopped" then
                if eq_str exitstatus "OK" then Some (Return (succeeded exitstatus), w)
                else Some (Return (failed exitstatus), w)
              else if (now w - start_time >? timeout)%Z then
                Some (Return (timed_out status), w)
              else poll fuel' start_time (Some status) w
          end
      else Some (after_loop status, w)
  end.

(** The loop with the deadline tested once per iteration, in the loop
    condition only: the second test, after the status query, is gone. *)
Fixpoint poll_collapsed (fuel : nat) (start_time : Z) (status : option pyval) (w : world)
  : option (result string * world) :=
  match fuel with
  | O => None
  | S fuel' =>
      if (now w - start_time <? timeout)%Z then
        let w := time_sleep 2 w in
        let '(response, w) := api_request client "GET" task_path w in
        if fetch_error response then Some (Return (fetch_failed response), w)
        else
          match read_status response with
          | Raise e => Some (Raise e, w)
          | Return (status, exitstatus) =>
              if eq_str status "stopped" then
                if eq_str exitstatus "OK" then Some (Return (succeeded exitstatus), w)
                else Some (Return (failed exitstatus), w)
              else poll_collapsed fuel' start_time (Some status) w
          end
      else Some (after_loop status, w)
  end.

(** *** Views of the loop, for the statements about it *)

(** What the [k]-th status query returns. *)
Definition reply (k : nat) : pyval := snd (remote "GET" task_path k).

(** One turn of the loop on the clock and the request counter: the sleep
    and the status query. *)
Definition turn (w : world) : world :=
  snd (api_request client "GET" task_path (time_sleep 2 w)).

(** What one turn of the loop decides once the reply is in: a result, or
    to go round again with the status just read. *)
Inductive verdict : Type :=
| Done (r : result string)
| Again (status : pyval).

Definition body (w : world) : verdict :=
  if fetch_error (reply (calls w)) then Done (Return (fetch_failed (reply (calls w))))
  else
    match read_status (reply (calls w)) with
    | Raise e => Done (Raise e)
    | Return (s, e) =>
        if eq_str s "stopped" then
          Done (Return (if eq_str e "OK" then succeeded e else failed e))
        else Again s
    end.

(** The [k]-th query succeeds and says the task has not stopped; [s] is
    the status it reports. *)
Definition running (k : nat) (s : pyval) : Prop :=
  fetch_error (reply k) = false
  /\ (exists e, read_status (reply k) = Return (s, e))
  /\ eq_str s "stopped" = false.
End Task.

(** Every iteration sleeps two seconds, so the loop condition is tested
    at most [timeout / 2 + 1] times; this many units are enough. *)
Definition poll_fuel (timeout : Z) : nat := S (Z.to_nat timeout).

Definition not_ready : string := "ERROR: PVE client is not initialized or authenticated.".

Definition monitor_pve_task (pve_client : option PveApiClient)
    (node upid : string) (timeout : Z) (w : world) : option (result string * world) :=
  match pve_client with
  | Some client =>
      if is_authenticated client then
        let start_time := now w in
        poll client node upid timeout (poll_fuel timeout) start_time None w
      else Some (Return not_ready, w)
  | None => Some (Return not_ready, w)
  end.

(** [monitor_pve_task] with the duplicated deadline test collapsed. *)
Definition monitor_pve_task_collapsed (pve_client : option PveApiClient)
    (node upid : string) (timeout : Z) (w : world) : option (result string * world) :=
  match pve_client with
  | Some client =>
      if is_authenticated client then
        let start_time := now w in
        poll_collapsed client node upid timeout (poll_fuel timeout) start_time None w
      else Some (Return not_ready, w)
  | None => Some (Return not_ready, w)
  end.
End Poller.

(** A client that has its credentials. *)
Definition authenticated : PveApiClient := {| is_authenticated := true |}.

(** A remote end that answers at once: the [k]-th request gets the [k]-th
    of [replies], and [None] once they are used up. *)
Definition scripted (replies : list pyval) : string -> string -> nat -> nat * pyval :=
  fun _ _ k => (0%nat, nth k replies PNone).

(** A well-formed status reply, as the remote system sends it. *)
Definition task_reply (status : string) (exitstatus : option string) : pyval :=
  PDict [("data", PDict (("status", PStr status)
                         :: match exitstatus with
                            | Some e => [("exitstatus", PStr e)]
                            | None => []
                            end))].

End Poller.

(** ** The event bus: [MONITOR_QUEUES] and [broadcast_event] *)

Module Bus.
Import Py.

(** The queues live in a store, named by their identity; the global list
    [MONITOR_QUEUES] holds references to them.  A queue is unbounded, so
    [put] never waits. *)
Record bus : Type := {
  store : gmap nat (list pyval);
  next_id : nat;
  MONITOR_QUEUES : list nat
}.

Definition empty_bus : bus := {| store := ∅; next_id := 0; MONITOR_QUEUES := [] |}.

(** [asyncio.Queue()]: a new, empty queue. *)
Definition Queue (s : bus) : nat * bus :=
  (next_id s,
   {| store := <[next_id s := []]> (store s);
      next_id := S (next_id s);
      MONITOR_QUEUES := MONITOR_QUEUES s |}).

(** [await q.put(x)]. *)
Definition put (x : pyval) (s : bus) (q : nat) : bus :=
  {| store := alter (fun buf => buf ++ [x])%list q (store s);
     next_id := next_id s;
     MONITOR_QUEUES := MONITOR_QUEUES s |}.

(** [await q.get()]: the oldest item, or [None] while the queue is empty
    (the caller stays suspended). *)
Definition get (q : nat) (s : bus) : option (pyval * bus) :=
  match store s !! q with
  | Some (x :: buf) =>
      Some (x, {| store := <[q := buf]> (store s);
                  next_id := next_id s;
                  MONITOR_QUEUES := MONITOR_QUEUES s |})
  | _ => None
  end.

Definition broadcast_event (event_data : pyval) (s : bus) : bus :=
  foldl (put event_data) s (MONITOR_QUEUES s).

(** [l.remove(x)]: drops the first occurrence, [ValueError] when there is
    none. *)
Fixpoint list_remove (x : nat) (l : list nat) : result (list nat) :=
  match l with
  | [] => Raise ValueError
  | y :: rest =>
      if Nat.eqb y x then Return rest
      else rest' ← list_remove x rest; Return (y :: rest')
  end.

(** [monitor_endpoint]: subscribe.  Returns the queue handed to
    [monitor_generator]. *)
Definition monitor_endpoint (s : bus) : nat * bus :=
  let '(q, s) := Queue s in
  (q, {| store := store s;
         next_id := next_id s;
         MONITOR_QUEUES := (MONITOR_QUEUES s ++ [q])%list |}).

(** The [except asyncio.CancelledError] branch of [monitor_generator]:
    unsubscribe. *)
Definition unsubscribe (q : nat) (s : bus) : result bus :=
  l ← list_remove q (MONITOR_QUEUES s);
  Return {| store := store s; next_id := next_id s; MONITOR_QUEUES := l |}.

(** The loop of [monitor_generator], run until the queue is empty or [n]
    frames have been yielded. *)
Fixpoint monitor_generator (n : nat) (q : nat) (s : bus) : list string * bus :=
  match n with
  | O => ([], s)
  | S n' =>
      match get q s with
      | Some (data, s) =>
          let '(frames, s) := monitor_generator n' q s in
          (("data: " ++ json_dumps data ++ nl ++ nl) :: frames, s)
      | None => ([], s)
      end
  end.

(** Publishing a sequence of events, one [broadcast_event] after the
    other. *)
Definition publish_all (events : list pyval) (s : bus) : bus :=
  foldl (fun s e => broadcast_event e s) s events.

(** [k] calls of [monitor_endpoint]. *)
Definition subscribe_all (k : nat) (s : bus) : bus :=
  Nat.iter k (fun s => snd (monitor_endpoint s)) s.

(** The states the module can be in: what the endpoints, the generator
    and the broadcasts make of the empty list of queues. *)
Inductive reachable : bus -> Prop :=
| reach_start : reachable empty_bus
| reach_subscribe s : reachable s -> reachable (snd (monitor_endpoint s))
| reach_unsubscribe s q s' : reachable s -> unsubscribe q s = Return s' -> reachable s'
| reach_broadcast s e : reachable s -> reachable (broadcast_event e s)
| reach_get s q x s' : reachable s -> get q s = Some (x, s') -> reachable s'.

(** No queue is registered twice, a registered queue is in the store, and
    the identities in the store were all handed out. *)
Definition well_formed (s : bus) : Prop :=
  NoDup (MONITOR_QUEUES s)
  /\ (forall q, q ∈ MONITOR_QUEUES s -> is_Some (store s !! q))
  /\ (forall q, is_Some (store s !! q) -> (q < next_id s)%nat).

(** Reading a queue: the items [n] successive [get]s return. *)
Fixpoint drain (n : nat) (q : nat) (s : bus) : list pyval * bus :=
  match n with
  | O => ([], s)
  | S n' =>
      match get q s with
      | Some (x, s) => let '(xs, s) := drain n' q s in (x :: xs, s)
      | None => ([], s)
      end
  end.

End Bus.

(** ** The request stream translator: [sse_generator] *)

Module Translator.
Import Py.

Inductive message : Type :=
| AIMessage (content : string)
| ToolMessage (name content tool_call_id : string)
| OtherMessage.

(** One entry of [update["tool_calls"]]. *)
Record tool_call : Type := { call_name : string; call_args : pyval }.

(** One value of a step: the keys the translator looks at, each present
    or not.  [structured_response] holds the [Answer] field. *)
Record update : Type := {
  messages : option (list message);
  tool_calls : option (list tool_call);
  structured_response : option string
}.

(** What [agent.astream] does when it is asked for the next step: it is
    exhausted, it raises an [Exception] whose [str] is [detail], or it
    hands out a step ([step.values()], in order). *)
Inductive astream : Type :=
| Stop
| Fail (detail : string)
| Step (values : list update) (rest : astream).

(** What the generator does that others can see. *)
Inductive action : Type :=
| Yield (frame : string)
| Broadcast (event_data : pyval).

(** The generator: it reads the clock (the [k]-th reading is
    [time_time k]), yields and broadcasts. *)
Definition gen (A : Type) : Type := nat -> A * nat * list action.

#[global] Instance gen_ret : MRet gen := fun A a k => (a, k, []).
#[global] Instance gen_bind : MBind gen := fun A B f m k =>
  let '(a, k1, out1) := m k in
  let '(b, k2, out2) := f a k1 in
  (b, k2, (out1 ++ out2)%list).

Definition yield (frame : string) : gen unit := fun k => (tt, k, [Yield frame]).
Definition broadcast_event (event_data : pyval) : gen unit :=
  fun k => (tt, k, [Broadcast event_data]).

(** [for x in l: body x]. *)
Fixpoint for_each {A : Type} (l : list A) (body : A -> gen unit) : gen unit :=
  match l with
  | [] => mret tt
  | x :: rest => _ ← body x; for_each rest body
  end.

(** [if key in update: for x in update[key]: body x]. *)
Definition for_key {A : Type} (field : option (list A)) (body : A -> gen unit) : gen unit :=
  match field with
  | Some l => for_each l body
  | None => mret tt
  end.

(** A frame: [event: <label>] when there is a label, [data: <data>], and
    an empty line. *)
Definition sse (label : option string) (data : string) : string :=
  match label with
  | Some l => "event: " ++ l ++ nl
  | None => ""
  end ++ "data: " ++ data ++ nl ++ nl.

Section Translator.
Variable time_time : nat -> pyval.

Definition time : gen pyval := fun k => (time_time k, S k, []).

Section Request.
Variable thread_id : Z.

(** The dict handed to [broadcast_event]: the time stamp, the thread
    and the fields of the event. *)
Definition event (timestamp : pyval) (fields : list (string * pyval)) : pyval :=
  PDict (("timestamp", timestamp) :: ("thread_id", PInt thread_id) :: fields).

Definition on_message (m : message) : gen unit :=
  match m with
  | AIMessage content =>
      if String.eqb content "" then mret tt
      else if String.prefix "Returning structured response" content then mret tt
      else
        let payload := json_dumps (PDict [("type", PStr "thought"); ("content", PStr content)]) in
        _ ← yield (sse None payload);
        t ← time;
        broadcast_event (event t [("type", PStr "thought"); ("content", PStr content)])
  | ToolMessage name content tool_call_id =>
      let payload :=
        json_dumps (PDict [("type", PStr "tool_result"); ("name", PStr name);
                           ("content", PStr content); ("tool_call_id", PStr tool_call_id)]) in
      _ ← yield (sse None payload);
      t ← time;
      broadcast_event (event t [("type", PStr "tool_result"); ("name", PStr name);
                                ("content", PStr content); ("tool_call_id", PStr tool_call_id)])
  | OtherMessage => mret tt
  end.

Definition on_call (call : tool_call) : gen unit :=
  let payload :=
    json_dumps (PDict [("type", PStr "tool_call"); ("name", PStr (call_name call));
                       ("args", call_args call)]) in
  _ ← yield (sse None payload);
  t ← time;
  broadcast_event (event t [("type", PStr "tool_call"); ("name", PStr (call_name call));
                            ("args", call_args call)]).

Definition on_answer (response : option string) : gen unit :=
  match response with
  | Some answer =>
      let payload := json_dumps (PDict [("type", PStr "answer"); ("content", PStr answer)]) in
      _ ← yield (sse (Some "result") payload);
      t ← time;
      broadcast_event (event t [("type", PStr "answer"); ("content", PStr answer)])
  | None => mret tt
  end.

Definition on_update (u : update) : gen unit :=
  _ ← for_key (messages u) on_message;
  _ ← for_key (tool_calls u) on_call;
  on_answer (structured_response u).

(** The [try] block with its [except Exception] handler. *)
Fixpoint run (steps : astream) : gen unit :=
  match steps with
  | Stop => mret tt
  | Fail e =>
      let error_msg := json_dumps (PDict [("type", PStr "error"); ("content", PStr e)]) in
      _ ← yield (sse (Some "error") error_msg);
      t ← time;
      broadcast_event (event t [("type", PStr "error"); ("content", PStr e)])
  | Step values rest =>
      _ ← for_each values on_update;
      run rest
  end.

Definition sse_generator (agent : string -> Z -> astream) (msg : string) : gen unit :=
  t ← time;
  _ ← broadcast_event (event t [("type", PStr "start"); ("content", PStr ("New Request: " ++ msg))]);
  _ ← yield (sse (Some "start") "开始处理...");
  _ ← run (agent msg thread_id);
  yield (sse (Some "done") "[DONE]").
End Request.

(** Everything one invocation does, when its stream is read to the end. *)
Definition trace (agent : string -> Z -> astream) (msg : string) (thread_id : Z) : list action :=
  snd (sse_generator thread_id agent msg 0%nat).
End Translator.

(** *** Reading a trace *)

Definition start_frame : string := sse (Some "start") "开始处理...".
Definition done_frame : string := sse (Some "done") "[DONE]".

(** The fields of an event, after the time stamp and the thread. *)
Definition fields_of (e : pyval) : list (string * pyval) :=
  match e with
  | PDict (_ :: _ :: fields) => fields
  | _ => []
  end.

Definition type_of (e : pyval) : pyval :=
  match Py.get e "type" PNone with
  | Return t => t
  | Raise _ => PNone
  end.

(** The frame that carries an event to the caller: the fields of the
    event as the data, under the label [result] for an answer, [error]
    for an error, and no label otherwise. *)
Definition label_of (e : pyval) : option string :=
  if eq_str (type_of e) "answer" then Some "result"
  else if eq_str (type_of e) "error" then Some "error"
  else None.

Definition frame_of (e : pyval) : string :=
  sse (label_of e) (json_dumps (PDict (fields_of e))).

(** Events passed on one by one: the frame is yielded, then the event is
    broadcast. *)
Definition relay (events : list pyval) : list action :=
  flat_map (fun e => [Yield (frame_of e); Broadcast e]) events.

Definition relayed_types : list string :=
  ["thought"; "tool_result"; "tool_call"; "answer"; "error"].

(** An event of one of these types, made by [event]. *)
Definition relayed (thread_id : Z) (e : pyval) : Prop :=
  exists t ty fields,
    e = event thread_id t (("type", PStr ty) :: fields) /\ In ty relayed_types.

(** A piece of the generator that does nothing but relay events. *)
Definition relays (thread_id : Z) (g : gen unit) : Prop :=
  forall k, exists events,
    snd (g k) = relay events /\ Forall (relayed thread_id) events.

(** How the upstream execution ends: [Some detail] when it raises. *)
Fixpoint outcome (steps : astream) : option string :=
  match steps with
  | Stop => None
  | Fail detail => Some detail
  | Step _ rest => outcome rest
  end.

(** The frames the caller receives and the events the bus is given. *)
Definition yielded (t : list action) : list string :=
  omap (fun a => match a with Yield f => Some f | Broadcast _ => None end) t.

Definition published (t : list action) : list pyval :=
  omap (fun a => match a with Broadcast e => Some e | Yield _ => None end) t.

(** The bus after the broadcasts of a trace. *)
Definition deliver (t : list action) (s : Bus.bus) : Bus.bus :=
  foldl (fun s e => Bus.broadcast_event e s) s (published t).

(** What an invocation has done when the caller has taken [n] frames and
    takes no more, closing the stream or leaving it: the generator has run
    up to its [n]-th [yield] and the statements after that [yield] are not
    run.  (Closing raises [GeneratorExit] at the [yield], which is not an
    [Exception]: the handler of the [try] block does not catch it.)  Of a
    generator that is never asked for a frame nothing is run. *)
Fixpoint taken (n : nat) (t : list action) : list action :=
  match n, t with
  | O, _ => []
  | S _, [] => []
  | S n', Yield f :: rest => Yield f :: taken n' rest
  | S _, Broadcast e :: rest => Broadcast e :: taken n rest
  end.

End Translator.

(** ** JSON texts

    The grammar of RFC 8259 on the bytes of a text: what a JSON parser
    accepts as the payload of a frame. *)

Module Json.
Import Py.

Definition is_ws (c : ascii) : bool :=
  Ascii.eqb c " " || Ascii.eqb c "009" || Ascii.eqb c "010" || Ascii.eqb c "013".

Fixpoint all_ws (s : string) : bool :=
  match s with
  | EmptyString => true
  | String c rest => is_ws c && all_ws rest
  end.

Definition is_digit (c : ascii) : bool :=
  (48 <=? nat_of_ascii c)%nat && (nat_of_ascii c <=? 57)%nat.

Definition is_hex (c : ascii) : bool :=
  is_digit c
  || ((65 <=? nat_of_ascii c)%nat && (nat_of_ascii c <=? 70)%nat)
  || ((97 <=? nat_of_ascii c)%nat && (nat_of_ascii c <=? 102)%nat).

(** *** Numbers: [-]? int frac? exp? *)

Fixpoint skip_digits (s : string) : string :=
  match s with
  | EmptyString => ""
  | String c rest => if is_digit c then skip_digits rest else s
  end.

Definition skip_minus (s : string) : string :=
  match s with
  | String "-" rest => rest
  | _ => s
  end.

Definition skip_int (s : string) : option string :=
  match s with
  | String "0" rest => Some rest
  | String c rest => if is_digit c then Some (skip_digits rest) else None
  | EmptyString => None
  end.

Definition skip_frac (s : string) : option string :=
  match s with
  | String "." (String c rest) => if is_digit c then Some (skip_digits rest) else None
  | String "." EmptyString => None
  | _ => Some s
  end.

Definition skip_sign (s : string) : string :=
  match s with
  | String "+" rest => rest
  | String "-" rest => rest
  | _ => s
  end.

Definition skip_exp (s : string) : option string :=
  match s with
  | String "e" rest | String "E" rest =>
      match skip_sign rest with
      | String c rest' => if is_digit c then Some (skip_digits rest') else None
      | EmptyString => None
      end
  | _ => Some s
  end.

Definition is_number (s : string) : bool :=
  match skip_int (skip_minus s) with
  | Some s1 =>
      match skip_frac s1 with
      | Some s2 =>
          match skip_exp s2 with
          | Some EmptyString => true
          | _ => false
          end
      | None => false
      end
  | None => false
  end.

(** *** Strings: the characters between the quotes *)

Definition is_escape (c : ascii) : bool :=
  Ascii.eqb c dquote || Ascii.eqb c backslash || Ascii.eqb c "/" || Ascii.eqb c "b"
  || Ascii.eqb c "f" || Ascii.eqb c "n" || Ascii.eqb c "r" || Ascii.eqb c "t".

Definition is_unescaped (c : ascii) : bool :=
  (32 <=? nat_of_ascii c)%nat && negb (Ascii.eqb c dquote) && negb (Ascii.eqb c backslash).

Fixpoint chars_ok (s : string) : bool :=
  match s with
  | EmptyString => true
  | String c rest =>
      if Ascii.eqb c backslash then
        match rest with
        | String "u" (String h1 (String h2 (String h3 (String h4 rest')))) =>
            is_hex h1 && is_hex h2 && is_hex h3 && is_hex h4 && chars_ok rest'
        | String e rest' => is_escape e && chars_ok rest'
        | EmptyString => false
        end
      else is_unescaped c && chars_ok rest
  end.

Definition quoted (s : string) : string := String dquote (s ++ String dquote "").

(** *** Values *)

Inductive value : string -> Prop :=
| v_null : value "null"
| v_true : value "true"
| v_false : value "false"
| v_number s : is_number s = true -> value s
| v_string s : chars_ok s = true -> value (quoted s)
| v_array_empty w : all_ws w = true -> value ("[" ++ w ++ "]")
| v_array s : elements s -> value ("[" ++ s ++ "]")
| v_object_empty w : all_ws w = true -> value ("{" ++ w ++ "}")
| v_object s : members s -> value ("{" ++ s ++ "}")
with elements : string -> Prop :=
| e_last w1 v w2 :
    all_ws w1 = true -> value v -> all_ws w2 = true -> elements (w1 ++ v ++ w2)
| e_more w1 v w2 rest :
    all_ws w1 = true -> value v -> all_ws w2 = true -> elements rest ->
    elements (w1 ++ v ++ w2 ++ "," ++ rest)
with members : string -> Prop :=
| m_last w1 k w2 w3 v w4 :
    all_ws w1 = true -> chars_ok k = true -> all_ws w2 = true ->
    all_ws w3 = true -> value v -> all_ws w4 = true ->
    members (w1 ++ quoted k ++ w2 ++ ":" ++ w3 ++ v ++ w4)
| m_more w1 k w2 w3 v w4 rest :
    all_ws w1 = true -> chars_ok k = true -> all_ws w2 = true ->
    all_ws w3 = true -> value v -> all_ws w4 = true -> members rest ->
    members (w1 ++ quoted k ++ w2 ++ ":" ++ w3 ++ v ++ w4 ++ "," ++ rest).

(** A JSON text: one value, white space around it. *)
Definition text (s : string) : Prop :=
  exists w1 v w2, all_ws w1 = true /\ value v /\ all_ws w2 = true /\ s = w1 ++ v ++ w2.

(** The first character of a value. *)
Definition starts_value (c : ascii) : bool :=
  Ascii.eqb c "n" || Ascii.eqb c "t" || Ascii.eqb c "f" || Ascii.eqb c "-" || is_digit c
  || Ascii.eqb c dquote || Ascii.eqb c "[" || Ascii.eqb c "{".

(** A line: no line feed and no carriage return in it. *)
Fixpoint one_line (s : string) : bool :=
  match s with
  | EmptyString => true
  | String c rest => negb (Ascii.eqb c "010") && negb (Ascii.eqb c "013") && one_line rest
  end.

End Json.

(** ** Frames on the wire *)

Module Wire.
Import Py Json Translator.

(** [f] is the frame with this label, if any, and this data: an optional
    [event:] line, a [data:] line and an empty line. *)
Definition frame_with (label : option string) (data : string) (f : string) : Prop :=
  f = sse label data
  /\ (forall l, label = Some l -> one_line l = true)
  /\ one_line data = true.

(** A frame whose data is a JSON text. *)
Definition json_frame (f : string) : Prop :=
  exists label data, frame_with label data f /\ Json.text data.

(** The label each type of event travels under on the reply channel. *)
Definition labelled_types : list (option string * string) :=
  [(None, "thought"); (None, "tool_call"); (None, "tool_result");
   (Some "result", "answer"); (Some "error", "error")].

(** The frames of the reply channel: the start and done frames with
    their fixed texts, and the frames that carry a dict, which says in
    [type] what it is. *)
Inductive reply_frame : string -> Prop :=
| reply_start : reply_frame start_frame
| reply_done : reply_frame done_frame
| reply_json label ty d :
    In (label, ty) labelled_types ->
    Py.get d "type" PNone = Return (PStr ty) ->
    frame_with label (json_dumps d) (sse label (json_dumps d)) ->
    Json.text (json_dumps d) ->
    reply_frame (sse label (json_dumps d)).

End Wire.

(** ** More views of the status poller *)

Module PollerViews.
Import Py Poller.

(** What a reply says, read off the reply as the remote system sent it:
    it is a dict with no ["error"], its ["data"] is a dict that holds
    the status under ["status"] and, when it holds one, the exit status
    under ["exitstatus"]. *)
Definition reports (response status : pyval) (exitstatus : option pyval) : Prop :=
  exists items data,
    response = PDict items
    /\ items_lookup "error" items = None
    /\ items_lookup "data" items = Some (PDict data)
    /\ items_lookup "status" data = Some status
    /\ items_lookup "exitstatus" data = exitstatus.

(** A reply the loop cannot read: it is not a failed fetch, and either it
    is not a dict, or its ["data"] is there and is not a dict. *)
Definition malformed (response : pyval) : bool :=
  negb (fetch_error response)
  && match response with
     | PDict items =>
         match items_lookup "data" items with
         | Some d => negb (isinstance_dict d)
         | None => false
         end
     | _ => true
     end.

(** The outcomes of [monitor_pve_task], one by one. *)
Inductive outcome_of (repr_str : string -> string) (upid : string) (timeout : Z)
  : result string -> Prop :=
| out_not_ready :
    outcome_of repr_str upid timeout
      (Return "ERROR: PVE client is not initialized or authenticated.")
| out_fetch_failed response :
    fetch_error response = true ->
    outcome_of repr_str upid timeout
      (Return ("ERROR: Failed to fetch task status for " ++ upid ++ ". Details: "
               ++ str repr_str response))
| out_succeeded :
    outcome_of repr_str upid timeout
      (Return ("SUCCESS: Task " ++ upid ++ " completed successfully. Exit status: OK"))
| out_failed exitstatus :
    eq_str exitstatus "OK" = false ->
    outcome_of repr_str upid timeout
      (Return ("FAILURE: Task " ++ upid ++ " finished with error. Exit status: "
               ++ str repr_str exitstatus ++ ". Check PVE task log for details."))
| out_timed_out status :
    eq_str status "stopped" = false ->
    0 < timeout ->
    outcome_of repr_str upid timeout
      (Return ("ERROR: Task " ++ upid ++ " timed out after " ++ str_int timeout
               ++ " seconds. Current status: " ++ str repr_str status))
| out_attribute_error :
    outcome_of repr_str upid timeout (Raise AttributeError)
| out_unbound :
    timeout <= 0 ->
    outcome_of repr_str upid timeout (Raise UnboundLocalError).

End PollerViews.

(** ** The tools that act on a virtual machine *)

Module Tools.
Import Py Poller.

Section Tools.
Variable repr_str : string -> string.
Variable remote : string -> string -> nat -> nat * pyval.

(** [_handle_response]: from what [api_request] returned to the message
    of the tool. *)
Definition _handle_response (result : pyval) (success_message : string) : Py.result string :=
  if is_None result then
    Return "ERROR: PVE client internal error or request failed unexpectedly (result is None)."
  else if isinstance_dict result && contains "error" result then
    error ← get result "error" PNone;
    Return ("API ERROR: " ++ str repr_str error)
  else
    data ← get result "data" PNone;
    match data with
    | PStr upid =>
        if String.prefix "UPID" upid then
          Return ("SUCCESS: " ++ success_message ++ " task started. UPID: " ++ upid
                  ++ ". Use monitor_pve_task to track.")
        else if String.eqb upid "" then
          Return ("SUCCESS: " ++ success_message
                  ++ " completed successfully (synchronous operation).")
        else
          Return ("ERROR: API call failed with unexpected response structure. "
                  ++ "Response details: " ++ str repr_str result)
    | PNone =>
        Return ("SUCCESS: " ++ success_message
                ++ " completed successfully (synchronous operation).")
    | _ =>
        Return ("ERROR: API call failed with unexpected response structure. "
                ++ "Response details: " ++ str repr_str result)
    end.

(** The methods of [PveApiClient] behind the tools. *)
Definition client_start_vm (self : PveApiClient) (node : string) (vmid : Z) (w : world)
  : pyval * world :=
  api_request remote self "POST"
    ("/nodes/" ++ node ++ "/qemu/" ++ str_int vmid ++ "/status/start") w.

Definition client_shutdown_vm (self : PveApiClient) (node : string) (vmid : Z) (w : world)
  : pyval * world :=
  api_request remote self "POST"
    ("/nodes/" ++ node ++ "/qemu/" ++ str_int vmid ++ "/status/shutdown") w.

Definition client_reboot_vm (self : PveApiClient) (node : string) (vmid : Z) (w : world)
  : pyval * world :=
  api_request remote self "POST"
    ("/nodes/" ++ node ++ "/qemu/" ++ str_int vmid ++ "/status/reboot") w.

Definition client_delete_vm (self : PveApiClient) (node : string) (vmid : Z) (w : world)
  : pyval * world :=
  api_request remote self "DELETE" ("/nodes/" ++ node ++ "/qemu/" ++ str_int vmid) w.

Definition not_authenticated : string := "ERROR: PVE client is not authenticated.".

(** The tools: the guard on the client, the request, the message. *)
Definition start_vm (pve_client : option PveApiClient) (node : string) (vmid : Z) (w : world)
  : Py.result string * world :=
  match pve_client with
  | Some client =>
      if is_authenticated client then
        let '(result, w) := client_start_vm client node vmid w in
        (_handle_response result "VM start", w)
      else (Return not_authenticated, w)
  | None => (Return not_authenticated, w)
  end.

Definition shutdown_vm (pve_client : option PveApiClient) (node : string) (vmid : Z)
    (w : world) : Py.result string * world :=
  match pve_client with
  | Some client =>
      if is_authenticated client then
        let '(result, w) := client_shutdown_vm client node vmid w in
        (_handle_response result "VM shutdown", w)
      else (Return not_authenticated, w)
  | None => (Return not_authenticated, w)
  end.

Definition reboot_vm (pve_client : option PveApiClient) (node : string) (vmid : Z)
    (w : world) : Py.result string * world :=
  match pve_client with
  | Some client =>
      if is_authenticated client then
        let '(result, w) := client_reboot_vm client node vmid w in
        (_handle_response result "VM reboot", w)
      else (Return not_authenticated, w)
  | None => (Return not_authenticated, w)
  end.

Definition delete_vm (pve_client : option PveApiClient) (node : string) (vmid : Z)
    (w : world) : Py.result string * world :=
  match pve_client with
  | Some client =>
      if is_authenticated client then
        let '(result, w) := client_delete_vm client node vmid w in
        (_handle_response result "VM deletion", w)
      else (Return not_authenticated, w)
  | None => (Return not_authenticated, w)
  end.
End Tools.

(** What [_handle_response] takes for a success: a dict without
    ["error"] whose ["data"] is missing, [None], the empty string or a
    string that starts with [UPID]. *)
Definition accepted (result : pyval) : bool :=
  match result with
  | PDict items =>
      match items_lookup "error" items with
      | Some _ => false
      | None =>
          match items_lookup "data" items with
          | None | Some PNone => true
          | Some (PStr d) => String.prefix "UPID" d || String.eqb d ""
          | Some _ => false
          end
      end
  | _ => false
  end.

(** The four tools, each with the method and the path of its request. *)
Definition vm_tools (repr_str : string -> string)
    (remote : string -> string -> nat -> nat * pyval)
  : list ((option PveApiClient -> string -> Z -> world -> Py.result string * world)
          * string * (string -> Z -> string)) :=
  [ (start_vm repr_str remote, "POST",
     fun node vmid => "/nodes/" ++ node ++ "/qemu/" ++ str_int vmid ++ "/status/start");
    (shutdown_vm repr_str remote, "POST",
     fun node vmid => "/nodes/" ++ node ++ "/qemu/" ++ str_int vmid ++ "/status/shutdown");
    (reboot_vm repr_str remote, "POST",
     fun node vmid => "/nodes/" ++ node ++ "/qemu/" ++ str_int vmid ++ "/status/reboot");
    (delete_vm repr_str remote, "DELETE",
     fun node vmid => "/nodes/" ++ node ++ "/qemu/" ++ str_int vmid) ].

End Tools.

(** ** The translator of pve_agent.py: [sse_generator] without the bus *)

Module Legacy.
Import Py Translator.

(** How a piece of the generator ends: it goes on to the next statement,
    or it raises an [Exception], whose [str] is [detail]. *)
Inductive ended (A : Type) : Type :=
| Went (a : A)
| Raised (detail : string).
Arguments Went {A} a.
Arguments Raised {A} detail.

(** The generator of pve_agent.py: the frames it yields, and how it
    ends.  It reads no clock and broadcasts nothing. *)
Definition gen (A : Type) : Type := list string * ended A.

#[global] Instance gen_ret : MRet gen := fun A a => ([], Went a).
#[global] Instance gen_bind : MBind gen := fun A B f m =>
  match m with
  | (frames, Went a) => let '(frames', r) := f a in ((frames ++ frames')%list, r)
  | (frames, Raised detail) => (frames, Raised detail)
  end.

Definition yield (frame : string) : gen unit := ([frame], Went tt).
Definition raise {A : Type} (detail : string) : gen A := ([], Raised detail).

(** [try: body except Exception as e: handler(str(e))]. *)
Definition try_except (body : gen unit) (handler : string -> gen unit) : gen unit :=
  match body with
  | (frames, Went a) => (frames, Went a)
  | (frames, Raised detail) =>
      let '(frames', r) := handler detail in ((frames ++ frames')%list, r)
  end.

Fixpoint for_each {A : Type} (l : list A) (body : A -> gen unit) : gen unit :=
  match l with
  | [] => mret tt
  | x :: rest => _ ← body x; for_each rest body
  end.

Definition for_key {A : Type} (field : option (list A)) (body : A -> gen unit) : gen unit :=
  match field with
  | Some l => for_each l body
  | None => mret tt
  end.

(** pve_agent.py imports neither [AIMessage] nor [ToolMessage], and
    binds them nowhere: the test [isinstance(message, AIMessage)], the
    first thing done with a message, raises [NameError]. *)
Definition name_error : string := "name 'AIMessage' is not defined".

Definition on_message (m : message) : gen unit := raise name_error.

Definition on_call (call : tool_call) : gen unit :=
  let payload :=
    json_dumps (PDict [("type", PStr "tool_call"); ("name", PStr (call_name call));
                       ("args", call_args call)]) in
  yield (sse None payload).

Definition on_answer (response : option string) : gen unit :=
  match response with
  | Some answer =>
      let payload := json_dumps (PDict [("type", PStr "answer"); ("content", PStr answer)]) in
      yield (sse (Some "result") payload)
  | None => mret tt
  end.

Definition on_update (u : update) : gen unit :=
  _ ← for_key (messages u) on_message;
  _ ← for_key (tool_calls u) on_call;
  on_answer (structured_response u).

(** The body of the [try] block. *)
Fixpoint run (steps : astream) : gen unit :=
  match steps with
  | Stop => mret tt
  | Fail detail => raise detail
  | Step values rest =>
      _ ← for_each values on_update;
      run rest
  end.

Definition sse_generator (agent : string -> Z -> astream) (msg : string) (thread_id : Z)
  : gen unit :=
  _ ← yield (sse (Some "start") "开始处理...");
  _ ← try_except (run (agent msg thread_id))
        (fun e =>
           let error_msg := json_dumps (PDict [("type", PStr "error"); ("content", PStr e)]) in
           yield (sse (Some "error") error_msg));
  yield (sse (Some "done") "[DONE]").

(** The frames of one invocation, when its stream is read to the end. *)
Definition frames (agent : string -> Z -> astream) (msg : string) (thread_id : Z)
  : list string :=
  fst (sse_generator agent msg thread_id).

(** *** Views of an upstream execution *)

(** An update that holds a message. *)
Definition has_message (u : update) : bool :=
  match messages u with
  | Some (_ :: _) => true
  | _ => false
  end.

(** No update of the execution holds a message. *)
Fixpoint quiet (steps : astream) : bool :=
  match steps with
  | Stop => true
  | Fail _ => true
  | Step values rest => forallb (fun u => negb (has_message u)) values && quiet rest
  end.

(** The updates before the first one that holds a message, and whether
    there is such a one. *)
Fixpoint quiet_prefix (values : list update) : list update * bool :=
  match values with
  | [] => ([], false)
  | u :: rest =>
      if has_message u then ([], true)
      else let '(l, found) := quiet_prefix rest in (u :: l, found)
  end.

(** The execution that raises [NameError] where the given one hands out
    its first message. *)
Fixpoint cut (steps : astream) : astream :=
  match steps with
  | Stop => Stop
  | Fail detail => Fail detail
  | Step values rest =>
      let '(l, found) := quiet_prefix values in
      Step l (if found then Fail name_error else cut rest)
  end.

End Legacy.

(** ** Views of a trace and of a response body *)

Module TranslatorViews.
Import Py Translator.

(** The events made of these fields, one after the other, each with the
    reading of the clock that follows the one of the event before it. *)
Fixpoint stamps (time_time : nat -> pyval) (thread_id : Z) (k : nat)
    (fieldss : list (list (string * pyval))) : list pyval :=
  match fieldss with
  | [] => []
  | fields :: rest =>
      event thread_id (time_time k) fields :: stamps time_time thread_id (S k) rest
  end.

(** A piece of the generator that reads the clock once for each event it
    broadcasts, just before it does so. *)
Definition stamped (time_time : nat -> pyval) (thread_id : Z) (g : gen unit) : Prop :=
  forall k, exists fieldss,
    published (snd (g k)) = stamps time_time thread_id k fieldss
    /\ snd (fst (g k)) = (k + length fieldss)%nat.

(** What a client receives of a [StreamingResponse]: the chunks the
    generator yields, one after the other. *)
Definition body (frames : list string) : string := foldr String.append "" frames.

(** A chunk that is one frame. *)
Definition framed (f : string) : Prop :=
  exists label data, Wire.frame_with label data f.

(** The test [sse_generator] puts an AI message to before it passes it
    on: some content, which does not start with the marker of the raw
    structured response. *)
Definition shown (content : string) : bool :=
  negb (String.eqb content "")
  && negb (String.prefix "Returning structured response" content).

(** The contents of the AI messages of an upstream execution, in the
    order the translator meets them. *)
Definition ai_content (m : message) : option string :=
  match m with
  | AIMessage content => Some content
  | _ => None
  end.

Definition ai_contents_of (u : update) : list string :=
  match messages u with
  | Some l => omap ai_content l
  | None => []
  end.

Fixpoint ai_contents (steps : astream) : list string :=
  match steps with
  | Stop => []
  | Fail _ => []
  | Step values rest => (flat_map ai_contents_of values ++ ai_contents rest)%list
  end.

(** The content of an event that says it is a thought. *)
Definition thought_of (e : pyval) : option string :=
  if eq_str (type_of e) "thought" then
    match Py.get e "content" PNone with
    | Py.Return (PStr content) => Some content
    | _ => None
    end
  else None.

(** The thoughts among the events of a piece of the generator. *)
Definition thinks (g : gen unit) (l : list string) : Prop :=
  forall k, omap thought_of (published (snd (g k))) = l.

End TranslatorViews.

(** ** The client and the health route: [PveApiClient.__init__],
    [authenticate], [initialize_pve_agent], [health_check] *)

Module Client.
Import Py.

(** [s.rstrip('/')]. *)
Fixpoint rstrip (s : string) : string :=
  match s with
  | EmptyString => ""
  | String c rest =>
      match rstrip rest with
      | EmptyString => if Ascii.eqb c "/" then "" else String c ""
      | r => String c r
      end
  end.

(** What [os.getenv] gives: a [str], or [None]. *)
Definition truthy (v : option string) : bool :=
  match v with
  | Some s => negb (String.eqb s "")
  | None => false
  end.

Definition str (v : option string) : string :=
  match v with
  | Some s => s
  | None => "None"
  end.

Record PveApiClient : Type := {
  base_url : string;
  token_id : option string;
  token_secret : option string;
  auth_header : string;
  is_authenticated : bool
}.

Definition __init__ (api_url : string) (token_id token_secret : option string)
  : PveApiClient :=
  {| base_url := rstrip api_url;
     token_id := token_id;
     token_secret := token_secret;
     auth_header := "PVEAPIToken " ++ str token_id ++ "=" ++ str token_secret;
     is_authenticated := false |}.

Definition set_is_authenticated (self : PveApiClient) (b : bool) : PveApiClient :=
  {| base_url := base_url self;
     token_id := token_id self;
     token_secret := token_secret self;
     auth_header := auth_header self;
     is_authenticated := b |}.

Definition authenticate (self : PveApiClient) : bool * PveApiClient :=
  if truthy (token_id self) && truthy (token_secret self) then
    (true, set_is_authenticated self true)
  else (false, set_is_authenticated self false).

(** [initialize_pve_agent]: the value it leaves in the global
    [pve_client]. *)
Definition initialize_pve_agent (PVE_API_URL : string)
    (PVE_TOKEN_ID PVE_TOKEN_SECRET : option string) : option PveApiClient :=
  let pve_client := __init__ PVE_API_URL PVE_TOKEN_ID PVE_TOKEN_SECRET in
  Some (snd (authenticate pve_client)).

(** [health_check]: the text and the status code of the response. *)
Definition health_check (pve_client : option PveApiClient) : string * Z :=
  match pve_client with
  | Some client =>
      if is_authenticated client then ("PVE Agent is authenticated and running.", 200)
      else ("PVE Agent is running, but PVE authentication failed.", 503)
  | None => ("PVE Agent is running, but PVE authentication failed.", 503)
  end.

(** The part of the client the tools and the poller read. *)
Definition view (pve_client : option PveApiClient) : option Poller.PveApiClient :=
  match pve_client with
  | Some client => Some {| Poller.is_authenticated := is_authenticated client |}
  | None => None
  end.

End Client.

(** ** The alert pusher: [format_alert_for_agent] and [receive_alert]
    (src/monitoring/pusher/prometheus_pusher.py) *)

Module Pusher.
Import Py.

(** The exceptions [format_alert_for_agent] can raise. *)
Inductive error : Type :=
| KeyError (key : string)
| TypeError
| AttributeError.

Inductive result (A : Type) : Type :=
| Return (a : A)
| Raise (e : error).
Arguments Return {A} a.
Arguments Raise {A} e.

#[global] Instance result_ret : MRet result := @Return.
#[global] Instance result_bind : MBind result := fun A B k r =>
  match r with
  | Return a => k a
  | Raise e => Raise e
  end.

(** [bool(v)], what [not v] negates. *)
Definition truthy (v : pyval) : bool :=
  match v with
  | PNone => false
  | PBool b => b
  | PInt z => negb (z =? 0)%Z
  | PStr s => negb (String.eqb s "")
  | PList l => match l with [] => false | _ => true end
  | PDict items => match items with [] => false | _ => true end
  end.

(** [v.get(key, default)]: only a dict has the method. *)
Definition get (v : pyval) (key : string) (default : pyval) : result pyval :=
  match v with
  | PDict items =>
      Return (match items_lookup key items with Some x => x | None => default end)
  | _ => Raise AttributeError
  end.

(** [v[key]] for a [str] key: a dict is looked up, nothing else takes a
    [str] between the brackets. *)
Definition subscript (v : pyval) (key : string) : result pyval :=
  match v with
  | PDict items =>
      match items_lookup key items with
      | Some x => Return x
      | None => Raise (KeyError key)
      end
  | _ => Raise TypeError
  end.

(** The characters of a [str], each with the bytes that continue it. *)
Definition is_continuation (c : ascii) : bool :=
  (128 <=? nat_of_ascii c)%nat && (nat_of_ascii c <? 192)%nat.

Fixpoint split_chars (s : string) : string * list string :=
  match s with
  | EmptyString => ("", [])
  | String c rest =>
      let '(continuation, l) := split_chars rest in
      if is_continuation c then (String c continuation, l)
      else ("", String c continuation :: l)
  end.

(** [for x in v]: the items of a list, the keys of a dict, the characters
    of a [str]; nothing else is iterable. *)
Definition iterate (v : pyval) : result (list pyval) :=
  match v with
  | PList l => Return l
  | PDict items => Return (map (fun kv => PStr (fst kv)) items)
  | PStr s => Return (map PStr (snd (split_chars s)))
  | _ => Raise TypeError
  end.

(** The body of a [for] loop that appends to a list, run on each item in
    turn. *)
Fixpoint for_append {A : Type} (body : pyval -> result A) (l : list pyval) : result (list A) :=
  match l with
  | [] => Return []
  | x :: rest =>
      y ← body x;
      ys ← for_append body rest;
      Return (y :: ys)
  end.

Section Format.
Variable repr_str : string -> string.

(** The body of the loop of [format_alert_for_agent]: the message of one
    alert. *)
Definition format_one (alert : pyval) : result string :=
  st ← subscript alert "status";
  let status := if eq_str st "firing" then "【激活中】" else "【已解决】" in
  labels ← subscript alert "labels";
  severity ← get labels "severity" (PStr "未知");
  labels ← subscript alert "labels";
  alertname ← get labels "alertname" (PStr "未知告警");
  labels ← subscript alert "labels";
  instance ← get labels "instance" (PStr "未知节点");
  annotations ← subscript alert "annotations";
  summary ← get annotations "summary" (PStr "无摘要");
  startsAt ← subscript alert "startsAt";
  Return (status ++ " 级别: " ++ str repr_str severity
          ++ " 告警名称: " ++ str repr_str alertname ++ "。"
          ++ " 目标节点: " ++ str repr_str instance ++ "。"
          ++ " 详细描述: " ++ str repr_str summary ++ "。"
          ++ " 触发时间: " ++ str repr_str startsAt ++ "。").

Definition empty_notice : string := "收到空告警通知。".

Definition format_alert_for_agent (alert_data : pyval) : result string :=
  alerts ← get alert_data "alerts" (PList []);
  if negb (truthy alerts) then Return empty_notice
  else
    items ← iterate alerts;
    formatted_messages ← for_append format_one items;
    Return (join nl formatted_messages).

(** *** [receive_alert] *)

(** [await request.json()]: the decoded body, or the exception the
    decoder raises, with its text. *)
Inductive request : Type :=
| Json (alert_data : pyval)
| NotJson (detail : string).

(** What becomes of the POST to the agent: the reply passes
    [raise_for_status], or it makes it raise [HTTPStatusError], or the
    request itself raises; an exception comes with its text. *)
Inductive reply : Type :=
| Accepted
| StatusError (detail : string)
| RequestFailed (detail : string).

Record JSONResponse : Type := { content : pyval; status_code : Z }.

(** [str(e)] for the exceptions of [format_alert_for_agent]. *)
Variable error_str : error -> string.

(** The agent: the outcome of [client.post(PVE_AGENT_ALERT_URL, json=payload)]
    followed by [response.raise_for_status()]. *)
Variable post : pyval -> reply.

Definition payload (formatted_msg : string) : pyval :=
  PDict [("message", PStr ("紧急告警通知，请注意:" ++ nl ++ formatted_msg));
         ("thread_id", PInt 999)].

Definition forwarded : JSONResponse :=
  {| content := PDict [("status", PStr "success");
                       ("message", PStr "Alert forwarded to PVE Agent.")];
     status_code := 200 |}.

Definition agent_error (detail : string) : JSONResponse :=
  {| content := PDict [("status", PStr "error");
                       ("message", PStr ("PVE Agent returned error: " ++ detail))];
     status_code := 500 |}.

Definition internal_error (detail : string) : JSONResponse :=
  {| content := PDict [("status", PStr "error");
                       ("message", PStr ("Internal server error: " ++ detail))];
     status_code := 500 |}.

(** The response, and the payloads posted to the agent on the way. *)
Definition receive_alert (req : request) : JSONResponse * list pyval :=
  match req with
  | NotJson detail => (internal_error detail, [])
  | Json alert_data =>
      match format_alert_for_agent alert_data with
      | Raise e => (internal_error (error_str e), [])
      | Return formatted_msg =>
          match post (payload formatted_msg) with
          | Accepted => (forwarded, [payload formatted_msg])
          | StatusError detail => (agent_error detail, [payload formatted_msg])
          | RequestFailed detail => (internal_error detail, [payload formatted_msg])
          end
      end
  end.
End Format.

(** An alert the loop can format: a dict with a status, a start time and,
    as dicts, its labels and its annotations. *)
Definition complete (alert : pyval) : bool :=
  match alert with
  | PDict items =>
      match items_lookup "status" items, items_lookup "labels" items,
            items_lookup "annotations" items, items_lookup "startsAt" items with
      | Some _, Some (PDict _), Some (PDict _), Some _ => true
      | _, _, _, _ => false
      end
  | _ => false
  end.

End Pusher.

(** * Properties *)

(** ** The status poller *)

Section PollerFacts.
Import Py Poller.

Variable repr_str : string -> string.
Variable remote : string -> string -> nat -> nat * pyval.
Variables (node upid : string) (timeout : Z).

  (** The client, once authenticated. *)
Abbreviation client := authenticated.

Abbreviation path := (task_path node upid).
Abbreviation poll := (Poller.poll repr_str remote client node upid timeout).
Abbreviation poll_collapsed := (Poller.poll_collapsed repr_str remote client node upid timeout).
Abbreviation reply := (Poller.reply remote node upid).
Abbreviation turn := (Poller.turn remote client node upid).
Abbreviation body := (Poller.body repr_str remote node upid).
Abbreviation running := (Poller.running remote node upid).

Lemma api_request_reply w :
    api_request remote client "GET" path (time_sleep 2 w) = (reply (calls w), turn w).
Proof.
    unfold turn, reply, api_request. simpl.
    destruct (remote "GET" path (calls w)); reflexivity.
Qed.

Lemma turn_calls w : calls (turn w) = S (calls w).
Proof.
    unfold turn, api_request. simpl.
    destruct (remote "GET" path (calls w)); reflexivity.
Qed.

Lemma turn_now w : now w + 2 <= now (turn w).
Proof.
    unfold turn, api_request. simpl.
    destruct (remote "GET" path (calls w)); simpl. lia.
Qed.

Lemma turns_calls n w : calls (Nat.iter n turn w) = (calls w + n)%nat.
Proof.
    induction n as [|n IH]; simpl; [lia|]. rewrite turn_calls, IH. lia.
Qed.

Lemma turns_now n w : now w + 2 * Z.of_nat n <= now (Nat.iter n turn w).
Proof.
    induction n as [|n IH]; simpl; [lia|].
    pose proof (turn_now (Nat.iter n turn w)). lia.
Qed.

  (** One step of the loop, case by case. *)
Lemma poll_exit fuel start st w :
    (now w - start <? timeout) = false ->
    poll (S fuel) start st w = Some (after_loop repr_str upid timeout st, w).
Proof. intros H. simpl. rewrite H. reflexivity. Qed.

Lemma poll_fetch_error fuel start st w :
    (now w - start <? timeout) = true ->
    fetch_error (reply (calls w)) = true ->
    poll (S fuel) start st w
    = Some (Return (fetch_failed repr_str upid (reply (calls w))), turn w).
Proof.
    intros H He. simpl. rewrite H, api_request_reply, He. reflexivity.
Qed.

Lemma poll_stopped fuel start st w s e :
    (now w - start <? timeout) = true ->
    fetch_error (reply (calls w)) = false ->
    read_status (reply (calls w)) = Return (s, e) ->
    eq_str s "stopped" = true ->
    poll (S fuel) start st w
    = Some (Return (if eq_str e "OK" then succeeded repr_str upid e
                    else failed repr_str upid e), turn w).
Proof.
    intros H He Hr Hs. simpl. rewrite H, api_request_reply, He, Hr, Hs.
    destruct (eq_str e "OK"); reflexivity.
Qed.

Lemma poll_again fuel start st w s e :
    (now w - start <? timeout) = true ->
    fetch_error (reply (calls w)) = false ->
    read_status (reply (calls w)) = Return (s, e) ->
    eq_str s "stopped" = false ->
    (now (turn w) - start >? timeout) = false ->
    poll (S fuel) start st w = poll fuel start (Some s) (turn w).
Proof.
    intros H He Hr Hs Hl. simpl. rewrite H, api_request_reply, He, Hr, Hs, Hl. reflexivity.
Qed.

Lemma poll_unfold fuel start st w :
  poll (S fuel) start st w
  = if (now w - start <? timeout)%Z then
      match body w with
      | Done r => Some (r, turn w)
      | Again s =>
          if (now (turn w) - start >? timeout)%Z then
            Some (Return (timed_out repr_str upid timeout s), turn w)
          else poll fuel start (Some s) (turn w)
      end
    else Some (after_loop repr_str upid timeout st, w).
Proof.
  simpl. destruct (now w - start <? timeout); [|reflexivity].
  rewrite api_request_reply. unfold body.
  destruct (fetch_error (reply (calls w))); [reflexivity|].
  destruct (read_status (reply (calls w))) as [[s e]|e]; [|reflexivity].
  destruct (eq_str s "stopped"); [|reflexivity].
  destruct (eq_str e "OK"); reflexivity.
Qed.

Lemma poll_collapsed_unfold fuel start st w :
  poll_collapsed (S fuel) start st w
  = if (now w - start <? timeout)%Z then
      match body w with
      | Done r => Some (r, turn w)
      | Again s => poll_collapsed fuel start (Some s) (turn w)
      end
    else Some (after_loop repr_str upid timeout st, w).
Proof.
  simpl. destruct (now w - start <? timeout); [|reflexivity].
  rewrite api_request_reply. unfold body.
  destruct (fetch_error (reply (calls w))); [reflexivity|].
  destruct (read_status (reply (calls w))) as [[s e]|e]; [|reflexivity].
  destruct (eq_str s "stopped"); [|reflexivity].
  destruct (eq_str e "OK"); reflexivity.
Qed.

(** The loop returns: every turn moves the clock two seconds on, so the
    distance to the deadline bounds the number of turns. *)
Lemma poll_total fuel start st w :
  (Z.to_nat (timeout - (now w - start)) < fuel)%nat ->
  exists r, poll fuel start st w = Some r.
Proof.
  revert st w. induction fuel as [|fuel IH]; intros st w Hfuel; [lia|].
  rewrite poll_unfold.
  destruct (now w - start <? timeout) eqn:Hloop; [|eauto].
  apply Z.ltb_lt in Hloop.
  destruct (body w) as [r|s]; [eauto|].
  destruct (now (turn w) - start >? timeout); [eauto|].
  apply IH. pose proof (turn_now w). lia.
Qed.

Lemma poll_collapsed_total fuel start st w :
  (Z.to_nat (timeout - (now w - start)) < fuel)%nat ->
  exists r, poll_collapsed fuel start st w = Some r.
Proof.
  revert st w. induction fuel as [|fuel IH]; intros st w Hfuel; [lia|].
  rewrite poll_collapsed_unfold.
  destruct (now w - start <? timeout) eqn:Hloop; [|eauto].
  apply Z.ltb_lt in Hloop.
  destruct (body w) as [r|s]; [eauto|].
  apply IH. pose proof (turn_now w). lia.
Qed.

(** More fuel does not change a result. *)
Lemma poll_more_fuel fuel start st w r :
  poll fuel start st w = Some r -> poll (S fuel) start st w = Some r.
Proof.
  revert st w. induction fuel as [|fuel IH]; intros st w; [discriminate|].
  rewrite (poll_unfold (S fuel)), (poll_unfold fuel).
  destruct (now w - start <? timeout); [|trivial].
  destruct (body w) as [r'|s]; [trivial|].
  destruct (now (turn w) - start >? timeout); [trivial|]. apply IH.
Qed.

Lemma poll_collapsed_more_fuel fuel start st w r :
  poll_collapsed fuel start st w = Some r -> poll_collapsed (S fuel) start st w = Some r.
Proof.
  revert st w. induction fuel as [|fuel IH]; intros st w; [discriminate|].
  rewrite (poll_collapsed_unfold (S fuel)), (poll_collapsed_unfold fuel).
  destruct (now w - start <? timeout); [|trivial].
  destruct (body w) as [r'|s]; [trivial|]. apply IH.
Qed.

(** The second deadline test returns what the loop condition, failing on
    the next turn, makes the code after the loop return. *)
Lemma poll_collapsed_simulates fuel start st w r :
  poll fuel start st w = Some r -> poll_collapsed (S fuel) start st w = Some r.
Proof.
  revert st w. induction fuel as [|fuel IH]; intros st w; [discriminate|].
  rewrite poll_unfold, (poll_collapsed_unfold (S fuel)).
  destruct (now w - start <? timeout); [|trivial].
  destruct (body w) as [r'|s]; [trivial|].
  destruct (now (turn w) - start >? timeout) eqn:Hlate; [|apply IH].
  intros <-. rewrite poll_collapsed_unfold.
  apply Z.gtb_lt in Hlate.
  destruct (now (turn w) - start <? timeout) eqn:Hloop; [|reflexivity].
  apply Z.ltb_lt in Hloop. lia.
Qed.

(** While the replies say the task is still running and the deadline is
    not reached, the loop goes on: after [n] such turns it stands at the
    [n]-th world with the last status read in [status]. *)
Lemma poll_running fuel start st w s :
  (now w - start < timeout)%Z ->
  (now (turn w) - start <= timeout)%Z ->
  running (calls w) s ->
  poll (S fuel) start st w = poll fuel start (Some s) (turn w).
Proof.
  intros Hloop Hlate (He & [e Hr] & Hs).
  apply (poll_again _ _ _ _ s e); trivial.
  - apply Z.ltb_lt, Hloop.
  - rewrite Z.gtb_ltb. apply Z.ltb_ge, Hlate.
Qed.

Lemma poll_running_turns n : forall fuel start st w,
  (forall i, (i < n)%nat -> exists s, running (calls w + i) s) ->
  (now (Nat.iter n turn w) - start < timeout)%Z ->
  exists st',
    poll (n + fuel) start st w = poll fuel start st' (Nat.iter n turn w)
    /\ (n = 0%nat -> st' = st)
    /\ (forall m, n = S m -> exists s, st' = Some s /\ running (calls w + m) s).
Proof.
  induction n as [|n IH]; intros fuel start st w Hrun Hnow.
  - exists st. split; [reflexivity|]. split; [trivial|discriminate].
  - destruct (IH (S fuel) start st w) as (st' & Hpoll & _ & _).
    + intros i Hi. apply Hrun. lia.
    + simpl in Hnow. pose proof (turn_now (Nat.iter n turn w)). lia.
    + destruct (Hrun n) as [s Hs]; [lia|].
      exists (Some s). split; [|split; [discriminate|]].
      * replace (S n + fuel)%nat with (n + S fuel)%nat by lia.
        rewrite Hpoll. simpl Nat.iter.
        apply poll_running.
        -- simpl in Hnow. pose proof (turn_now (Nat.iter n turn w)). lia.
        -- simpl in Hnow. lia.
        -- rewrite turns_calls. exact Hs.
      * intros m [= <-]. eauto.
Qed.

Lemma body_running w s : running (calls w) s -> body w = Again s.
Proof.
  intros (He & [e Hr] & Hs). unfold Poller.body.
  rewrite He, Hr, Hs. reflexivity.
Qed.

Lemma iter_turn_shift n w : Nat.iter n turn (turn w) = Nat.iter (S n) turn w.
Proof. induction n as [|n IH]; [reflexivity|]. simpl. rewrite IH. reflexivity. Qed.

(** When no reply ever says [stopped], the loop ends on the deadline: it
    returns what the code after the loop returns, with the status of the
    last reply. *)
Lemma poll_never_stopped fuel : forall start st w,
  (Z.to_nat (timeout - (now w - start)) < fuel)%nat ->
  (forall k, exists s, running k s) ->
  exists n st',
    poll fuel start st w
    = Some (after_loop repr_str upid timeout st', Nat.iter n turn w)
    /\ (timeout <= now (Nat.iter n turn w) - start)%Z
    /\ (n = 0%nat -> st' = st)
    /\ (forall m, n = S m ->
          (now (Nat.iter m turn w) - start < timeout)%Z
          /\ exists s, st' = Some s /\ running (calls w + m) s).
Proof.
  induction fuel as [|fuel IH]; intros start st w Hfuel Hrun; [lia|].
  rewrite poll_unfold.
  destruct (now w - start <? timeout) eqn:Hloop.
  - apply Z.ltb_lt in Hloop.
    destruct (Hrun (calls w)) as [s Hs].
    rewrite (body_running _ _ Hs).
    destruct (now (turn w) - start >? timeout) eqn:Hlate.
    + apply Z.gtb_lt in Hlate.
      exists 1%nat, (Some s). simpl.
      split; [reflexivity|]. split; [lia|]. split; [discriminate|].
      intros m [= <-]. simpl. split; [lia|].
      exists s. rewrite Nat.add_0_r. auto.
    + destruct (IH start (Some s) (turn w)) as (n & st' & Hpoll & Hend & Hzero & Hsucc).
      * pose proof (turn_now w). lia.
      * exact Hrun.
      * exists (S n), st'. rewrite <- iter_turn_shift.
        split; [exact Hpoll|]. split; [exact Hend|]. split; [discriminate|].
        intros m [= <-]. destruct n as [|n'].
        -- split; [simpl; lia|]. exists s. rewrite Nat.add_0_r. auto.
        -- destruct (Hsucc n' eq_refl) as (Hlt & s' & -> & Hs').
           rewrite <- iter_turn_shift. split; [exact Hlt|].
           exists s'. split; [reflexivity|].
           rewrite turn_calls in Hs'.
           replace (calls w + S n')%nat with (S (calls w) + n')%nat by lia. exact Hs'.
  - apply Z.ltb_ge in Hloop.
    exists 0%nat, st. simpl.
    split; [reflexivity|]. split; [lia|]. split; [reflexivity|discriminate].
Qed.

(** [get] raises nothing but [AttributeError]. *)
Lemma read_status_raises r e : read_status r = Raise e -> e = AttributeError.
Proof.
  unfold read_status. destruct r; simpl; try (intros [= <-]; reflexivity).
  destruct (match items_lookup "data" items with Some x => x | None => PDict [] end);
    simpl; intros [= <-]; reflexivity.
Qed.

Lemma body_bound w r : body w = Done r -> r <> Raise UnboundLocalError.
Proof.
  unfold Poller.body.
  destruct (fetch_error (reply (calls w))); [intros [= <-]; discriminate|].
  destruct (read_status (reply (calls w))) as [[s e]|e] eqn:Hr.
  - destruct (eq_str s "stopped"); [|discriminate].
    intros [= <-]. discriminate.
  - intros [= <-]. apply read_status_raises in Hr. subst e. discriminate.
Qed.

(** Once [status] is bound the loop never fails on it, and the request
    counter only grows. *)
Lemma poll_bound fuel : forall start s w r w',
  poll fuel start (Some s) w = Some (r, w') ->
  r <> Raise UnboundLocalError /\ (calls w <= calls w')%nat.
Proof.
  induction fuel as [|fuel IH]; intros start s w r w'; [discriminate|].
  rewrite poll_unfold.
  destruct (now w - start <? timeout).
  - destruct (body w) as [r0|s0] eqn:Hbody.
    + intros [= <- <-]. split; [eapply body_bound, Hbody|].
      rewrite turn_calls. lia.
    + destruct (now (turn w) - start >? timeout).
      * intros [= <- <-]. split; [discriminate|]. rewrite turn_calls. lia.
      * intros H. apply IH in H. rewrite turn_calls in H. split; [tauto|lia].
  - intros [= <- <-]. split; [discriminate|lia].
Qed.

(** The fuel [monitor_pve_task] runs the loop with is enough to reach any
    turn that starts before the deadline. *)
Lemma poll_fuel_reaches n w :
  (now (Nat.iter n turn w) - now w < timeout)%Z ->
  poll_fuel timeout = (n + S (Z.to_nat timeout - n))%nat.
Proof.
  intros H. pose proof (turns_now n w). unfold poll_fuel. lia.
Qed.

Lemma monitor_reaches n w :
  (forall i, (i < n)%nat -> exists s, running (calls w + i) s) ->
  (now (Nat.iter n turn w) - now w < timeout)%Z ->
  exists st fuel,
    monitor_pve_task repr_str remote (Some client) node upid timeout w
    = poll (S fuel) (now w) st (Nat.iter n turn w)
    /\ (now (Nat.iter n turn w) - now w <? timeout)%Z = true
    /\ calls (Nat.iter n turn w) = (calls w + n)%nat.
Proof.
  intros Hrun Hnow. unfold monitor_pve_task. cbn [is_authenticated authenticated].
  rewrite (poll_fuel_reaches n w Hnow).
  destruct (poll_running_turns n (S (Z.to_nat timeout - n)) (now w) None w Hrun Hnow)
    as (st & Hpoll & _).
  exists st, (Z.to_nat timeout - n)%nat. rewrite Hpoll.
  split; [reflexivity|]. split; [apply Z.ltb_lt, Hnow|apply turns_calls].
Qed.
End PollerFacts.

Import Py Poller.

Section ReportFacts.
Import PollerViews.

(** What the loop makes of a reply that carries a status. *)
Lemma reports_read response status exitstatus :
  reports response status exitstatus ->
  fetch_error response = false
  /\ read_status response
     = Return (status, match exitstatus with Some e => e | None => PStr "N/A" end).
Proof.
  intros (items & data & -> & Herror & Hdata & Hstatus & Hexit).
  unfold fetch_error, read_status. simpl. rewrite Herror, Hdata. simpl.
  rewrite Hstatus, Hexit. split; reflexivity.
Qed.

Lemma reports_running remote node upid k status exitstatus :
  reports (reply remote node upid k) status exitstatus ->
  eq_str status "stopped" = false ->
  running remote node upid k status.
Proof.
  intros Hreport Hstatus. destruct (reports_read _ _ _ Hreport) as [Hfetch Hread].
  split; [exact Hfetch|]. split; [eauto|exact Hstatus].
Qed.

Lemma running_reports remote node upid k s status exitstatus :
  running remote node upid k s ->
  reports (reply remote node upid k) status exitstatus ->
  s = status.
Proof.
  intros (_ & (e & Hread) & _) Hreport.
  destruct (reports_read _ _ _ Hreport) as [_ Hread']. congruence.
Qed.
End ReportFacts.

(** C2.  A run of [monitor_pve_task] whose status query number [n + 1]
    (the earlier ones having said the task is still running, the deadline
    not being reached before it) gets a reply whose ["status"] field is
    ["stopped"] returns at once, and the ["exitstatus"] field of that
    reply decides: the SUCCESS string when the field equals ["OK"], the
    FAILURE string carrying the field as it came otherwise ([N/A] when the
    reply has none); [n + 1] queries have been made.  In particular, with
    the replies running, running, stopped with exit ["OK"], answered at
    once, and a timeout above the four seconds slept before the third
    turn, the call returns the SUCCESS string after exactly three
    queries. *)
Theorem C2_stopped_reply_decides_outcome :
  forall (repr_str : string -> string) (node upid : string) (timeout : Z),
    (forall (remote : string -> string -> nat -> nat * pyval) (w : world) (n : nat)
            (exitstatus : option pyval),
        (forall i, (i < n)%nat -> exists s', running remote node upid (calls w + i) s') ->
        now (Nat.iter n (turn remote authenticated node upid) w) - now w < timeout ->
        PollerViews.reports (reply remote node upid (calls w + n)) (PStr "stopped") exitstatus ->
        exists w',
          monitor_pve_task repr_str remote (Some authenticated) node upid timeout w
          = Some (Return
                    match exitstatus with
                    | Some e =>
                        if eq_str e "OK" then
                          "SUCCESS: Task " ++ upid ++ " completed successfully. Exit status: OK"
                        else
                          "FAILURE: Task " ++ upid ++ " finished with error. Exit status: "
                          ++ str repr_str e ++ ". Check PVE task log for details."
                    | None =>
                        "FAILURE: Task " ++ upid ++ " finished with error. Exit status: "
                        ++ "N/A" ++ ". Check PVE task log for details."
                    end, w')
          /\ calls w' = (calls w + S n)%nat)
    /\ (forall t0 : Z,
          4 < timeout ->
          monitor_pve_task repr_str
            (scripted [task_reply "running" None; task_reply "running" None;
                       task_reply "stopped" (Some "OK")])
            (Some authenticated) node upid timeout {| now := t0; calls := 0 |}
          = Some (Return ("SUCCESS: Task " ++ upid ++ " completed successfully. Exit status: OK"),
                  {| now := t0 + 6; calls := 3 |})).
Proof.
  intros repr_str node upid timeout.
  assert (Hgen : forall remote w n s e,
             (forall i, (i < n)%nat -> exists s', running remote node upid (calls w + i) s') ->
             now (Nat.iter n (turn remote authenticated node upid) w) - now w < timeout ->
             fetch_error (reply remote node upid (calls w + n)) = false ->
             read_status (reply remote node upid (calls w + n)) = Return (s, e) ->
             eq_str s "stopped" = true ->
             monitor_pve_task repr_str remote (Some authenticated) node upid timeout w
             = Some (Return (if eq_str e "OK" then succeeded repr_str upid e
                             else failed repr_str upid e),
                     Nat.iter (S n) (turn remote authenticated node upid) w)).
  { intros remote w n s e Hrun Hnow He Hr Hs.
    destruct (monitor_reaches repr_str remote node upid timeout n w Hrun Hnow)
      as (st & fuel & -> & Hloop & Hcalls).
    rewrite <- Hcalls in He, Hr.
    apply (poll_stopped repr_str remote node upid timeout fuel _ st _ s e Hloop He Hr Hs). }
  split.
  - intros remote w n exitstatus Hrun Hnow Hreport.
    destruct (reports_read _ _ _ Hreport) as [Hfetch Hread].
    exists (Nat.iter (S n) (turn remote authenticated node upid) w).
    rewrite (Hgen remote w n _ _ Hrun Hnow Hfetch Hread eq_refl).
    split; [|apply turns_calls].
    destruct exitstatus as [e|]; [|reflexivity].
    destruct e as [| | |x| |]; try reflexivity.
    unfold eq_str. destruct (String.eqb x "OK") eqn:Hx; [|reflexivity].
    apply String.eqb_eq in Hx. subst x. reflexivity.
  - intros t0 Htimeout.
    rewrite (Hgen _ {| now := t0; calls := 0 |} 2%nat (PStr "stopped") (PStr "OK")).
    + unfold turn, api_request, time_sleep, scripted, succeeded. simpl.
      do 3 f_equal. lia.
    + intros i Hi. exists (PStr "running").
      destruct i as [|[|i]]; [| |lia]; (split; [reflexivity|]);
        (split; [|reflexivity]); eexists; reflexivity.
    + unfold turn, api_request, time_sleep, scripted. simpl. lia.
    + reflexivity.
    + reflexivity.
    + reflexivity.
Qed.

(** C3.  With a positive timeout and replies that all carry a status
    other than ["stopped"], [monitor_pve_task] returns the timed-out
    string, and the status in it is the ["status"] field of the last reply
    it got; the deadline has then been reached, and a query only starts
    before it, two seconds at least after the one before: with a timeout
    of 5 at most three queries are made. *)
Theorem C3_never_stopped_times_out :
  forall (repr_str : string -> string) (remote : string -> string -> nat -> nat * pyval)
         (node upid : string) (timeout : Z) (w : world),
    0 < timeout ->
    (forall k, exists s exitstatus,
        PollerViews.reports (reply remote node upid k) s exitstatus
        /\ eq_str s "stopped" = false) ->
    exists (n : nat) (s : pyval) (exitstatus : option pyval) (w' : world),
      PollerViews.reports (reply remote node upid (calls w + n)) s exitstatus
      /\ monitor_pve_task repr_str remote (Some authenticated) node upid timeout w
         = Some (Return ("ERROR: Task " ++ upid ++ " timed out after " ++ str_int timeout
                         ++ " seconds. Current status: " ++ str repr_str s), w')
      /\ calls w' = (calls w + S n)%nat
      /\ timeout <= now w' - now w
      /\ 2 * Z.of_nat n < timeout
      /\ (timeout = 5 -> (S n <= 3)%nat).
Proof.
  intros repr_str remote node upid timeout w Hpos Hreports.
  assert (Hrun : forall k, exists s, running remote node upid k s).
  { intros k. destruct (Hreports k) as (s & exitstatus & Hreport & Hs).
    exists s. apply (reports_running remote node upid k s exitstatus Hreport Hs). }
  unfold monitor_pve_task. cbn [is_authenticated authenticated].
  destruct (poll_never_stopped repr_str remote node upid timeout (poll_fuel timeout)
              (now w) None w) as (n & st' & Hpoll & Hend & _ & Hsucc).
  { unfold poll_fuel. lia. }
  { exact Hrun. }
  destruct n as [|m]; [simpl in Hend; lia|].
  destruct (Hsucc m eq_refl) as (Hlt & s & -> & Hs).
  destruct (Hreports (calls w + m)%nat) as (s' & exitstatus & Hreport & _).
  rewrite (running_reports remote node upid _ s s' exitstatus Hs Hreport) in *.
  exists m, s', exitstatus, (Nat.iter (S m) (turn remote authenticated node upid) w).
  split; [exact Hreport|]. split; [exact Hpoll|]. split; [apply turns_calls|].
  split; [exact Hend|].
  pose proof (turns_now remote node upid m w) as Hm.
  split; [lia|]. intros ->. lia.
Qed.

(** C7.  A run of [monitor_pve_task] whose status query number [n + 1]
    fails (the reply is [None] or a dict with an ["error"] key) returns at
    once the fetch-failure string with the reply in it: the failed query is
    the last one made. *)
Theorem C7_failed_fetch_short_circuits :
  forall (repr_str : string -> string) (remote : string -> string -> nat -> nat * pyval)
         (node upid : string) (timeout : Z) (w : world) (n : nat),
    (forall i, (i < n)%nat -> exists s, running remote node upid (calls w + i) s) ->
    now (Nat.iter n (turn remote authenticated node upid) w) - now w < timeout ->
    fetch_error (reply remote node upid (calls w + n)) = true ->
    exists w',
      monitor_pve_task repr_str remote (Some authenticated) node upid timeout w
      = Some (Return ("ERROR: Failed to fetch task status for " ++ upid ++ ". Details: "
                      ++ str repr_str (reply remote node upid (calls w + n))), w')
      /\ calls w' = (calls w + S n)%nat.
Proof.
  intros repr_str remote node upid timeout w n Hrun Hnow He.
  destruct (monitor_reaches repr_str remote node upid timeout n w Hrun Hnow)
    as (st & fuel & -> & Hloop & Hcalls).
  exists (Nat.iter (S n) (turn remote authenticated node upid) w).
  split; [|apply turns_calls].
  rewrite <- Hcalls in He |- *.
  apply (poll_fetch_error repr_str remote node upid timeout fuel _ st _ Hloop He).
Qed.

(** C8.  [monitor_pve_task] and the version with the second deadline test
    removed return the same thing, whatever the client, the task, the
    timeout and the remote end; and they do return. *)
Theorem C8_collapsed_deadline_test_equivalent :
  forall (repr_str : string -> string) (remote : string -> string -> nat -> nat * pyval)
         (pve_client : option PveApiClient) (node upid : string) (timeout : Z) (w : world),
    monitor_pve_task repr_str remote pve_client node upid timeout w
    = monitor_pve_task_collapsed repr_str remote pve_client node upid timeout w
    /\ exists r, monitor_pve_task repr_str remote pve_client node upid timeout w = Some r.
Proof.
  intros repr_str remote pve_client node upid timeout w.
  unfold monitor_pve_task, monitor_pve_task_collapsed.
  destruct pve_client as [[[|]]|]; cbn [is_authenticated]; [|eauto..].
  fold authenticated.
  destruct (poll_total repr_str remote node upid timeout (poll_fuel timeout) (now w) None w)
    as [r Hr]; [unfold poll_fuel; lia|].
  destruct (poll_collapsed_total repr_str remote node upid timeout (poll_fuel timeout)
              (now w) None w) as [r' Hr']; [unfold poll_fuel; lia|].
  split; [|eauto].
  rewrite Hr, Hr'. f_equal.
  apply poll_collapsed_simulates in Hr.
  apply poll_collapsed_more_fuel in Hr'.
  congruence.
Qed.

(** C10.  With an authenticated client and a positive timeout,
    [monitor_pve_task] makes a status query before it returns and never
    fails on the unbound [status]; with a timeout that is not positive it
    makes no query and the [return] after the loop raises
    [UnboundLocalError]. *)
Theorem C10_status_bound_iff_timeout_positive :
  forall (repr_str : string -> string) (remote : string -> string -> nat -> nat * pyval)
         (node upid : string) (timeout : Z) (w : world),
    (0 < timeout ->
     exists r w',
       monitor_pve_task repr_str remote (Some authenticated) node upid timeout w = Some (r, w')
       /\ (calls w < calls w')%nat
       /\ r <> Raise UnboundLocalError)
    /\ (timeout <= 0 ->
        monitor_pve_task repr_str remote (Some authenticated) node upid timeout w
        = Some (Raise UnboundLocalError, w)).
Proof.
  intros repr_str remote node upid timeout w.
  unfold monitor_pve_task. cbn [is_authenticated authenticated]. split.
  - intros Hpos. unfold poll_fuel. rewrite poll_unfold.
    replace (now w - now w <? timeout) with true by (symmetry; apply Z.ltb_lt; lia).
    destruct (body repr_str remote node upid w) as [r|s] eqn:Hbody.
    + eexists _, _. split; [reflexivity|]. rewrite turn_calls.
      split; [lia|]. eapply body_bound, Hbody.
    + destruct (_ >? timeout).
      * eexists _, _. split; [reflexivity|]. rewrite turn_calls.
        split; [lia|discriminate].
      * destruct (poll_total repr_str remote node upid timeout (Z.to_nat timeout) (now w)
                    (Some s) (turn remote authenticated node upid w)) as [[r w'] Hr].
        { pose proof (turn_now remote node upid w). lia. }
        rewrite Hr.
        apply poll_bound in Hr. rewrite turn_calls in Hr.
        eexists _, _. split; [reflexivity|]. split; [lia|tauto].
  - intros Hneg. unfold poll_fuel. rewrite poll_exit; [reflexivity|].
    apply Z.ltb_ge. lia.
Qed.

(** C2 on the run running, running, stopped with exit ["OK"], and on the
    run running, stopped with the exit status [TASK ERROR], with the
    default timeout. *)
Lemma C2_stopped_reply_decides_outcome_witness :
  (exists w',
      monitor_pve_task repr_plain
        (scripted [task_reply "running" None; task_reply "running" None;
                   task_reply "stopped" (Some "OK")])
        (Some authenticated) "pve" "UPID:pve:0001" 300 {| now := 0; calls := 0 |}
      = Some (Return "SUCCESS: Task UPID:pve:0001 completed successfully. Exit status: OK", w')
      /\ calls w' = 3%nat)
  /\ (exists w',
        monitor_pve_task repr_plain
          (scripted [task_reply "running" None; task_reply "stopped" (Some "TASK ERROR")])
          (Some authenticated) "pve" "UPID:pve:0001" 300 {| now := 0; calls := 0 |}
        = Some (Return "FAILURE: Task UPID:pve:0001 finished with error. Exit status: TASK ERROR. Check PVE task log for details.", w')
        /\ calls w' = 2%nat).
Proof.
  split.
  - apply (proj1 (C2_stopped_reply_decides_outcome repr_plain "pve" "UPID:pve:0001" 300)
             (scripted [task_reply "running" None; task_reply "running" None;
                        task_reply "stopped" (Some "OK")])
             {| now := 0; calls := 0 |} 2%nat (Some (PStr "OK"))).
    + intros i Hi. exists (PStr "running").
      destruct i as [|[|i]]; [| |lia];
        (split; [reflexivity|split; [eexists; reflexivity|reflexivity]]).
    + vm_compute. reflexivity.
    + eexists _, _. repeat split; reflexivity.
  - apply (proj1 (C2_stopped_reply_decides_outcome repr_plain "pve" "UPID:pve:0001" 300)
             (scripted [task_reply "running" None; task_reply "stopped" (Some "TASK ERROR")])
             {| now := 0; calls := 0 |} 1%nat (Some (PStr "TASK ERROR"))).
    + intros i Hi. exists (PStr "running").
      destruct i as [|i]; [|lia].
      split; [reflexivity|split; [eexists; reflexivity|reflexivity]].
    + vm_compute. reflexivity.
    + eexists _, _. repeat split; reflexivity.
Defined.

(** C3 on a task that stays running, with a timeout of 5: the status in
    the message is the one the replies carry, after three queries. *)
Lemma C3_never_stopped_times_out_witness :
  exists w',
    monitor_pve_task repr_plain (fun _ _ _ => (0%nat, task_reply "running" None))
      (Some authenticated) "pve" "UPID:pve:0001" 5 {| now := 0; calls := 0 |}
    = Some (Return "ERROR: Task UPID:pve:0001 timed out after 5 seconds. Current status: running", w')
    /\ calls w' = 3%nat.
Proof.
  destruct (C3_never_stopped_times_out repr_plain
              (fun _ _ _ => (0%nat, task_reply "running" None))
              "pve" "UPID:pve:0001" 5 {| now := 0; calls := 0 |})
    as (n & s & exitstatus & w' & Hreport & Hresult & Hcalls & Hlate & _ & _).
  - lia.
  - intros k. exists (PStr "running"), None. split; [|reflexivity].
    eexists _, _. repeat split; reflexivity.
  - exists w'.
    destruct Hreport as (items & data & Hreply & _ & Hdata & Hstatus & _).
    injection Hreply as <-. injection Hdata as <-. injection Hstatus as <-.
    split; [exact Hresult|].
    vm_compute in Hresult. injection Hresult as <-. reflexivity.
Defined.

(** C7 on a run whose second status query fails. *)
Lemma C7_failed_fetch_short_circuits_witness :
  exists w',
    monitor_pve_task repr_plain
      (scripted [task_reply "running" None; PDict [("error", PStr "Request failed")]])
      (Some authenticated) "pve" "UPID:pve:0001" 300 {| now := 0; calls := 0 |}
    = Some (Return "ERROR: Failed to fetch task status for UPID:pve:0001. Details: {'error': 'Request failed'}", w')
    /\ calls w' = 2%nat.
Proof.
  apply (C7_failed_fetch_short_circuits repr_plain
           (scripted [task_reply "running" None; PDict [("error", PStr "Request failed")]])
           "pve" "UPID:pve:0001" 300 {| now := 0; calls := 0 |} 1%nat).
  - intros i Hi. exists (PStr "running").
    destruct i as [|i]; [|lia].
    split; [reflexivity|split; [eexists; reflexivity|reflexivity]].
  - vm_compute. reflexivity.
  - reflexivity.
Defined.

(** C10 with a timeout of 5 and with a timeout of 0. *)
Lemma C10_status_bound_iff_timeout_positive_witness :
  (exists r w',
      monitor_pve_task repr_plain (fun _ _ _ => (0%nat, task_reply "running" None))
        (Some authenticated) "pve" "UPID:pve:0001" 5 {| now := 0; calls := 0 |} = Some (r, w')
      /\ (0 < calls w')%nat
      /\ r <> Raise UnboundLocalError)
  /\ monitor_pve_task repr_plain (fun _ _ _ => (0%nat, task_reply "running" None))
       (Some authenticated) "pve" "UPID:pve:0001" 0 {| now := 0; calls := 0 |}
     = Some (Raise UnboundLocalError, {| now := 0; calls := 0 |}).
Proof.
  split.
  - apply (proj1 (C10_status_bound_iff_timeout_positive repr_plain
                    (fun _ _ _ => (0%nat, task_reply "running" None))
                    "pve" "UPID:pve:0001" 5 {| now := 0; calls := 0 |})).
    lia.
  - apply (proj2 (C10_status_bound_iff_timeout_positive repr_plain
                    (fun _ _ _ => (0%nat, task_reply "running" None))
                    "pve" "UPID:pve:0001" 0 {| now := 0; calls := 0 |})).
    lia.
Defined.

(** ** The event bus *)

Section BusFacts.
Import Py Bus.

Lemma put_store x s q q' :
  store (put x s q) !! q'
  = if decide (q = q') then (fun buf => buf ++ [x])%list <$> store s !! q else store s !! q'.
Proof. unfold put. simpl. apply lookup_alter. Qed.

Lemma foldl_put_registry x l : forall s,
  MONITOR_QUEUES (foldl (put x) s l) = MONITOR_QUEUES s
  /\ next_id (foldl (put x) s l) = next_id s.
Proof.
  induction l as [|q l IH]; intros s; simpl; [auto|].
  destruct (IH (put x s q)) as [-> ->]. auto.
Qed.

Lemma foldl_put_store x l : forall s q,
  NoDup l ->
  store (foldl (put x) s l) !! q
  = if decide (q ∈ l) then (fun buf => buf ++ [x])%list <$> store s !! q else store s !! q.
Proof.
  induction l as [|q0 l IH]; intros s q Hnd; simpl.
  - destruct (decide (q ∈ [])) as [H|_]; [|reflexivity].
    apply elem_of_nil in H. destruct H.
  - apply NoDup_cons in Hnd as [Hnotin Hnd].
    rewrite (IH _ _ Hnd), put_store.
    destruct (decide (q ∈ l)) as [Hin|Hout].
    + destruct (decide (q0 = q)) as [->|Hne]; [contradiction|].
      rewrite decide_True by (apply elem_of_cons; auto). reflexivity.
    + destruct (decide (q0 = q)) as [->|Hne].
      * rewrite decide_True by (apply elem_of_cons; auto). reflexivity.
      * rewrite decide_False; [reflexivity|].
        intros [->|H]%elem_of_cons; contradiction.
Qed.

Lemma broadcast_registry e s :
  MONITOR_QUEUES (broadcast_event e s) = MONITOR_QUEUES s
  /\ next_id (broadcast_event e s) = next_id s.
Proof. apply foldl_put_registry. Qed.

Lemma broadcast_store e s q :
  NoDup (MONITOR_QUEUES s) ->
  store (broadcast_event e s) !! q
  = if decide (q ∈ MONITOR_QUEUES s)
    then (fun buf => buf ++ [e])%list <$> store s !! q
    else store s !! q.
Proof. apply foldl_put_store. Qed.

Lemma publish_all_registry events : forall s,
  MONITOR_QUEUES (publish_all events s) = MONITOR_QUEUES s.
Proof.
  induction events as [|e events IH]; intros s; simpl; [reflexivity|].
  unfold publish_all in *. simpl. rewrite IH. apply broadcast_registry.
Qed.

Lemma publish_all_store events : forall s q,
  NoDup (MONITOR_QUEUES s) ->
  store (publish_all events s) !! q
  = if decide (q ∈ MONITOR_QUEUES s)
    then (fun buf => buf ++ events)%list <$> store s !! q
    else store s !! q.
Proof.
  induction events as [|e events IH]; intros s q Hnd.
  - simpl. destruct (decide _); [|reflexivity].
    destruct (store s !! q); simpl; [rewrite app_nil_r|]; reflexivity.
  - change (publish_all (e :: events) s) with (publish_all events (broadcast_event e s)).
    destruct (broadcast_registry e s) as [Hreg _].
    rewrite IH by (rewrite Hreg; exact Hnd).
    rewrite Hreg, broadcast_store by exact Hnd.
    destruct (decide _); [|reflexivity].
    destruct (store s !! q); simpl; [rewrite <- app_assoc|]; reflexivity.
Qed.

(** Reading drains the buffer, oldest item first. *)
Lemma drain_buffer buf : forall n q s,
  store s !! q = Some buf ->
  (length buf <= n)%nat ->
  fst (drain n q s) = buf /\ get q (snd (drain n q s)) = None.
Proof.
  induction buf as [|x buf IH]; intros n q s Hq Hn.
  - destruct n as [|n]; simpl.
    + split; [reflexivity|]. unfold get. rewrite Hq. reflexivity.
    + unfold get at 1 3. rewrite Hq. simpl. split; [reflexivity|].
      unfold get. rewrite Hq. reflexivity.
  - destruct n as [|n]; simpl in Hn; [lia|]. simpl.
    unfold get at 1 3. rewrite Hq.
    set (s1 := {| store := <[q:=buf]> (store s); next_id := next_id s;
                  MONITOR_QUEUES := MONITOR_QUEUES s |}).
    destruct (IH n q s1) as [Hfst Hsnd]; [apply lookup_insert_eq|lia|].
    destruct (drain n q s1) as [xs s2]. simpl in *. subst xs. auto.
Qed.

(** The generator frames what it reads. *)
Lemma monitor_generator_frames n : forall q s,
  fst (monitor_generator n q s)
  = map (fun data => "data: " ++ json_dumps data ++ nl ++ nl) (fst (drain n q s))
  /\ snd (monitor_generator n q s) = snd (drain n q s).
Proof.
  induction n as [|n IH]; intros q s; simpl; [auto|].
  destruct (get q s) as [[x s1]|]; [|auto].
  destruct (IH q s1) as [Hf Hs].
  destruct (monitor_generator n q s1), (drain n q s1). simpl in *. subst. auto.
Qed.

Lemma drain_take n : forall buf q s,
  store s !! q = Some buf -> fst (drain n q s) = take n buf.
Proof.
  induction n as [|n IH]; intros buf q s Hq; [reflexivity|]. simpl.
  unfold get. rewrite Hq. destruct buf as [|x buf]; [reflexivity|].
  set (s1 := {| store := <[q:=buf]> (store s); next_id := next_id s;
                MONITOR_QUEUES := MONITOR_QUEUES s |}).
  pose proof (IH buf q s1 (lookup_insert_eq _ _ _)) as Hrest.
  destruct (drain n q s1) as [xs s2]. simpl in *. rewrite Hrest. reflexivity.
Qed.

Lemma list_remove_spec q l :
  (q ∈ l ->
   exists l1 l2,
     l = (l1 ++ q :: l2)%list /\ (q ∉ l1) /\ list_remove q l = Return (l1 ++ l2)%list)
  /\ (q ∉ l -> list_remove q l = Raise ValueError).
Proof.
  induction l as [|y l [IHin IHout]]; simpl.
  - split; [intros H; apply elem_of_nil in H; destruct H|reflexivity].
  - destruct (Nat.eqb_spec y q) as [->|Hne].
    + split.
      * intros _. exists [], l. split; [reflexivity|]. split; [apply not_elem_of_nil|reflexivity].
      * intros H. exfalso. apply H, elem_of_cons. auto.
    + split.
      * intros [Heq|Hin]%elem_of_cons; [congruence|].
        destruct (IHin Hin) as (l1 & l2 & -> & Hl1 & ->).
        exists (y :: l1), l2. split; [reflexivity|].
        split; [|reflexivity].
        apply not_elem_of_cons. auto.
      * intros [_ Hout]%not_elem_of_cons. rewrite (IHout Hout). reflexivity.
Qed.

Lemma reachable_well_formed s : reachable s -> well_formed s.
Proof.
  induction 1 as [|s Hs (Hnd & Hreg & Hfresh)|s q s' Hs (Hnd & Hreg & Hfresh) Hun
                  |s e Hs (Hnd & Hreg & Hfresh)|s q x s' Hs (Hnd & Hreg & Hfresh) Hget].
  - repeat split; simpl.
    + constructor.
    + intros q H. apply elem_of_nil in H. destruct H.
    + intros q [x H]. rewrite lookup_empty in H. discriminate.
  - repeat split; simpl.
    + apply NoDup_app. split; [exact Hnd|]. split; [|apply NoDup_singleton].
      intros q Hq [->|H]%elem_of_cons; [|apply elem_of_nil in H; destruct H].
      apply Hreg, Hfresh in Hq. lia.
    + intros q [Hq|Hq]%elem_of_app.
      * destruct (decide (next_id s = q)) as [<-|Hne];
          [rewrite lookup_insert_eq; eauto|].
        rewrite lookup_insert_ne by exact Hne. auto.
      * apply elem_of_cons in Hq as [->|Hq]; [|apply elem_of_nil in Hq; destruct Hq].
        rewrite lookup_insert_eq. eauto.
    + intros q Hq. destruct (decide (next_id s = q)) as [<-|Hne]; [lia|].
      rewrite lookup_insert_ne in Hq by exact Hne. apply Hfresh in Hq. lia.
  - unfold unsubscribe in Hun.
    destruct (decide (q ∈ MONITOR_QUEUES s)) as [Hin|Hout].
    + destruct (proj1 (list_remove_spec q _) Hin) as (l1 & l2 & Heq & Hl1 & Hrm).
      rewrite Hrm in Hun. simpl in Hun. injection Hun as <-. simpl.
      rewrite Heq in Hnd, Hreg.
      apply NoDup_app in Hnd as (Hnd1 & Hdisj & Hnd2).
      apply NoDup_cons in Hnd2 as [Hq2 Hnd2].
      repeat split.
      * apply NoDup_app. split; [exact Hnd1|]. split; [|exact Hnd2].
        intros y Hy Hy2. apply (Hdisj y Hy), elem_of_cons. auto.
      * intros y [Hy|Hy]%elem_of_app; apply Hreg, elem_of_app; [auto|].
        right. apply elem_of_cons. auto.
      * exact Hfresh.
    + rewrite (proj2 (list_remove_spec q _) Hout) in Hun. discriminate.
  - destruct (broadcast_registry e s) as [Hr Hn]. unfold well_formed.
    rewrite Hr, Hn. repeat split; [exact Hnd|..].
    + intros q Hq. rewrite broadcast_store, decide_True by assumption.
      destruct (Hreg q Hq) as [buf ->]. simpl. eauto.
    + intros q Hq. apply Hfresh. rewrite broadcast_store in Hq by exact Hnd.
      destruct (decide _); [|exact Hq].
      destruct (store s !! q); [eauto|]. destruct Hq as [? Hq]. discriminate.
  - unfold get in Hget. destruct (store s !! q) as [[|y buf]|] eqn:Hq; try discriminate.
    injection Hget as <- <-. repeat split; simpl; [exact Hnd|..].
    + intros q' Hq'. destruct (decide (q = q')) as [<-|Hne];
        [rewrite lookup_insert_eq; eauto|].
      rewrite lookup_insert_ne by exact Hne. auto.
    + intros q' Hq'. apply Hfresh. destruct (decide (q = q')) as [<-|Hne]; [eauto|].
      rewrite lookup_insert_ne in Hq' by exact Hne. exact Hq'.
Qed.

Lemma subscribe_all_spec k : forall s,
  reachable s ->
  reachable (subscribe_all k s)
  /\ MONITOR_QUEUES (subscribe_all k s) = (MONITOR_QUEUES s ++ seq (next_id s) k)%list
  /\ next_id (subscribe_all k s) = (next_id s + k)%nat
  /\ (forall q, q ∈ seq (next_id s) k -> store (subscribe_all k s) !! q = Some [])
  /\ (forall q, (q < next_id s)%nat -> store (subscribe_all k s) !! q = store s !! q).
Proof.
  induction k as [|k IH]; intros s Hs.
  - simpl. rewrite app_nil_r, Nat.add_0_r.
    split; [exact Hs|]. split; [reflexivity|]. split; [reflexivity|].
    split; [|reflexivity]. intros q H. apply elem_of_nil in H. destruct H.
  - destruct (IH s Hs) as (Hreach & Hreg & Hnext & Hnew & Hold).
    change (subscribe_all (S k) s) with (snd (monitor_endpoint (subscribe_all k s))).
    split; [apply reach_subscribe, Hreach|].
    unfold monitor_endpoint, Queue; cbn [snd fst MONITOR_QUEUES next_id store].
    rewrite Hreg, Hnext. split; [|split; [lia|split]].
    + rewrite seq_S, app_assoc. reflexivity.
    + intros q Hq. rewrite seq_S in Hq. apply elem_of_app in Hq as [Hq|Hq].
      * rewrite lookup_insert_ne; [apply Hnew, Hq|].
        apply list_elem_of_In, in_seq in Hq. lia.
      * apply elem_of_cons in Hq as [->|Hq]; [|apply elem_of_nil in Hq; destruct Hq].
        apply lookup_insert_eq.
    + intros q Hq. rewrite lookup_insert_ne by lia. apply Hold, Hq.
Qed.

Lemma reading_after_publish s events q pending :
  reachable s ->
  q ∈ MONITOR_QUEUES s ->
  store s !! q = Some pending ->
  store (publish_all events s) !! q = Some (pending ++ events)%list
  /\ fst (drain (length (pending ++ events)%list) q (publish_all events s))
     = (pending ++ events)%list
  /\ get q (snd (drain (length (pending ++ events)%list) q (publish_all events s))) = None.
Proof.
  intros Hs Hq Hpending.
  destruct (reachable_well_formed s Hs) as (Hnd & _ & _).
  assert (Hstore : store (publish_all events s) !! q = Some (pending ++ events)%list).
  { rewrite publish_all_store, decide_True, Hpending by assumption. reflexivity. }
  split; [exact Hstore|].
  apply drain_buffer; [exact Hstore|lia].
Qed.
End BusFacts.

Import Bus.

(** C5.  From any state of the bus, let [K] observers subscribe and let
    [N] events be published, nobody leaving in between.  Then each of the
    [K] new subscribers, reading its queue to the end, gets exactly the
    [N] events in the order of the [broadcast_event] calls; and a
    subscriber that was there before, with items still pending, gets the
    pending items followed by the same [N] events. *)
Theorem C5_subscribers_read_publish_order :
  forall (s0 : bus) (K : nat) (events : list pyval),
    reachable s0 ->
    let s := publish_all events (subscribe_all K s0) in
    MONITOR_QUEUES s = (MONITOR_QUEUES s0 ++ seq (next_id s0) K)%list
    /\ (forall q, q ∈ seq (next_id s0) K ->
          fst (drain (length events) q s) = events
          /\ get q (snd (drain (length events) q s)) = None)
    /\ (forall q pending,
          q ∈ MONITOR_QUEUES s0 ->
          store s0 !! q = Some pending ->
          fst (drain (length (pending ++ events)%list) q s) = (pending ++ events)%list
          /\ get q (snd (drain (length (pending ++ events)%list) q s)) = None).
Proof.
  intros s0 K events Hs0 s.
  destruct (subscribe_all_spec K s0 Hs0) as (Hreach & Hreg & _ & Hnew & Hold).
  split; [unfold s; rewrite publish_all_registry; exact Hreg|]. split.
  - intros q Hq.
    destruct (reading_after_publish (subscribe_all K s0) events q [] Hreach) as (_ & H).
    + rewrite Hreg. apply elem_of_app. auto.
    + apply Hnew, Hq.
    + exact H.
  - intros q pending Hq Hpending.
    destruct (reading_after_publish (subscribe_all K s0) events q pending Hreach) as (_ & H).
    + rewrite Hreg. apply elem_of_app. auto.
    + rewrite Hold; [exact Hpending|].
      destruct (reachable_well_formed s0 Hs0) as (_ & Hin & Hfresh). auto.
    + exact H.
Qed.

(** C5 with three observers subscribed to the empty bus and two events. *)
Lemma C5_subscribers_read_publish_order_witness :
  let events := [PDict [("type", PStr "start")]; PDict [("type", PStr "thought")]] in
  let s := publish_all events (subscribe_all 3 empty_bus) in
  MONITOR_QUEUES s = ([] ++ seq 0 3)%list
  /\ (forall q, q ∈ seq 0 3 ->
        fst (drain (length events) q s) = events
        /\ get q (snd (drain (length events) q s)) = None)
  /\ (forall q pending,
        q ∈ [] ->
        store empty_bus !! q = Some pending ->
        fst (drain (length (pending ++ events)%list) q s) = (pending ++ events)%list
        /\ get q (snd (drain (length (pending ++ events)%list) q s)) = None).
Proof.
  apply (C5_subscribers_read_publish_order empty_bus 3
           [PDict [("type", PStr "start")]; PDict [("type", PStr "thought")]]).
  apply reach_start.
Defined.

(** C6, as the code has it.  In any state of the bus: publishing while no
    queue is registered changes nothing; unsubscribing a registered queue
    takes it off the list, leaves the other registrations and every buffer
    as they are, and a later publish does not reach it; unsubscribing a
    queue that is not registered (never registered, or taken off already)
    raises [ValueError]. *)
Theorem C6_unsubscribe_and_empty_publish :
  forall (s : bus) (q : nat) (e : pyval),
    reachable s ->
    (MONITOR_QUEUES s = [] -> broadcast_event e s = s)
    /\ (q ∈ MONITOR_QUEUES s ->
        exists s',
          unsubscribe q s = Return s'
          /\ (q ∉ MONITOR_QUEUES s')
          /\ (forall q', q' <> q -> q' ∈ MONITOR_QUEUES s' <-> q' ∈ MONITOR_QUEUES s)
          /\ store s' = store s
          /\ store (broadcast_event e s') !! q = store s !! q)
    /\ (q ∉ MONITOR_QUEUES s -> unsubscribe q s = Raise ValueError).
Proof.
  intros s q e Hs.
  destruct (reachable_well_formed s Hs) as (Hnd & _ & _).
  split; [|split].
  - intros Hempty. unfold broadcast_event. rewrite Hempty. reflexivity.
  - intros Hin.
    destruct (proj1 (list_remove_spec q _) Hin) as (l1 & l2 & Heq & Hl1 & Hrm).
    unfold unsubscribe. rewrite Hrm. simpl. eexists. split; [reflexivity|].
    rewrite Heq in Hnd. apply NoDup_app in Hnd as (Hnd1 & Hdisj & Hnd2).
    apply NoDup_cons in Hnd2 as [Hl2 Hnd2].
    assert (Hout : q ∉ (l1 ++ l2)%list).
    { intros [H|H]%elem_of_app; contradiction. }
    simpl. split; [exact Hout|]. split; [|split; [reflexivity|]].
    + intros q' Hne. rewrite Heq, !elem_of_app, elem_of_cons. tauto.
    + rewrite broadcast_store; simpl.
      * rewrite decide_False by exact Hout. reflexivity.
      * apply NoDup_app. split; [exact Hnd1|]. split; [|exact Hnd2].
        intros y Hy Hy2. apply (Hdisj y Hy), elem_of_cons. auto.
  - intros Hout. unfold unsubscribe.
    rewrite (proj2 (list_remove_spec q _) Hout). reflexivity.
Qed.

(** C6 on the bus with one subscriber, its queue being unsubscribed. *)
Lemma C6_unsubscribe_and_empty_publish_witness :
  let s := snd (monitor_endpoint empty_bus) in
  exists s',
    unsubscribe 0 s = Return s'
    /\ (0%nat ∉ MONITOR_QUEUES s')
    /\ (forall q', q' <> 0%nat -> q' ∈ MONITOR_QUEUES s' <-> q' ∈ MONITOR_QUEUES s)
    /\ store s' = store s
    /\ store (broadcast_event PNone s') !! 0%nat = store s !! 0%nat.
Proof.
  apply (proj1 (proj2 (C6_unsubscribe_and_empty_publish
                          (snd (monitor_endpoint empty_bus)) 0%nat PNone
                          (reach_subscribe _ reach_start)))).
  simpl. apply elem_of_cons. left. reflexivity.
Defined.

(** Against C6 as stated: unsubscribing a queue that was never registered
    raises, and so does unsubscribing the same queue a second time. *)
Lemma C6_unsubscribe_unknown_raises :
  unsubscribe 0 empty_bus = Raise ValueError
  /\ fst (monitor_endpoint empty_bus) = 0%nat
  /\ exists s',
      unsubscribe 0 (snd (monitor_endpoint empty_bus)) = Return s'
      /\ unsubscribe 0 s' = Raise ValueError.
Proof.
  split; [reflexivity|]. split; [reflexivity|].
  eexists. split; reflexivity.
Qed.

(** ** The request stream translator *)

Section TranslatorFacts.
Import Py Translator.

Variable time_time : nat -> pyval.
Variable thread_id : Z.

Lemma snd_bind {A B : Type} (m : gen A) (f : A -> gen B) k :
  snd ((m ≫= f) k) = (snd (m k) ++ snd (f (fst (fst (m k))) (snd (fst (m k)))))%list.
Proof.
  unfold mbind, gen_bind. destruct (m k) as [[a k1] out1]. simpl.
  destruct (f a k1) as [[b k2] out2]. reflexivity.
Qed.

Lemma relay_app events1 events2 :
  relay (events1 ++ events2) = (relay events1 ++ relay events2)%list.
Proof. apply flat_map_app. Qed.

Lemma relays_ret : relays thread_id (mret tt).
Proof. intros k. exists []. split; [reflexivity|constructor]. Qed.

Lemma relays_bind (m : gen unit) (f : unit -> gen unit) :
  relays thread_id m -> (forall a, relays thread_id (f a)) -> relays thread_id (m ≫= f).
Proof.
  intros Hm Hf k. rewrite snd_bind.
  destruct (Hm k) as (ev1 & -> & H1).
  destruct (Hf (fst (fst (m k))) (snd (fst (m k)))) as (ev2 & -> & H2).
  exists (ev1 ++ ev2)%list. split; [symmetry; apply relay_app|].
  apply Forall_app. auto.
Qed.

(** The pattern of every handler: yield the frame, read the clock,
    broadcast the event. *)
Lemma relays_emit label payload ty fields :
  In ty relayed_types ->
  (forall t, frame_of (event thread_id t (("type", PStr ty) :: fields)) = sse label payload) ->
  relays thread_id
    (_ ← yield (sse label payload);
     t ← time time_time;
     broadcast_event (event thread_id t (("type", PStr ty) :: fields))).
Proof.
  intros Hty Hframe k.
  exists [event thread_id (time_time k) (("type", PStr ty) :: fields)].
  split.
  - simpl. rewrite Hframe. reflexivity.
  - constructor; [|constructor]. exists (time_time k), ty, fields. auto.
Qed.

Lemma relays_for_each {A : Type} (body : A -> gen unit) (l : list A) :
  (forall x, relays thread_id (body x)) -> relays thread_id (for_each l body).
Proof.
  intros Hbody. induction l as [|x l IH]; simpl.
  - apply relays_ret.
  - apply relays_bind; [apply Hbody|intros _; exact IH].
Qed.

Lemma relays_for_key {A : Type} (body : A -> gen unit) (field : option (list A)) :
  (forall x, relays thread_id (body x)) -> relays thread_id (for_key field body).
Proof.
  intros Hbody. destruct field as [l|]; simpl.
  - apply relays_for_each, Hbody.
  - apply relays_ret.
Qed.

Lemma relays_on_message m : relays thread_id (on_message time_time thread_id m).
Proof.
  destruct m as [content|name content tool_call_id|]; simpl.
  - destruct (String.eqb content ""); [apply relays_ret|].
    destruct (String.prefix _ content); [apply relays_ret|].
    apply relays_emit; [simpl; auto|reflexivity].
  - apply relays_emit; [simpl; auto|reflexivity].
  - apply relays_ret.
Qed.

Lemma relays_on_call call : relays thread_id (on_call time_time thread_id call).
Proof. apply relays_emit; [simpl; auto|reflexivity]. Qed.

Lemma relays_on_answer response : relays thread_id (on_answer time_time thread_id response).
Proof.
  destruct response as [answer|]; simpl.
  - apply relays_emit; [simpl; auto|reflexivity].
  - apply relays_ret.
Qed.

Lemma relays_on_update u : relays thread_id (on_update time_time thread_id u).
Proof.
  unfold on_update.
  apply relays_bind; [apply relays_for_key, relays_on_message|intros _].
  apply relays_bind; [apply relays_for_key, relays_on_call|intros _].
  apply relays_on_answer.
Qed.

Lemma relays_run steps : relays thread_id (run time_time thread_id steps).
Proof.
  induction steps as [|detail|values rest IH]; simpl.
  - apply relays_ret.
  - apply relays_emit; [simpl; auto 10|reflexivity].
  - apply relays_bind; [|intros _; exact IH].
    apply relays_for_each, relays_on_update.
Qed.

(** When the upstream execution raises, the last thing relayed is the
    error event. *)
Lemma run_fail steps detail : forall k,
  outcome steps = Some detail ->
  exists events t,
    snd (run time_time thread_id steps k)
    = relay (events ++ [event thread_id t [("type", PStr "error"); ("content", PStr detail)]])
    /\ Forall (relayed thread_id) events.
Proof.
  induction steps as [|d|values rest IH]; intros k; simpl.
  - discriminate.
  - intros [= ->]. exists [], (time_time k). split; [reflexivity|constructor].
  - intros Hout. rewrite snd_bind.
    destruct (relays_for_each (on_update time_time thread_id) values relays_on_update k)
      as (ev1 & -> & H1).
    destruct (IH (snd (fst (for_each values (on_update time_time thread_id) k))) Hout)
      as (ev2 & t & -> & H2).
    exists (ev1 ++ ev2)%list, t. split.
    + rewrite <- app_assoc, !relay_app. reflexivity.
    + apply Forall_app. auto.
Qed.

Lemma yielded_relay events : yielded (relay events) = map frame_of events.
Proof. induction events as [|e events IH]; simpl; [|rewrite <- IH]; reflexivity. Qed.

Lemma published_relay events : published (relay events) = events.
Proof. induction events as [|e events IH]; simpl; [|rewrite <- IH at 2]; reflexivity. Qed.

Lemma yielded_app t1 t2 : yielded (t1 ++ t2) = (yielded t1 ++ yielded t2)%list.
Proof. apply omap_app. Qed.

Lemma published_app t1 t2 : published (t1 ++ t2) = (published t1 ++ published t2)%list.
Proof. apply omap_app. Qed.

(** No relayed event travels in the [done] frame. *)
Lemma frame_of_not_done e : relayed thread_id e -> frame_of e <> done_frame.
Proof.
  intros (t & ty & fields & -> & Hty).
  simpl in Hty. destruct Hty as [<-|[<-|[<-|[<-|[<-|[]]]]]]; discriminate.
Qed.

(** The shape of a whole trace. *)
Lemma trace_shape agent msg :
  exists events,
    trace time_time agent msg thread_id
    = (Broadcast (event thread_id (time_time 0%nat)
                    [("type", PStr "start"); ("content", PStr ("New Request: " ++ msg))])
       :: Yield start_frame :: relay events ++ [Yield done_frame])%list
    /\ Forall (relayed thread_id) events
    /\ (forall detail,
          outcome (agent msg thread_id) = Some detail ->
          exists events' t,
            events = (events' ++ [event thread_id t
                                    [("type", PStr "error"); ("content", PStr detail)]])%list).
Proof.
  unfold trace, sse_generator.
  rewrite snd_bind. cbn [time fst snd app].
  rewrite snd_bind. cbn [broadcast_event fst snd app].
  rewrite snd_bind. cbn [yield fst snd app].
  rewrite snd_bind. cbn [yield fst snd].
  destruct (relays_run (agent msg thread_id) 1%nat) as (events & Hrun & Hev).
  exists events. rewrite Hrun. split; [reflexivity|]. split; [exact Hev|].
  intros detail Hout.
  destruct (run_fail (agent msg thread_id) detail 1%nat Hout) as (events' & t & Hrun' & _).
  exists events', t. rewrite <- (published_relay events), <- Hrun, Hrun'.
  apply published_relay.
Qed.

Lemma trace_projections agent msg events :
  trace time_time agent msg thread_id
  = (Broadcast (event thread_id (time_time 0%nat)
                  [("type", PStr "start"); ("content", PStr ("New Request: " ++ msg))])
     :: Yield start_frame :: relay events ++ [Yield done_frame])%list ->
  published (trace time_time agent msg thread_id)
  = event thread_id (time_time 0%nat)
      [("type", PStr "start"); ("content", PStr ("New Request: " ++ msg))] :: events
  /\ yielded (trace time_time agent msg thread_id)
     = (start_frame :: map frame_of events ++ [done_frame])%list.
Proof.
  intros ->. split.
  - change (published (Broadcast ?e :: Yield ?f :: ?t)) with (e :: published t).
    rewrite published_app, published_relay. simpl. rewrite app_nil_r. reflexivity.
  - change (yielded (Broadcast ?e :: Yield ?f :: ?t)) with (f :: yielded t).
    rewrite yielded_app, yielded_relay. reflexivity.
Qed.
(** What is left of the trace when the stream is not read to its end. *)
Lemma taken_nil n : taken n [] = [].
Proof. destruct n; reflexivity. Qed.

Lemma taken_prefix t : forall n, exists rest, t = (taken n t ++ rest)%list.
Proof.
  induction t as [|a t IH]; intros n.
  - exists []. rewrite taken_nil. reflexivity.
  - destruct n as [|n]; [exists (a :: t); reflexivity|].
    destruct a as [f|e]; cbn [taken].
    + destruct (IH n) as [rest Hrest]. exists rest. cbn [app]. rewrite <- Hrest. reflexivity.
    + destruct (IH (S n)) as [rest Hrest]. exists rest. cbn [app]. rewrite <- Hrest.
      reflexivity.
Qed.

Lemma yielded_taken t : forall n, yielded (taken n t) = take n (yielded t).
Proof.
  induction t as [|a t IH]; intros n.
  - rewrite taken_nil. destruct n; reflexivity.
  - destruct n as [|n]; [reflexivity|].
    destruct a as [f|e]; cbn [taken].
    + change (yielded (Yield f :: ?l)) with (f :: yielded l).
      rewrite IH. reflexivity.
    + change (yielded (Broadcast e :: ?l)) with (yielded l).
      apply IH.
Qed.

Lemma published_taken_relay events d : forall n,
  published (taken n (relay events ++ [Yield d])) = take (n - 1) events.
Proof.
  induction events as [|e events IH]; intros n.
  - rewrite take_nil. destruct n as [|[|n]]; reflexivity.
  - destruct n as [|[|n]]; [reflexivity..|].
    change (relay (e :: events) ++ [Yield d])%list
      with (Yield (frame_of e) :: Broadcast e :: (relay events ++ [Yield d]))%list.
    cbn [taken].
    change (published (Yield ?f :: Broadcast ?x :: ?l)) with (x :: published l).
    rewrite IH. cbn [Nat.sub]. rewrite !Nat.sub_0_r. reflexivity.
Qed.

(** At every point of the part that relays: the frames yielded are those
    of the events broadcast, and at most one more. *)
Lemma relay_prefix events d : forall p rest,
  (relay events ++ [Yield d])%list = (p ++ rest)%list ->
  exists more,
    yielded p = (map frame_of (published p) ++ more)%list /\ (length more <= 1)%nat.
Proof.
  induction events as [|e events IH]; intros p rest Heq.
  - destruct p as [|a p]; [exists []; auto|].
    injection Heq as <- Heq. symmetry in Heq. apply app_eq_nil in Heq as [-> _].
    exists [d]. auto.
  - change (relay (e :: events) ++ [Yield d])%list
      with (Yield (frame_of e) :: Broadcast e :: (relay events ++ [Yield d]))%list in Heq.
    destruct p as [|a [|b p]].
    + exists []. auto.
    + injection Heq as <- _. exists [frame_of e]. auto.
    + injection Heq as <- <- Heq. destruct (IH p rest Heq) as (more & Hy & Hlen).
      exists more. split; [|exact Hlen].
      change (yielded (Yield ?f :: Broadcast ?x :: ?l)) with (f :: yielded l).
      change (published (Yield ?f :: Broadcast ?x :: ?l)) with (x :: published l).
      rewrite Hy. reflexivity.
Qed.
End TranslatorFacts.

Import Translator.

(** C1, as the code has it.  The start event is broadcast first and its
    frame yielded next; every other event (thought, tool result, tool
    call, answer, error) has its frame yielded first and is broadcast when
    the caller resumes the generator, before anything else happens; the
    closing [done] frame is yielded and never broadcast.  So at every
    point of an invocation the frames yielded after the start frame are,
    in order, those of the events broadcast after the start event, and at
    most one more: nothing is broadcast whose frame is not yielded, start
    apart.  A caller that takes [n] frames and no more leaves the event of
    the [n]-th frame unbroadcast: the bus has the start event and the
    events of the frames between the start frame and the [n]-th.  When the
    stream is read to its end the events given to the bus are, in the same
    order, the events yielded to the caller but for the [done] frame, and
    an observer that is subscribed all along finds them in its queue, in
    that order, after what was pending there. *)
Theorem C1_published_are_the_yielded_but_done :
  forall (time_time : nat -> pyval) (agent : string -> Z -> astream)
         (msg : string) (thread_id : Z),
    let start_event :=
      event thread_id (time_time 0%nat)
        [("type", PStr "start"); ("content", PStr ("New Request: " ++ msg))] in
    let t := trace time_time agent msg thread_id in
    exists events,
      t = (Broadcast start_event :: Yield start_frame
           :: relay events ++ [Yield done_frame])%list
      /\ Forall (relayed thread_id) events
      /\ (forall p rest,
            t = (p ++ rest)%list ->
            (p <> [] -> exists l, published p = start_event :: l)
            /\ exists more,
                 tail (yielded p) = (map frame_of (tail (published p)) ++ more)%list
                 /\ (length more <= 1)%nat)
      /\ (forall n,
            (exists rest, t = (taken n t ++ rest)%list)
            /\ yielded (taken n t) = take n (yielded t)
            /\ published (taken n t)
               = match n with
                 | O => []
                 | S m => start_event :: take (m - 1) events
                 end)
      /\ published t = start_event :: events
      /\ yielded t = (start_frame :: map frame_of events ++ [done_frame])%list
      /\ (forall (s : bus) (q : nat) (pending : list pyval),
            reachable s ->
            q ∈ MONITOR_QUEUES s ->
            store s !! q = Some pending ->
            store (deliver t s) !! q = Some (pending ++ start_event :: events)%list).
Proof.
  intros time_time agent msg thread_id start_event t.
  destruct (trace_shape time_time thread_id agent msg) as (events & Htrace & Hev & _).
  destruct (trace_projections time_time thread_id agent msg events Htrace) as [Hpub Hyield].
  fold start_event in Htrace, Hpub. fold t in Htrace, Hpub, Hyield.
  exists events. split; [exact Htrace|]. split; [exact Hev|].
  split; [|split; [|split; [exact Hpub|split; [exact Hyield|]]]].
  - intros p rest Hp. rewrite Htrace in Hp.
    destruct p as [|a [|b p]].
    + split; [intros H; destruct (H eq_refl)|]. exists []. auto.
    + injection Hp as <- _. split; [exists []; reflexivity|]. exists []. auto.
    + injection Hp as <- <- Hp.
      change (published (Broadcast ?e :: Yield ?f :: ?l)) with (e :: published l).
      change (yielded (Broadcast ?e :: Yield ?f :: ?l)) with (f :: yielded l).
      split; [eauto|]. cbn [tail].
      apply (relay_prefix events done_frame p rest Hp).
  - intros n. split; [apply taken_prefix|]. split; [apply yielded_taken|].
    rewrite Htrace. destruct n as [|m]; [reflexivity|]. cbn [taken].
    change (published (Broadcast ?e :: Yield ?f :: ?l)) with (e :: published l).
    rewrite published_taken_relay. reflexivity.
  - intros s q pending Hs Hq Hpending. unfold deliver. rewrite Hpub.
    apply (reading_after_publish s (start_event :: events) q pending Hs Hq Hpending).
Qed.

(** C1 on an execution that thinks and answers, with one observer: the
    caller that has taken the start frame and the frame of the thought has
    the thought, the bus has not; an observer finds all the events when
    the stream is read to its end. *)
Lemma C1_published_are_the_yielded_but_done_witness :
  let time_time := fun k => PInt (Z.of_nat k) in
  let agent := fun (_ : string) (_ : Z) =>
    Step [ {| messages := Some [AIMessage "x"]; tool_calls := None;
              structured_response := Some "y" |} ] Stop in
  let start_event :=
    event 1 (time_time 0%nat) [("type", PStr "start"); ("content", PStr "New Request: hi")] in
  let t := trace time_time agent "hi" 1 in
  exists events,
    published t = start_event :: events
    /\ yielded (taken 2 t)
       = [start_frame;
          sse None (json_dumps (PDict [("type", PStr "thought"); ("content", PStr "x")]))]
    /\ published (taken 2 t) = [start_event]
    /\ store (deliver t (snd (monitor_endpoint empty_bus))) !! 0%nat
       = Some ([] ++ start_event :: events)%list.
Proof.
  intros time_time agent start_event t.
  destruct (C1_published_are_the_yielded_but_done time_time agent "hi" 1)
    as (events & _ & _ & _ & Htaken & Hpub & _ & Hbus).
  destruct (Htaken 2%nat) as (_ & Hy & Hp).
  exists events. split; [exact Hpub|]. split; [exact (eq_trans Hy eq_refl)|].
  split; [exact Hp|].
  apply Hbus.
  - apply reach_subscribe, reach_start.
  - simpl. apply elem_of_cons. left. reflexivity.
  - reflexivity.
Defined.

(** Against C1 as stated: on an execution that has one thought, the
    frame of the thought is in the hands of the caller while the bus has
    been given the start event only, the thought being broadcast after the
    yield; and at the end the caller has been given three events, start,
    thought and done, and the bus two. *)
Lemma C1_thought_is_yielded_before_it_is_published :
  let agent := fun (_ : string) (_ : Z) =>
    Step [ {| messages := Some [AIMessage "x"]; tool_calls := None;
              structured_response := None |} ] Stop in
  let t := trace (fun k => PInt (Z.of_nat k)) agent "hi" 1 in
  let start := PDict [("timestamp", PInt 0); ("thread_id", PInt 1);
                      ("type", PStr "start"); ("content", PStr "New Request: hi")] in
  let thought := PDict [("timestamp", PInt 1); ("thread_id", PInt 1);
                        ("type", PStr "thought"); ("content", PStr "x")] in
  let thought_frame :=
    sse None (json_dumps (PDict [("type", PStr "thought"); ("content", PStr "x")])) in
  t = [Broadcast start; Yield start_frame; Yield thought_frame; Broadcast thought;
       Yield done_frame]
  /\ taken 2 t = take 3 t
  /\ yielded (take 3 t) = [start_frame; thought_frame]
  /\ published (take 3 t) = [start]
  /\ yielded t = [start_frame; thought_frame; done_frame]
  /\ published t = [start; thought]
  /\ length (yielded t) <> length (published t).
Proof.
  repeat split; try reflexivity. simpl. discriminate.
Qed.

(** C4.  Whatever the upstream execution does, the [done] frame is
    yielded, it is the last thing the invocation does, and it is yielded
    only then.  When the upstream execution raises, the error frame and the
    error event, with the text of the exception, come right before it: the
    generator ends as it does on success. *)
Theorem C4_done_is_last :
  forall (time_time : nat -> pyval) (agent : string -> Z -> astream)
         (msg : string) (thread_id : Z),
    exists before,
      trace time_time agent msg thread_id = (before ++ [Yield done_frame])%list
      /\ ~ In (Yield done_frame) before
      /\ (forall detail,
            outcome (agent msg thread_id) = Some detail ->
            exists before' t,
              before
              = (before'
                 ++ [Yield (sse (Some "error")
                              (json_dumps (PDict [("type", PStr "error");
                                                  ("content", PStr detail)])));
                     Broadcast (event thread_id t
                                  [("type", PStr "error"); ("content", PStr detail)])])%list).
Proof.
  intros time_time agent msg thread_id.
  destruct (trace_shape time_time thread_id agent msg) as (events & Htrace & Hev & Hfail).
  eexists (_ :: _ :: relay events). split; [exact Htrace|]. split.
  - intros [H|[H|H]]; [discriminate|discriminate|].
    unfold relay in H. apply in_flat_map in H as (e & He & [H|[H|[]]]); [|discriminate].
    injection H as H. apply (frame_of_not_done thread_id e); [|exact H].
    rewrite Forall_forall in Hev. apply Hev, list_elem_of_In, He.
  - intros detail Hout. destruct (Hfail detail Hout) as (events' & t & ->).
    eexists (_ :: _ :: relay events'), t.
    rewrite relay_app. reflexivity.
Qed.

(** C4 on an execution that thinks, then raises. *)
Lemma C4_done_is_last_witness :
  exists before,
    trace (fun k => PInt (Z.of_nat k))
      (fun _ _ => Step [ {| messages := Some [AIMessage "x"]; tool_calls := None;
                            structured_response := None |} ] (Fail "boom"))
      "hi" 1
    = (before ++ [Yield done_frame])%list
    /\ ~ In (Yield done_frame) before
    /\ exists before' t,
        before
        = (before'
           ++ [Yield (sse (Some "error")
                        (json_dumps (PDict [("type", PStr "error"); ("content", PStr "boom")])));
               Broadcast (event 1 t [("type", PStr "error"); ("content", PStr "boom")])])%list.
Proof.
  destruct (C4_done_is_last (fun k => PInt (Z.of_nat k))
              (fun _ _ => Step [ {| messages := Some [AIMessage "x"]; tool_calls := None;
                                    structured_response := None |} ] (Fail "boom"))
              "hi" 1) as (before & Htrace & Hlast & Hfail).
  exists before. split; [exact Htrace|]. split; [exact Hlast|].
  apply (Hfail "boom"). reflexivity.
Defined.

(** ** JSON texts and [json.dumps] *)

Section JsonFacts.
Import Py Json.

Lemma append_cons c (s t : string) : String c s ++ t = String c (s ++ t).
Proof. reflexivity. Qed.

Lemma append_nil_l (s : string) : "" ++ s = s.
Proof. reflexivity. Qed.

Lemma append_nil_r (s : string) : s ++ "" = s.
Proof.
  induction s as [|c s IH]; [reflexivity|]. rewrite append_cons, IH. reflexivity.
Qed.

Lemma append_assoc (a b c : string) : (a ++ b) ++ c = a ++ b ++ c.
Proof.
  induction a as [|x a IH]; [reflexivity|]. rewrite !append_cons, IH. reflexivity.
Qed.

(** An induction principle that goes into the lists. *)
Lemma pyval_ind' (P : pyval -> Prop) :
  P PNone ->
  (forall b, P (PBool b)) ->
  (forall z, P (PInt z)) ->
  (forall s, P (PStr s)) ->
  (forall l, Forall P l -> P (PList l)) ->
  (forall items, Forall (fun kv => P (snd kv)) items -> P (PDict items)) ->
  forall v, P v.
Proof.
  intros HNone HBool HInt HStr HList HDict.
  refine (fix go (v : pyval) : P v :=
            match v with
            | PNone => HNone
            | PBool b => HBool b
            | PInt z => HInt z
            | PStr s => HStr s
            | PList l =>
                HList l ((fix all (l : list pyval) : Forall P l :=
                            match l with
                            | [] => @List.Forall_nil _ _
                            | x :: rest => @List.Forall_cons _ _ x rest (go x) (all rest)
                            end) l)
            | PDict items =>
                HDict items
                  ((fix all (l : list (string * pyval)) : Forall (fun kv => P (snd kv)) l :=
                      match l with
                      | [] => @List.Forall_nil _ _
                      | kv :: rest => @List.Forall_cons _ _ kv rest (go (snd kv)) (all rest)
                      end) items)
            end).
Qed.

(** *** Integers are JSON numbers *)

Lemma skip_digits_uint d : skip_digits (NilEmpty.string_of_uint d) = "".
Proof. induction d; simpl; auto. Qed.

Lemma is_number_uint d :
  d <> Decimal.Nil -> (forall d', d <> Decimal.D0 d') ->
  is_number (NilEmpty.string_of_uint d) = true
  /\ is_number (String "-" (NilEmpty.string_of_uint d)) = true.
Proof.
  intros Hnil Hzero.
  destruct d; try congruence; try (exfalso; eapply Hzero; reflexivity);
    unfold is_number; cbn; rewrite skip_digits_uint; auto.
Qed.

Lemma to_uint_head p :
  Pos.to_uint p <> Decimal.Nil /\ forall d', Pos.to_uint p <> Decimal.D0 d'.
Proof.
  split; [apply DecimalPos.Unsigned.to_uint_nonnil|].
  intros d' Hd.
  assert (Hn : Decimal.unorm (Pos.to_uint p) = Pos.to_uint p).
  { rewrite <- DecimalPos.Unsigned.to_of, DecimalPos.Unsigned.of_to. reflexivity. }
  pose proof (DecimalPos.Unsigned.to_uint_nonzero p) as Hnz.
  unfold Decimal.unorm in Hn.
  destruct (Decimal.nzhead (Pos.to_uint p)) eqn:Hh;
    try (rewrite <- Hn in Hd; discriminate).
  - apply Hnz. symmetry. exact Hn.
  - rewrite <- Hn in Hh. eapply DecimalFacts.nzhead_nonzero, Hh.
Qed.

Lemma is_number_str_int z : is_number (str_int z) = true.
Proof.
  unfold str_int. destruct z as [|p|p]; [reflexivity| |]; simpl;
    destruct (to_uint_head p) as [Hnil Hzero];
    apply (is_number_uint _ Hnil Hzero).
Qed.

(** *** Escaped strings are JSON strings *)

Lemma chars_ok_escape_char c rest : chars_ok (escape_char c ++ rest) = chars_ok rest.
Proof. destruct c as [[] [] [] [] [] [] [] []]; reflexivity. Qed.

Lemma chars_ok_escape s : chars_ok (escape s) = true.
Proof.
  induction s as [|c s IH]; [reflexivity|].
  change (escape (String c s)) with (escape_char c ++ escape s).
  rewrite chars_ok_escape_char. exact IH.
Qed.

(** *** What [json.dumps] writes is a JSON value *)

Lemma elements_join parts : forall w,
  parts <> [] -> Forall value parts -> all_ws w = true ->
  elements (w ++ join ", " parts).
Proof.
  induction parts as [|p parts IH]; intros w Hne Hall Hw; [congruence|].
  apply Forall_cons in Hall as [Hp Hall].
  destruct parts as [|p' parts].
  - change (join ", " [p]) with p.
    rewrite <- (append_nil_r p). apply e_last; auto.
  - change (join ", " (p :: p' :: parts))
      with (p ++ "" ++ "," ++ (" " ++ join ", " (p' :: parts))).
    apply e_more; [exact Hw|exact Hp|reflexivity|].
    apply IH; [discriminate|exact Hall|reflexivity].
Qed.

Lemma members_join (items : list (string * pyval)) : forall w,
  items <> [] -> Forall (fun kv => value (json_dumps (snd kv))) items -> all_ws w = true ->
  members (w ++ join ", " (map (fun kv => encode_basestring (fst kv) ++ ": "
                                          ++ json_dumps (snd kv)) items)).
Proof.
  induction items as [|[k v] items IH]; intros w Hne Hall Hw; [congruence|].
  apply Forall_cons in Hall as [Hv Hall]. simpl in Hv.
  destruct items as [|kv items].
  - change (members (w ++ quoted (escape k) ++ "" ++ ":" ++ " " ++ json_dumps v)).
    rewrite <- (append_nil_r (json_dumps v)).
    apply m_last; [exact Hw|apply chars_ok_escape|reflexivity|reflexivity|exact Hv|reflexivity].
  - set (f := fun kv : string * pyval => encode_basestring (fst kv) ++ ": "
                                          ++ json_dumps (snd kv)) in *.
    change (join ", " (map f ((k, v) :: kv :: items)))
      with ((quoted (escape k) ++ ": " ++ json_dumps v) ++ ", " ++ join ", " (map f (kv :: items))).
    rewrite (append_assoc (quoted (escape k))).
    change (members
              (w ++ quoted (escape k) ++ "" ++ ":" ++ " " ++ json_dumps v ++ "" ++ ","
                 ++ (" " ++ join ", " (map f (kv :: items))))).
    apply m_more;
      [exact Hw|apply chars_ok_escape|reflexivity|reflexivity|exact Hv|reflexivity|].
    apply IH; [discriminate|exact Hall|reflexivity].
Qed.

Lemma value_json_dumps v : value (json_dumps v).
Proof.
  induction v as [|[|]|z|s|l IH|items IH] using pyval_ind'.
  - apply v_null.
  - apply v_true.
  - apply v_false.
  - apply v_number, is_number_str_int.
  - apply v_string, chars_ok_escape.
  - destruct l as [|x l].
    + apply (v_array_empty ""). reflexivity.
    + apply (v_array (join ", " (map json_dumps (x :: l)))).
      rewrite <- (append_nil_l (join _ _)).
      apply elements_join; [discriminate| |reflexivity].
      apply Forall_fmap. exact IH.
  - destruct items as [|kv items].
    + apply (v_object_empty ""). reflexivity.
    + apply (v_object (join ", " (map _ (kv :: items)))).
      rewrite <- (append_nil_l (join _ _)).
      apply members_join; [discriminate|exact IH|reflexivity].
Qed.

Lemma text_json_dumps v : text (json_dumps v).
Proof.
  exists "", (json_dumps v), "".
  split; [reflexivity|]. split; [apply value_json_dumps|]. split; [reflexivity|].
  rewrite append_nil_r. reflexivity.
Qed.

(** *** What [json.dumps] writes stays on one line *)

Lemma one_line_app a b : one_line (a ++ b) = one_line a && one_line b.
Proof.
  induction a as [|c a IH]; [reflexivity|].
  rewrite append_cons. simpl. rewrite IH, andb_assoc. reflexivity.
Qed.

Lemma one_line_escape_char c : one_line (escape_char c) = true.
Proof. destruct c as [[] [] [] [] [] [] [] []]; reflexivity. Qed.

Lemma one_line_escape s : one_line (escape s) = true.
Proof.
  induction s as [|c s IH]; [reflexivity|].
  change (escape (String c s)) with (escape_char c ++ escape s).
  rewrite one_line_app, one_line_escape_char, IH. reflexivity.
Qed.

Lemma one_line_encode s : one_line (encode_basestring s) = true.
Proof.
  unfold encode_basestring. change (one_line (String dquote (escape s ++ String dquote "")))
    with (one_line (escape s ++ String dquote "")).
  rewrite one_line_app, one_line_escape. reflexivity.
Qed.

Lemma one_line_uint d : one_line (NilEmpty.string_of_uint d) = true.
Proof. induction d; simpl; auto. Qed.

Lemma one_line_str_int z : one_line (str_int z) = true.
Proof. unfold str_int. destruct z; simpl; try apply one_line_uint; reflexivity. Qed.

Lemma one_line_join parts :
  Forall (fun p => one_line p = true) parts -> one_line (join ", " parts) = true.
Proof.
  induction parts as [|p parts IH]; intros Hall; [reflexivity|].
  apply Forall_cons in Hall as [Hp Hall].
  destruct parts as [|p' parts]; [exact Hp|].
  change (join ", " (p :: p' :: parts)) with (p ++ ", " ++ join ", " (p' :: parts)).
  rewrite !one_line_app, Hp, IH by exact Hall. reflexivity.
Qed.

Lemma one_line_json_dumps v : one_line (json_dumps v) = true.
Proof.
  induction v as [|[|]|z|s|l IH|items IH] using pyval_ind'; try reflexivity.
  - apply one_line_str_int.
  - apply one_line_encode.
  - change (json_dumps (PList l)) with ("[" ++ join ", " (map json_dumps l) ++ "]").
    rewrite !one_line_app, one_line_join; [reflexivity|].
    apply Forall_fmap. exact IH.
  - change (json_dumps (PDict items))
      with ("{" ++ join ", " (map (fun kv => encode_basestring (fst kv) ++ ": "
                                             ++ json_dumps (snd kv)) items) ++ "}").
    rewrite !one_line_app, one_line_join; [reflexivity|].
    apply Forall_fmap. eapply Forall_impl; [exact IH|].
    intros [k v] Hv. unfold compose. cbn [fst snd] in *.
    rewrite !one_line_app, one_line_encode, Hv. reflexivity.
Qed.

(** *** Texts that are not JSON *)

Lemma is_number_head s :
  is_number s = true ->
  exists c r, s = String c r /\ (c = "-"%char \/ is_digit c = true).
Proof.
  destruct s as [|c r]; [discriminate|]. intros H. exists c, r. split; [reflexivity|].
  revert H. destruct c as [[] [] [] [] [] [] [] []]; auto; discriminate.
Qed.

Lemma value_head v : value v -> exists c r, v = String c r /\ starts_value c = true.
Proof.
  intros Hv. destruct Hv as [| | |s Hs|s Hs|w Hw|s Hs|w Hw|s Hs];
    try (eexists _, _; split; reflexivity).
  destruct (is_number_head s Hs) as (c & r & -> & [->|Hc]).
  - eexists _, _. split; reflexivity.
  - exists c, r. split; [reflexivity|]. unfold starts_value.
    rewrite Hc, !orb_true_r. reflexivity.
Qed.

(** What can come first where a value is expected: white space or the
    first character of a value. *)
Lemma padded_head w v rest :
  all_ws w = true -> value v ->
  exists c r, w ++ v ++ rest = String c r /\ (is_ws c = true \/ starts_value c = true).
Proof.
  intros Hw Hv. destruct w as [|c w].
  - destruct (value_head v Hv) as (c & r & -> & Hc).
    exists c, (r ++ rest). split; [reflexivity|auto].
  - exists c, (w ++ v ++ rest). split; [reflexivity|].
    simpl in Hw. apply andb_prop in Hw as [Hc _]. auto.
Qed.

Lemma elements_head s :
  elements s -> exists c r, s = String c r /\ (is_ws c = true \/ starts_value c = true).
Proof. intros [w1 v w2 Hw1 Hv _|w1 v w2 rest Hw1 Hv _ _]; apply padded_head; assumption. Qed.

Lemma text_head s :
  text s -> exists c r, s = String c r /\ (is_ws c = true \/ starts_value c = true).
Proof. intros (w1 & v & w2 & Hw1 & Hv & _ & ->). apply padded_head; assumption. Qed.

Lemma not_text_start : ~ text "开始处理...".
Proof.
  intros H. destruct (text_head _ H) as (c & r & [= <- _] & [Hc|Hc]); discriminate.
Qed.

Lemma not_text_done : ~ text "[DONE]".
Proof.
  intros (w1 & v & w2 & Hw1 & Hv & _ & Heq).
  destruct w1 as [|c w1]; [|injection Heq as <- _; discriminate].
  rewrite append_nil_l in Heq.
  destruct Hv as [| | |s Hs|s Hs|w Hw|s Hs|w Hw|s Hs]; try discriminate.
  - destruct (is_number_head s Hs) as (c & r & -> & Hc).
    injection Heq as <- _. destruct Hc; discriminate.
  - destruct w as [|c w]; [discriminate|].
    injection Heq as <- _. discriminate.
  - destruct (elements_head s Hs) as (c & r & -> & Hc).
    injection Heq as <- _. destruct Hc; discriminate.
Qed.

(** *** Taking a frame apart *)

Lemma append_cancel p a b : p ++ a = p ++ b -> a = b.
Proof.
  induction p as [|c p IH]; [trivial|]. rewrite !append_cons. intros [= H]. auto.
Qed.

(** A line is read up to the first line feed. *)
Lemma line_split_unique a : forall a' b b',
  one_line a = true -> one_line a' = true ->
  a ++ nl ++ b = a' ++ nl ++ b' ->
  a = a' /\ b = b'.
Proof.
  induction a as [|c a IH]; intros [|c' a'] b b' Ha Ha' Heq;
    rewrite ?append_nil_l, ?append_cons in Heq; unfold nl in Heq;
    rewrite ?append_cons, ?append_nil_l in Heq.
  - injection Heq as ->. auto.
  - injection Heq as <- _. discriminate.
  - injection Heq as -> _. discriminate.
  - fold nl in Heq. injection Heq as -> Heq.
    simpl in Ha, Ha'.
    apply andb_prop in Ha as [_ Ha]. apply andb_prop in Ha' as [_ Ha'].
    destruct (IH a' b b' Ha Ha' Heq) as [-> ->]. auto.
Qed.

Lemma frame_with_inj label data label' data' f :
  Wire.frame_with label data f -> Wire.frame_with label' data' f ->
  label = label' /\ data = data'.
Proof.
  intros (-> & Hl & Hd) (Heq & Hl' & Hd'). unfold Translator.sse in Heq.
  destruct label as [l|], label' as [l'|]; cbv iota in Heq.
  - rewrite !append_assoc in Heq. apply append_cancel in Heq.
    apply line_split_unique in Heq as [-> Heq]; [|auto..].
    apply append_cancel in Heq.
    apply line_split_unique in Heq as [-> _]; auto.
  - discriminate.
  - discriminate.
  - rewrite ?append_nil_l in Heq. apply append_cancel in Heq.
    apply line_split_unique in Heq as [-> _]; auto.
Qed.

Lemma frame_with_sse label data :
  (forall l, label = Some l -> one_line l = true) -> one_line data = true ->
  Wire.frame_with label data (Translator.sse label data).
Proof. intros Hl Hd. split; [reflexivity|]. split; assumption. Qed.

Lemma frame_with_dumps label d :
  In label [None; Some "result"; Some "error"] ->
  Wire.frame_with label (json_dumps d) (Translator.sse label (json_dumps d)).
Proof.
  intros Hl. apply frame_with_sse; [|apply one_line_json_dumps].
  intros l ->. simpl in Hl.
  destruct Hl as [H|[[= <-]|[[= <-]|[]]]]; [discriminate|reflexivity..].
Qed.
End JsonFacts.

Import Json Wire.

(** A frame of the reply channel that carries a dict: the label and the
    type are read off the goal. *)
Ltac carries_dict :=
  lazymatch goal with
  | |- reply_frame (frame_of (event _ _ (("type", PStr ?ty) :: ?fields))) =>
      let d := constr:(PDict (("type", PStr ty) :: fields)) in
      first
        [ apply (reply_json None ty d)
        | apply (reply_json (Some "result") ty d)
        | apply (reply_json (Some "error") ty d) ];
      [simpl; auto 10|reflexivity|apply frame_with_dumps; simpl; auto|apply text_json_dumps]
  end.

(** C9, as the code has it.  On the reply channel every frame is the
    start frame, the done frame, or a frame that carries a dict: no label
    for a thought, a tool call or a tool result, the label [result] for an
    answer and [error] for an error, the dict saying in [type] which of
    these it is; its data is a JSON text on one line.  The start and done
    frames carry fixed texts under the labels [start] and [done], and
    these texts are not JSON.  On the observer channel the frames are, in
    the order of the queue, the events read from it, each without a label
    and with the JSON text of the event as data; what [sse_generator]
    broadcasts says in [type] that it is a start, thought, tool result,
    tool call, answer or error.  Whatever [json.dumps] is given (strings,
    integers, booleans, [None], lists and dicts), it writes a JSON text on
    one line. *)
Theorem C9_frames_of_both_channels :
  forall (time_time : nat -> pyval) (agent : string -> Z -> astream)
         (msg : string) (thread_id : Z),
    (forall f, In f (yielded (trace time_time agent msg thread_id)) -> reply_frame f)
    /\ (forall e, In e (published (trace time_time agent msg thread_id)) ->
          exists ty, Py.get e "type" PNone = Return (PStr ty)
                     /\ In ty ("start" :: relayed_types))
    /\ (forall (s : bus) (q n : nat) (buf : list pyval),
          store s !! q = Some buf ->
          fst (monitor_generator n q s)
          = map (fun e => sse None (json_dumps e)) (take n buf))
    /\ (forall v, frame_with None (json_dumps v) (sse None (json_dumps v))
                  /\ Json.text (json_dumps v))
    /\ (frame_with (Some "start") "开始处理..." start_frame /\ ~ Json.text "开始处理...")
    /\ (frame_with (Some "done") "[DONE]" done_frame /\ ~ Json.text "[DONE]").
Proof.
  intros time_time agent msg thread_id.
  destruct (trace_shape time_time thread_id agent msg) as (events & Htrace & Hev & _).
  destruct (trace_projections time_time thread_id agent msg events Htrace) as [Hpub Hyield].
  rewrite Forall_forall in Hev.
  split; [|split; [|split; [|split; [|split]]]].
  - rewrite Hyield. intros f [<-|Hf]; [apply reply_start|].
    apply in_app_or in Hf as [Hf|[<-|[]]]; [|apply reply_done].
    apply in_map_iff in Hf as (e & <- & He).
    destruct (Hev e) as (t & ty & fields & -> & Hty); [apply list_elem_of_In, He|].
    simpl in Hty.
    destruct Hty as [<-|[<-|[<-|[<-|[<-|[]]]]]].
    all: carries_dict.
  - rewrite Hpub. intros e [<-|He].
    + exists "start". split; [reflexivity|]. left. reflexivity.
    + destruct (Hev e) as (t & ty & fields & -> & Hty); [apply list_elem_of_In, He|].
      exists ty. split; [reflexivity|]. right. exact Hty.
  - intros s q n buf Hq.
    rewrite (proj1 (monitor_generator_frames n q s)), (drain_take n buf q s Hq).
    reflexivity.
  - intros v. split; [|apply text_json_dumps].
    apply frame_with_dumps. simpl. auto.
  - split; [|apply not_text_start]. apply frame_with_sse; [|reflexivity].
    intros l [= <-]. reflexivity.
  - split; [|apply not_text_done]. apply frame_with_sse; [|reflexivity].
    intros l [= <-]. reflexivity.
Qed.

(** C9 on the frames of an execution that thinks, then answers. *)
Lemma C9_frames_of_both_channels_witness :
  reply_frame (sse None (json_dumps (PDict [("type", PStr "thought"); ("content", PStr "x")])))
  /\ reply_frame done_frame.
Proof.
  pose proof (proj1 (C9_frames_of_both_channels (fun k => PInt (Z.of_nat k))
                       (fun _ _ => Step [ {| messages := Some [AIMessage "x"];
                                             tool_calls := None;
                                             structured_response := Some "y" |} ] Stop)
                       "hi" 1)) as H.
  split; apply H; simpl; auto.
Defined.

(** Against C9 as stated: the done frame is yielded on the reply channel,
    and its data, [[DONE]], is not a JSON text. *)
Lemma C9_done_frame_data_is_not_json :
  In done_frame (yielded (trace (fun k => PInt (Z.of_nat k)) (fun _ _ => Stop) "hi" 1))
  /\ done_frame = sse (Some "done") "[DONE]"
  /\ ~ json_frame done_frame.
Proof.
  split; [simpl; auto|]. split; [reflexivity|].
  intros (label & data & Hframe & Htext).
  assert (Hdone : frame_with (Some "done") "[DONE]" done_frame).
  { apply frame_with_sse; [|reflexivity]. intros l [= <-]. reflexivity. }
  destruct (frame_with_inj _ _ _ _ _ Hframe Hdone) as [_ ->].
  exact (not_text_done Htext).
Qed.

(** ** More on the status poller *)

Section PollerMoreFacts.
Import Py Poller PollerViews.

Variable repr_str : string -> string.
Variable remote : string -> string -> nat -> nat * pyval.
Variables (node upid : string).

Abbreviation poll_ := (Poller.poll repr_str remote authenticated node upid).
Abbreviation reply_ := (Poller.reply remote node upid).
Abbreviation turn_ := (Poller.turn remote authenticated node upid).
Abbreviation body_ := (Poller.body repr_str remote node upid).

Lemma eq_str_true v s : eq_str v s = true -> v = PStr s.
Proof.
  destruct v; try discriminate. simpl. intros H. apply String.eqb_eq in H. congruence.
Qed.

(** The clock and the request counter along the loop. *)
Lemma poll_counts timeout fuel : forall start st w r w',
  poll_ timeout fuel start st w = Some (r, w') ->
  (calls w <= calls w')%nat
  /\ 2 * Z.of_nat (calls w' - calls w) <= now w' - now w
  /\ (calls w' = calls w
      \/ now w - start + 2 * Z.of_nat (calls w' - calls w - 1) < timeout).
Proof.
  induction fuel as [|fuel IH]; intros start st w r w'; [discriminate|].
  rewrite poll_unfold.
  destruct (now w - start <? timeout) eqn:Hloop.
  - apply Z.ltb_lt in Hloop.
    pose proof (turn_now remote node upid w) as Hnow.
    pose proof (turn_calls remote node upid w) as Hcalls.
    assert (Hone : forall r0, Some (r0, turn_ w) = Some (r, w') ->
                   (calls w <= calls w')%nat
                   /\ 2 * Z.of_nat (calls w' - calls w) <= now w' - now w
                   /\ (calls w' = calls w
                       \/ now w - start + 2 * Z.of_nat (calls w' - calls w - 1) < timeout)).
    { intros r0 [= _ <-]. rewrite Hcalls.
      replace (S (calls w) - calls w)%nat with 1%nat by lia.
      replace (S (calls w) - calls w - 1)%nat with 0%nat by lia.
      split; [lia|]. split; [lia|]. right. lia. }
    destruct (body_ w) as [r0|s]; [apply Hone|].
    destruct (now (turn_ w) - start >? timeout); [apply Hone|].
    intros H. apply IH in H as (Hle & Htime & Hbound). rewrite Hcalls in *.
    split; [lia|]. split; [lia|]. right.
    destruct Hbound as [Heq|Hlt].
    + rewrite Heq. replace (S (calls w) - calls w - 1)%nat with 0%nat by lia. lia.
    + lia.
  - intros [= _ <-]. split; [lia|]. split; [|left; reflexivity].
    rewrite Nat.sub_diag. lia.
Qed.

(** The shapes of what the loop returns. *)
Lemma body_outcome timeout w r :
  body_ w = Done r -> outcome_of repr_str upid timeout r.
Proof.
  unfold Poller.body.
  destruct (fetch_error (reply_ (calls w))) eqn:He.
  - intros [= <-]. apply out_fetch_failed, He.
  - destruct (read_status (reply_ (calls w))) as [[s e]|e] eqn:Hr.
    + destruct (eq_str s "stopped"); [|discriminate].
      intros [= <-]. destruct (eq_str e "OK") eqn:Hok.
      * apply eq_str_true in Hok. subst e. apply out_succeeded.
      * apply out_failed, Hok.
    + intros [= <-]. apply read_status_raises in Hr. subst e. apply out_attribute_error.
Qed.

Lemma body_again w s : body_ w = Again s -> eq_str s "stopped" = false.
Proof.
  unfold Poller.body.
  destruct (fetch_error (reply_ (calls w))); [discriminate|].
  destruct (read_status (reply_ (calls w))) as [[s0 e]|e]; [|discriminate].
  destruct (eq_str s0 "stopped") eqn:Hs; [discriminate|].
  intros [= <-]. exact Hs.
Qed.

Lemma poll_outcome timeout fuel : forall start st w r w',
  poll_ timeout fuel start st w = Some (r, w') ->
  (now w - start < timeout \/ exists s, st = Some s /\ eq_str s "stopped" = false) ->
  (forall s, st = Some s -> 0 < timeout) ->
  now w - start >= 0 ->
  outcome_of repr_str upid timeout r.
Proof.
  induction fuel as [|fuel IH]; intros start st w r w'; [discriminate|].
  rewrite poll_unfold.
  destruct (now w - start <? timeout) eqn:Hloop.
  - apply Z.ltb_lt in Hloop. intros H _ _ Hstart.
    assert (Hpos : 0 < timeout) by lia.
    destruct (body_ w) as [r0|s] eqn:Hbody.
    + injection H as <- _. eapply body_outcome, Hbody.
    + apply body_again in Hbody.
      destruct (now (turn_ w) - start >? timeout).
      * injection H as <- _. apply out_timed_out; assumption.
      * apply IH in H; [exact H|right; eauto|auto|].
        pose proof (turn_now remote node upid w). lia.
  - apply Z.ltb_ge in Hloop. intros [= <- _] [Hlt|(s & -> & Hs)] Hst _; [lia|].
    apply out_timed_out; [exact Hs|]. eapply Hst. reflexivity.
Qed.

(** What makes the loop say SUCCESS. *)
Lemma poll_success timeout fuel : forall start st w msg w',
  poll_ timeout fuel start st w = Some (Return msg, w') ->
  String.prefix "SUCCESS" msg = true ->
  exists k e,
    calls w' = S k
    /\ (calls w <= k)%nat
    /\ fetch_error (reply_ k) = false
    /\ read_status (reply_ k) = Return (PStr "stopped", e)
    /\ e = PStr "OK".
Proof.
  induction fuel as [|fuel IH]; intros start st w msg w'; [discriminate|].
  rewrite poll_unfold.
  destruct (now w - start <? timeout).
  - pose proof (turn_calls remote node upid w) as Hcalls.
    destruct (body_ w) as [r0|s] eqn:Hbody.
    + intros [= -> <-] Hmsg. revert Hbody. unfold Poller.body.
      destruct (fetch_error (reply_ (calls w))) eqn:He;
        [intros [= <-]; discriminate|].
      destruct (read_status (reply_ (calls w))) as [[s e]|e] eqn:Hr; [|discriminate].
      destruct (eq_str s "stopped") eqn:Hs; [|discriminate].
      destruct (eq_str e "OK") eqn:Hok; [|intros [= <-]; discriminate].
      intros _. apply eq_str_true in Hs, Hok. subst s.
      exists (calls w), e. rewrite Hcalls. auto.
    + destruct (now (turn_ w) - start >? timeout).
      * intros [= <- _] Hmsg. discriminate.
      * intros H Hmsg. destruct (IH _ _ _ _ _ H Hmsg) as (k & e & Hk & Hle & Hrest).
        exists k, e. rewrite Hcalls in Hle. split; [exact Hk|]. split; [lia|exact Hrest].
  - destruct st as [s|]; [|discriminate]. intros [= <- _] Hmsg. discriminate.
Qed.

(** A result that is not the deadline's does not depend on the timeout,
    as long as the timeout leaves the time to reach it. *)
Lemma poll_larger_timeout timeout timeout' fuel : forall start st w r w',
  timeout <= timeout' ->
  poll_ timeout fuel start st w = Some (r, w') ->
  (forall s, r <> Return (timed_out repr_str upid timeout s)) ->
  r <> Raise UnboundLocalError ->
  poll_ timeout' fuel start st w = Some (r, w').
Proof.
  induction fuel as [|fuel IH]; intros start st w r w' Hle; [discriminate|].
  rewrite !poll_unfold.
  destruct (now w - start <? timeout) eqn:Hloop.
  - apply Z.ltb_lt in Hloop.
    replace (now w - start <? timeout') with true by (symmetry; apply Z.ltb_lt; lia).
    destruct (body_ w) as [r0|s]; [trivial|].
    destruct (now (turn_ w) - start >? timeout) eqn:Hlate.
    + intros [= <- _] Hr _. exfalso. eapply Hr. reflexivity.
    + rewrite Z.gtb_ltb in Hlate. apply Z.ltb_ge in Hlate.
      replace (now (turn_ w) - start >? timeout') with false
        by (symmetry; rewrite Z.gtb_ltb; apply Z.ltb_ge; lia).
      apply IH, Hle.
  - intros [= <- _] Hr Hu. exfalso. destruct st as [s|].
    + eapply Hr. reflexivity.
    + apply Hu. reflexivity.
Qed.

Lemma poll_fuel_le timeout fuel fuel' start st w r :
  (fuel <= fuel')%nat ->
  poll_ timeout fuel start st w = Some r -> poll_ timeout fuel' start st w = Some r.
Proof.
  induction 1 as [|fuel' Hle IH]; [trivial|].
  intros H. apply poll_more_fuel, IH, H.
Qed.

Lemma malformed_raises response :
  malformed response = true ->
  fetch_error response = false /\ read_status response = Raise AttributeError.
Proof.
  unfold malformed. intros [He Hshape]%andb_prop.
  apply negb_true_iff in He. split; [exact He|].
  unfold read_status.
  destruct response as [| | | | |items]; try reflexivity.
  simpl. destruct (items_lookup "data" items) as [d|]; [|discriminate].
  destruct d; try reflexivity. discriminate.
Qed.
End PollerMoreFacts.

Import PollerViews.

(** X1.  Whatever the remote end answers, [monitor_pve_task] returns, and
    it is frugal: every status query is preceded by a sleep of two seconds,
    so the call lasts at least two seconds per query, and a query is only
    made while the deadline is not reached, so the last of [n] queries
    starts with [2 * (n - 1)] below the timeout. *)
Theorem X1_queries_bounded_by_timeout :
  forall (repr_str : string -> string) (remote : string -> string -> nat -> nat * pyval)
         (node upid : string) (timeout : Z) (w : world),
    exists r w',
      monitor_pve_task repr_str remote (Some authenticated) node upid timeout w = Some (r, w')
      /\ (calls w <= calls w')%nat
      /\ 2 * Z.of_nat (calls w' - calls w) <= now w' - now w
      /\ (calls w' = calls w \/ 2 * Z.of_nat (calls w' - calls w - 1) < timeout).
Proof.
  intros repr_str remote node upid timeout w.
  unfold monitor_pve_task. cbn [is_authenticated authenticated].
  destruct (poll_total repr_str remote node upid timeout (poll_fuel timeout) (now w) None w)
    as [[r w'] Hr]; [unfold poll_fuel; lia|].
  exists r, w'. split; [exact Hr|].
  apply poll_counts in Hr as (Hle & Htime & Hbound).
  split; [exact Hle|]. split; [exact Htime|].
  destruct Hbound as [Heq|Hlt]; [left; exact Heq|right; lia].
Qed.

(** X2.  Every way [monitor_pve_task] ends: one of its five messages, the
    timed-out one only with a positive timeout and a status that is not
    ["stopped"], the failure one only with an exit status that is not
    ["OK"]; or [AttributeError], on a reply it cannot read; or
    [UnboundLocalError], only when the timeout is not positive. *)
Theorem X2_outcomes_of_monitor_pve_task :
  forall (repr_str : string -> string) (remote : string -> string -> nat -> nat * pyval)
         (pve_client : option PveApiClient) (node upid : string) (timeout : Z) (w : world),
    exists r w',
      monitor_pve_task repr_str remote pve_client node upid timeout w = Some (r, w')
      /\ outcome_of repr_str upid timeout r.
Proof.
  intros repr_str remote pve_client node upid timeout w.
  unfold monitor_pve_task.
  destruct pve_client as [[[|]]|]; cbn [is_authenticated];
    [|eexists _, _; split; [reflexivity|apply out_not_ready]..].
  fold authenticated.
  destruct (poll_total repr_str remote node upid timeout (poll_fuel timeout) (now w) None w)
    as [[r w'] Hr]; [unfold poll_fuel; lia|].
  exists r, w'. split; [exact Hr|].
  destruct (Z_lt_le_dec 0 timeout) as [Hpos|Hneg].
  - eapply poll_outcome; [exact Hr|left; lia|auto|lia].
  - unfold poll_fuel in Hr. rewrite poll_exit in Hr by (apply Z.ltb_ge; lia).
    injection Hr as <- _. apply out_unbound, Hneg.
Qed.

(** X3.  A reply that is not a failed fetch and that the loop cannot read
    (it is not a dict, or its ["data"] is not a dict) makes
    [monitor_pve_task] raise [AttributeError] at once: the query that got
    it is the last one. *)
Theorem X3_malformed_reply_raises :
  forall (repr_str : string -> string) (remote : string -> string -> nat -> nat * pyval)
         (node upid : string) (timeout : Z) (w : world) (n : nat),
    (forall i, (i < n)%nat -> exists s, running remote node upid (calls w + i) s) ->
    now (Nat.iter n (turn remote authenticated node upid) w) - now w < timeout ->
    malformed (reply remote node upid (calls w + n)) = true ->
    exists w',
      monitor_pve_task repr_str remote (Some authenticated) node upid timeout w
      = Some (Raise AttributeError, w')
      /\ calls w' = (calls w + S n)%nat.
Proof.
  intros repr_str remote node upid timeout w n Hrun Hnow Hbad.
  destruct (monitor_reaches repr_str remote node upid timeout n w Hrun Hnow)
    as (st & fuel & -> & Hloop & Hcalls).
  exists (Nat.iter (S n) (turn remote authenticated node upid) w).
  split; [|apply turns_calls].
  rewrite <- Hcalls in Hbad. apply malformed_raises in Hbad as [He Hr].
  rewrite poll_unfold, Hloop. unfold Poller.body. rewrite He, Hr. reflexivity.
Qed.

(** X3 on a first reply whose ["data"] is [None]. *)
Lemma X3_malformed_reply_raises_witness :
  exists w',
    monitor_pve_task repr_plain (scripted [PDict [("data", PNone)]])
      (Some authenticated) "pve" "UPID:pve:0001" 300 {| now := 0; calls := 0 |}
    = Some (Raise AttributeError, w')
    /\ calls w' = 1%nat.
Proof.
  apply (X3_malformed_reply_raises repr_plain (scripted [PDict [("data", PNone)]])
           "pve" "UPID:pve:0001" 300 {| now := 0; calls := 0 |} 0%nat).
  - intros i Hi. lia.
  - vm_compute. reflexivity.
  - reflexivity.
Defined.

(** X4.  [monitor_pve_task] says SUCCESS only for a task that has stopped
    with the exit status ["OK"]: when the message it returns starts with
    [SUCCESS], the last query made got a reply, not a failed fetch, whose
    status is ["stopped"] and whose exit status is ["OK"]. *)
Theorem X4_success_means_stopped_ok :
  forall (repr_str : string -> string) (remote : string -> string -> nat -> nat * pyval)
         (pve_client : option PveApiClient) (node upid : string) (timeout : Z)
         (w w' : world) (msg : string),
    monitor_pve_task repr_str remote pve_client node upid timeout w = Some (Return msg, w') ->
    String.prefix "SUCCESS" msg = true ->
    exists k,
      calls w' = S k
      /\ (calls w <= k)%nat
      /\ fetch_error (reply remote node upid k) = false
      /\ read_status (reply remote node upid k) = Return (PStr "stopped", PStr "OK").
Proof.
  intros repr_str remote pve_client node upid timeout w w' msg.
  unfold monitor_pve_task.
  destruct pve_client as [[[|]]|]; cbn [is_authenticated];
    [|intros [= <- _]; discriminate..].
  fold authenticated. intros Hr Hmsg.
  destruct (poll_success repr_str remote node upid timeout _ _ _ _ _ _ Hr Hmsg)
    as (k & e & Hk & Hle & He & Hread & ->).
  exists k. auto.
Qed.

(** X4 on the run running, stopped with exit ["OK"]. *)
Lemma X4_success_means_stopped_ok_witness :
  exists k,
    calls {| now := 4; calls := 2 |} = S k
    /\ (calls {| now := 0; calls := 0 |} <= k)%nat
    /\ fetch_error (reply (scripted [task_reply "running" None;
                                     task_reply "stopped" (Some "OK")])
                      "pve" "UPID:pve:0001" k) = false
    /\ read_status (reply (scripted [task_reply "running" None;
                                     task_reply "stopped" (Some "OK")])
                      "pve" "UPID:pve:0001" k)
       = Return (PStr "stopped", PStr "OK").
Proof.
  apply (X4_success_means_stopped_ok repr_plain
           (scripted [task_reply "running" None; task_reply "stopped" (Some "OK")])
           (Some authenticated) "pve" "UPID:pve:0001" 300
           {| now := 0; calls := 0 |} {| now := 4; calls := 2 |}
           "SUCCESS: Task UPID:pve:0001 completed successfully. Exit status: OK").
  - vm_compute. reflexivity.
  - reflexivity.
Defined.

(** X5.  A longer timeout never spoils a result: what [monitor_pve_task]
    returns with a timeout, if it is neither the timed-out message nor
    [UnboundLocalError], it returns with every longer timeout, after the
    same queries and at the same time. *)
Theorem X5_result_stable_under_longer_timeout :
  forall (repr_str : string -> string) (remote : string -> string -> nat -> nat * pyval)
         (pve_client : option PveApiClient) (node upid : string) (timeout timeout' : Z)
         (w w' : world) (r : result string),
    timeout <= timeout' ->
    monitor_pve_task repr_str remote pve_client node upid timeout w = Some (r, w') ->
    (forall s, r <> Return ("ERROR: Task " ++ upid ++ " timed out after " ++ str_int timeout
                            ++ " seconds. Current status: " ++ str repr_str s)) ->
    r <> Raise UnboundLocalError ->
    monitor_pve_task repr_str remote pve_client node upid timeout' w = Some (r, w').
Proof.
  intros repr_str remote pve_client node upid timeout timeout' w w' r Hle.
  unfold monitor_pve_task.
  destruct pve_client as [[[|]]|]; cbn [is_authenticated]; [|trivial..].
  fold authenticated. intros Hr Hdeadline Hunbound.
  apply (poll_fuel_le repr_str remote node upid timeout' (poll_fuel timeout));
    [unfold poll_fuel; lia|].
  apply (poll_larger_timeout repr_str remote node upid timeout); assumption.
Qed.

(** X5 on a task that stops at the third query: from a timeout of 5 to one
    of 300. *)
Lemma X5_result_stable_under_longer_timeout_witness :
  monitor_pve_task repr_plain
    (scripted [task_reply "running" None; task_reply "running" None;
               task_reply "stopped" (Some "TASK ERROR")])
    (Some authenticated) "pve" "UPID:pve:0001" 300 {| now := 0; calls := 0 |}
  = Some (Return "FAILURE: Task UPID:pve:0001 finished with error. Exit status: TASK ERROR. Check PVE task log for details.",
          {| now := 6; calls := 3 |}).
Proof.
  apply (X5_result_stable_under_longer_timeout repr_plain
           (scripted [task_reply "running" None; task_reply "running" None;
                      task_reply "stopped" (Some "TASK ERROR")])
           (Some authenticated) "pve" "UPID:pve:0001" 5 300).
  - lia.
  - vm_compute. reflexivity.
  - intros s. discriminate.
  - discriminate.
Defined.

(** X6.  A reply that says ["stopped"] and has no exit status is a
    failure: the message carries the default, [N/A]. *)
Theorem X6_stopped_without_exit_status_fails :
  forall (repr_str : string -> string) (remote : string -> string -> nat -> nat * pyval)
         (node upid : string) (timeout : Z) (w : world) (n : nat)
         (items data : list (string * pyval)),
    (forall i, (i < n)%nat -> exists s, running remote node upid (calls w + i) s) ->
    now (Nat.iter n (turn remote authenticated node upid) w) - now w < timeout ->
    reply remote node upid (calls w + n) = PDict items ->
    items_lookup "error" items = None ->
    items_lookup "data" items = Some (PDict data) ->
    items_lookup "status" data = Some (PStr "stopped") ->
    items_lookup "exitstatus" data = None ->
    exists w',
      monitor_pve_task repr_str remote (Some authenticated) node upid timeout w
      = Some (Return ("FAILURE: Task " ++ upid ++ " finished with error. Exit status: N/A"
                      ++ ". Check PVE task log for details."), w')
      /\ calls w' = (calls w + S n)%nat.
Proof.
  intros repr_str remote node upid timeout w n items data Hrun Hnow Hreply Herr Hdata Hs He.
  destruct (monitor_reaches repr_str remote node upid timeout n w Hrun Hnow)
    as (st & fuel & -> & Hloop & Hcalls).
  exists (Nat.iter (S n) (turn remote authenticated node upid) w).
  split; [|apply turns_calls].
  rewrite <- Hcalls in Hreply.
  rewrite (poll_stopped repr_str remote node upid timeout fuel _ st _
             (PStr "stopped") (PStr "N/A") Hloop); [reflexivity| | |reflexivity].
  - rewrite Hreply. unfold fetch_error. simpl. rewrite Herr. reflexivity.
  - rewrite Hreply. unfold read_status. simpl. rewrite Hdata. simpl. rewrite Hs, He.
    reflexivity.
Qed.

(** X6 on a first reply that says only ["stopped"]. *)
Lemma X6_stopped_without_exit_status_fails_witness :
  exists w',
    monitor_pve_task repr_plain (scripted [task_reply "stopped" None])
      (Some authenticated) "pve" "UPID:pve:0001" 300 {| now := 0; calls := 0 |}
    = Some (Return ("FAILURE: Task " ++ "UPID:pve:0001"
                    ++ " finished with error. Exit status: N/A"
                    ++ ". Check PVE task log for details."), w')
    /\ calls w' = 1%nat.
Proof.
  apply (X6_stopped_without_exit_status_fails repr_plain (scripted [task_reply "stopped" None])
           "pve" "UPID:pve:0001" 300 {| now := 0; calls := 0 |} 0%nat
           [("data", PDict [("status", PStr "stopped")])] [("status", PStr "stopped")]).
  - intros i Hi. lia.
  - vm_compute. reflexivity.
  - reflexivity.
  - reflexivity.
  - reflexivity.
  - reflexivity.
  - reflexivity.
Defined.

(** ** The tools that act on a virtual machine *)

Section ToolsFacts.
Import Py Poller Tools.

Variable repr_str : string -> string.
Variable remote : string -> string -> nat -> nat * pyval.

Lemma handle_response_success result success_message :
  (exists s, _handle_response repr_str result success_message = Return s
             /\ String.prefix "SUCCESS" s = true)
  <-> accepted result = true.
Proof.
  unfold _handle_response, accepted.
  destruct result as [| | | | |items]; simpl;
    try (split; [intros (m & [= <-] & H); discriminate|discriminate]);
    try (split; [intros (m & H & _); discriminate|discriminate]).
  destruct (items_lookup "error" items) as [e|]; simpl.
  - split; [intros (m & [= <-] & H); discriminate|discriminate].
  - destruct (items_lookup "data" items) as [[| | |d| |]|]; simpl;
      try (split; [intros (m & [= <-] & H); discriminate|discriminate]);
      try (split; [reflexivity|intros _; eexists; split; reflexivity]).
    destruct (String.prefix "UPID" d); simpl;
      [split; [reflexivity|intros _; eexists; split; reflexivity]|].
    destruct (String.eqb d ""); simpl;
      [split; [reflexivity|intros _; eexists; split; reflexivity]|].
    split; [intros (m & [= <-] & H); discriminate|discriminate].
Qed.

Lemma handle_response_raises result success_message e :
  _handle_response repr_str result success_message = Raise e ->
  e = AttributeError /\ is_None result = false /\ isinstance_dict result = false.
Proof.
  unfold _handle_response.
  destruct result as [| | | | |items]; simpl; try discriminate;
    try (intros [= <-]; auto).
  destruct (items_lookup "error" items); simpl; [discriminate|].
  destruct (items_lookup "data" items) as [[| | |d| |]|]; simpl; try discriminate.
  destruct (String.prefix "UPID" d); [discriminate|].
  destruct (String.eqb d ""); discriminate.
Qed.

Lemma vm_tool_runs tool method path :
  In (tool, method, path) (vm_tools repr_str remote) ->
  forall pve_client node vmid w,
    match pve_client with
    | Some client =>
        if is_authenticated client then
          exists success_message,
            tool pve_client node vmid w
            = (_handle_response repr_str (snd (remote method (path node vmid) (calls w)))
                 success_message,
               {| now := now w + Z.of_nat (fst (remote method (path node vmid) (calls w)));
                  calls := S (calls w) |})
        else tool pve_client node vmid w = (Return "ERROR: PVE client is not authenticated.", w)
    | None => tool pve_client node vmid w = (Return "ERROR: PVE client is not authenticated.", w)
    end.
Proof.
  intros Hin pve_client node vmid w. simpl in Hin.
  destruct Hin as [H|[H|[H|[H|[]]]]]; injection H as <- <- <-;
    (destruct pve_client as [[[|]]|]; simpl; [|reflexivity..]);
    [ unfold client_start_vm | unfold client_shutdown_vm
    | unfold client_reboot_vm | unfold client_delete_vm ];
    unfold api_request; simpl;
    destruct (remote _ _ (calls w)) as [latency r]; eexists; reflexivity.
Qed.
End ToolsFacts.

Import Tools.

(** X7.  [_handle_response] says SUCCESS exactly for a dict that has no
    ["error"] and whose ["data"] is missing, [None], the empty string or a
    string that starts with [UPID]; and the only way it raises is
    [AttributeError], on a result that is neither [None] nor a dict. *)
Theorem X7_handle_response_success :
  forall (repr_str : string -> string) (result : pyval) (success_message : string),
    ((exists s, _handle_response repr_str result success_message = Return s
                /\ String.prefix "SUCCESS" s = true)
     <-> accepted result = true)
    /\ (forall e, _handle_response repr_str result success_message = Raise e ->
                  e = AttributeError /\ is_None result = false
                  /\ isinstance_dict result = false).
Proof.
  intros repr_str result success_message. split.
  - apply handle_response_success.
  - apply handle_response_raises.
Qed.

(** X7 on the reply to an action the remote system runs as a task. *)
Lemma X7_handle_response_success_witness :
  exists s,
    _handle_response repr_plain (PDict [("data", PStr "UPID:pve:0001")]) "VM start" = Return s
    /\ String.prefix "SUCCESS" s = true.
Proof.
  apply (proj1 (X7_handle_response_success repr_plain (PDict [("data", PStr "UPID:pve:0001")])
                  "VM start")).
  reflexivity.
Defined.

(** X8.  The tools [start_vm], [shutdown_vm], [reboot_vm] and [delete_vm]
    send no request without an authenticated client, and give the fixed
    error message then; with one they send exactly one request, with
    their method and to their path.  A tool says SUCCESS only when the
    reply to that request has no ["error"] and its ["data"] is missing,
    [None], empty or a [UPID]. *)
Theorem X8_vm_tools_send_one_request :
  forall (repr_str : string -> string) (remote : string -> string -> nat -> nat * pyval)
         tool (method : string) (path : string -> Z -> string),
    In (tool, method, path) (vm_tools repr_str remote) ->
    forall (pve_client : option PveApiClient) (node : string) (vmid : Z) (w : world),
      let ready :=
        match pve_client with Some client => is_authenticated client | None => false end in
      let '(r, w') := tool pve_client node vmid w in
      (ready = false ->
       r = Return "ERROR: PVE client is not authenticated." /\ w' = w)
      /\ (ready = true ->
          calls w' = S (calls w)
          /\ now w' = now w + Z.of_nat (fst (remote method (path node vmid) (calls w))))
      /\ (forall s, r = Return s -> String.prefix "SUCCESS" s = true ->
          ready = true
          /\ accepted (snd (remote method (path node vmid) (calls w))) = true).
Proof.
  intros repr_str remote tool method path Hin pve_client node vmid w ready.
  pose proof (vm_tool_runs repr_str remote tool method path Hin pve_client node vmid w) as H.
  destruct pve_client as [[[|]]|]; simpl in H, ready.
  - destruct H as [success_message ->]. subst ready.
    split; [discriminate|]. split; [auto|].
    intros s Hs Hprefix. split; [reflexivity|].
    apply (handle_response_success repr_str _ success_message). eauto.
  - rewrite H. subst ready. split; [auto|]. split; [discriminate|].
    intros s [= <-]. discriminate.
  - rewrite H. subst ready. split; [auto|]. split; [discriminate|].
    intros s [= <-]. discriminate.
Qed.

(** X8 on [delete_vm], the remote system answering with a task. *)
Lemma X8_vm_tools_send_one_request_witness :
  let remote := scripted [PDict [("data", PStr "UPID:pve:0002")]] in
  let '(r, w') := delete_vm repr_plain remote (Some authenticated) "pve" 101
                    {| now := 0; calls := 0 |} in
  (true = false -> r = Return "ERROR: PVE client is not authenticated."
                   /\ w' = {| now := 0; calls := 0 |})
  /\ (true = true ->
      calls w' = 1%nat
      /\ now w' = 0 + Z.of_nat (fst (remote "DELETE" ("/nodes/" ++ "pve" ++ "/qemu/"
                                                       ++ str_int 101) 0%nat)))
  /\ (forall s, r = Return s -> String.prefix "SUCCESS" s = true ->
      true = true
      /\ accepted (snd (remote "DELETE" ("/nodes/" ++ "pve" ++ "/qemu/" ++ str_int 101)
                          0%nat)) = true).
Proof.
  intros remote.
  apply (X8_vm_tools_send_one_request repr_plain remote
           (delete_vm repr_plain remote) "DELETE"
           (fun node vmid => "/nodes/" ++ node ++ "/qemu/" ++ str_int vmid)
           ltac:(simpl; auto 10) (Some authenticated) "pve" 101 {| now := 0; calls := 0 |}).
Defined.

(** ** The two translators *)

Section LegacyFacts.
Import Py Translator.

Variable time_time : nat -> pyval.
Variable thread_id : Z.

Abbreviation run_ := (run time_time thread_id).
Abbreviation on_update_ := (on_update time_time thread_id).

(** The frame of an exception caught by the handler. *)
Abbreviation error_frame detail :=
  (sse (Some "error") (json_dumps (PDict [("type", PStr "error"); ("content", PStr detail)]))).

(** What the handler of the [try] block adds. *)
Abbreviation handled r :=
  (match r with Legacy.Raised detail => [error_frame detail] | Legacy.Went _ => [] end).

Lemma legacy_calls l : forall k,
  Legacy.for_each l Legacy.on_call
  = (yielded (snd (for_each l (on_call time_time thread_id) k)), Legacy.Went tt).
Proof.
  induction l as [|call l IH]; intros k; [reflexivity|].
  cbn [Legacy.for_each for_each]. rewrite snd_bind, yielded_app.
  rewrite (IH (snd (fst (on_call time_time thread_id call k)))). reflexivity.
Qed.

(** An update without a message: the same frames from both. *)
Lemma legacy_on_update u k :
  Legacy.has_message u = false ->
  Legacy.on_update u = (yielded (snd (on_update_ u k)), Legacy.Went tt).
Proof.
  intros Hquiet. unfold Legacy.on_update, on_update.
  assert (Hm : Legacy.for_key (messages u) Legacy.on_message = ([], Legacy.Went tt)
               /\ forall k', for_key (messages u) (on_message time_time thread_id) k'
                             = (tt, k', [])).
  { unfold Legacy.has_message in Hquiet.
    destruct (messages u) as [[|m l]|]; [auto|discriminate|auto]. }
  destruct Hm as [Hlegacy Hagent].
  rewrite Hlegacy, snd_bind, Hagent. cbn [fst snd app].
  rewrite snd_bind, yielded_app.
  set (k1 := snd (fst (for_key (tool_calls u) (on_call time_time thread_id) k))).
  assert (Hc : Legacy.for_key (tool_calls u) Legacy.on_call
               = (yielded (snd (for_key (tool_calls u) (on_call time_time thread_id) k)),
                  Legacy.Went tt)).
  { destruct (tool_calls u) as [l|]; [apply legacy_calls|reflexivity]. }
  rewrite Hc.
  destruct (structured_response u) as [answer|]; reflexivity.
Qed.

(** The updates of one step: the frames of those before the first
    message, and [NameError] when there is one. *)
Lemma legacy_updates values : forall k,
  fst (Legacy.for_each values Legacy.on_update)
  = yielded (snd (for_each (fst (Legacy.quiet_prefix values)) on_update_ k))
  /\ snd (Legacy.for_each values Legacy.on_update)
     = if snd (Legacy.quiet_prefix values) then Legacy.Raised Legacy.name_error
       else Legacy.Went tt.
Proof.
  induction values as [|u values IH]; intros k; [auto|].
  cbn [Legacy.for_each Legacy.quiet_prefix].
  destruct (Legacy.has_message u) eqn:Hu.
  - unfold Legacy.on_update, Legacy.has_message in *.
    destruct (messages u) as [[|m l]|]; try discriminate. auto.
  - destruct (Legacy.quiet_prefix values) as [l found] eqn:Hprefix.
    cbn [fst snd for_each] in *.
    rewrite (legacy_on_update u k Hu), snd_bind, yielded_app.
    destruct (IH (snd (fst (on_update_ u k)))) as [Hf Hr].
    destruct (Legacy.for_each values Legacy.on_update) as [frames r].
    cbn [fst snd] in *. subst. unfold mbind, Legacy.gen_bind. auto.
Qed.

Lemma legacy_run steps : forall k,
  yielded (snd (run_ (Legacy.cut steps) k))
  = (fst (Legacy.run steps) ++ handled (snd (Legacy.run steps)))%list.
Proof.
  induction steps as [|detail|values rest IH]; intros k; [reflexivity..|].
  cbn [Legacy.cut Legacy.run].
  destruct (legacy_updates values k) as [Hf Hr].
  destruct (Legacy.quiet_prefix values) as [l found]. cbn [fst snd] in *.
  cbn [run]. rewrite snd_bind, yielded_app, <- Hf.
  destruct (Legacy.for_each values Legacy.on_update) as [frames r].
  cbn [fst snd] in *. subst r. destruct found.
  - reflexivity.
  - rewrite IH. unfold mbind, Legacy.gen_bind.
    destruct (Legacy.run rest) as [frames' r']. cbn [fst snd].
    rewrite app_assoc. reflexivity.
Qed.

Lemma legacy_frames agent msg :
  Legacy.frames agent msg thread_id
  = yielded (trace time_time (fun m t => Legacy.cut (agent m t)) msg thread_id).
Proof.
  unfold trace, sse_generator.
  rewrite snd_bind. cbn [time fst snd app].
  rewrite snd_bind. cbn [broadcast_event fst snd app].
  rewrite snd_bind. cbn [yield fst snd app].
  rewrite snd_bind. cbn [yield fst snd].
  change (yielded (Broadcast ?e :: Yield ?f :: ?t)) with (f :: yielded t).
  rewrite yielded_app, legacy_run.
  unfold Legacy.frames, Legacy.sse_generator.
  destruct (Legacy.run (agent msg thread_id)) as [frames [[]|detail]]; cbn;
    rewrite ?app_nil_r, <- ?app_assoc; reflexivity.
Qed.

Lemma quiet_prefix_all values :
  forallb (fun u => negb (Legacy.has_message u)) values = true ->
  Legacy.quiet_prefix values = (values, false).
Proof.
  induction values as [|u values IH]; [reflexivity|]. cbn [forallb Legacy.quiet_prefix].
  intros [Hu Hrest]%andb_prop. apply negb_true_iff in Hu. rewrite Hu, (IH Hrest). reflexivity.
Qed.

Lemma quiet_prefix_found values :
  forallb (fun u => negb (Legacy.has_message u)) values = false ->
  snd (Legacy.quiet_prefix values) = true.
Proof.
  induction values as [|u values IH]; [discriminate|]. cbn [forallb Legacy.quiet_prefix].
  destruct (Legacy.has_message u); [reflexivity|]. cbn [negb andb]. intros Hrest.
  specialize (IH Hrest). destruct (Legacy.quiet_prefix values). exact IH.
Qed.

Lemma cut_quiet steps : Legacy.quiet steps = true -> Legacy.cut steps = steps.
Proof.
  induction steps as [|detail|values rest IH]; [reflexivity..|]. cbn [Legacy.quiet Legacy.cut].
  intros [Hvalues Hrest]%andb_prop.
  rewrite (quiet_prefix_all values Hvalues), (IH Hrest). reflexivity.
Qed.

Lemma cut_outcome steps :
  Legacy.quiet steps = false -> outcome (Legacy.cut steps) = Some Legacy.name_error.
Proof.
  induction steps as [|detail|values rest IH]; [discriminate..|].
  cbn [Legacy.quiet Legacy.cut].
  destruct (forallb (fun u => negb (Legacy.has_message u)) values) eqn:Hvalues.
  - rewrite (quiet_prefix_all values Hvalues). cbn [andb outcome]. exact IH.
  - pose proof (quiet_prefix_found values Hvalues) as Hfound.
    destruct (Legacy.quiet_prefix values) as [l found]. cbn [snd] in Hfound. subst found.
    reflexivity.
Qed.

Lemma legacy_ends agent msg :
  Legacy.quiet (agent msg thread_id) = false ->
  exists before,
    Legacy.frames agent msg thread_id
    = (before ++ [error_frame Legacy.name_error; done_frame])%list.
Proof.
  intros Hquiet. rewrite legacy_frames.
  destruct (trace_shape time_time thread_id (fun m t => Legacy.cut (agent m t)) msg)
    as (events & Htrace & _ & Hfail).
  destruct (trace_projections time_time thread_id _ msg events Htrace) as [_ ->].
  destruct (Hfail Legacy.name_error (cut_outcome _ Hquiet)) as (events' & t & ->).
  exists (start_frame :: map frame_of events').
  rewrite map_app, <- app_assoc. reflexivity.
Qed.
End LegacyFacts.

(** X9.  The translator of pve_agent.py stops at the first message.  The
    names [AIMessage] and [ToolMessage] are not bound there, so the first
    message of an update raises [NameError] inside the [try]: the stream
    is the one [sse_generator] of agent.py yields on the execution that
    raises [NameError] at that point.  On an execution none of whose
    updates holds a message the two yield the same frames; on any other
    the stream of pve_agent.py ends with the error frame of the
    [NameError] and the done frame. *)
Theorem X9_legacy_stream_ends_at_first_message :
  forall (time_time : nat -> pyval) (agent : string -> Z -> astream)
         (msg : string) (thread_id : Z),
    Legacy.frames agent msg thread_id
    = yielded (trace time_time (fun m t => Legacy.cut (agent m t)) msg thread_id)
    /\ (Legacy.quiet (agent msg thread_id) = true ->
        Legacy.frames agent msg thread_id = yielded (trace time_time agent msg thread_id))
    /\ (Legacy.quiet (agent msg thread_id) = false ->
        exists before,
          Legacy.frames agent msg thread_id
          = (before
             ++ [sse (Some "error")
                   (json_dumps (PDict [("type", PStr "error");
                                       ("content", PStr "name 'AIMessage' is not defined")]));
                 done_frame])%list).
Proof.
  intros time_time agent msg thread_id.
  pose proof (legacy_frames time_time thread_id agent msg) as Hframes.
  split; [exact Hframes|]. split.
  - intros Hquiet. rewrite Hframes. unfold trace, sse_generator.
    rewrite (cut_quiet _ Hquiet). reflexivity.
  - apply (legacy_ends time_time).
Qed.

(** X9 on an execution that thinks and answers: pve_agent.py yields the
    start frame, the error frame and the done frame, agent.py the thought
    and the answer. *)
Lemma X9_legacy_stream_ends_at_first_message_witness :
  let agent := fun (_ : string) (_ : Z) =>
    Step [ {| messages := Some [AIMessage "x"]; tool_calls := None;
              structured_response := Some "y" |} ] Stop in
  Legacy.frames agent "hi" 1
  = [start_frame;
     sse (Some "error")
       (json_dumps (PDict [("type", PStr "error");
                           ("content", PStr "name 'AIMessage' is not defined")]));
     done_frame]
  /\ yielded (trace (fun k => PInt (Z.of_nat k)) agent "hi" 1)
     = [start_frame;
        sse None (json_dumps (PDict [("type", PStr "thought"); ("content", PStr "x")]));
        sse (Some "result") (json_dumps (PDict [("type", PStr "answer"); ("content", PStr "y")]));
        done_frame].
Proof.
  intros agent. split; [|reflexivity].
  rewrite (proj1 (X9_legacy_stream_ends_at_first_message (fun k => PInt (Z.of_nat k))
                    agent "hi" 1)).
  reflexivity.
Defined.

(** ** Time stamps, and the bytes of a stream *)

Section StampFacts.
Import Py Translator TranslatorViews.

Variable time_time : nat -> pyval.
Variable thread_id : Z.

Abbreviation stamps_ := (stamps time_time thread_id).
Abbreviation stamped_ := (stamped time_time thread_id).

Lemma fst_bind {A B : Type} (m : gen A) (f : A -> gen B) k :
  snd (fst ((m ≫= f) k)) = snd (fst (f (fst (fst (m k))) (snd (fst (m k))))).
Proof.
  unfold mbind, gen_bind. destruct (m k) as [[a k1] out1]. simpl.
  destruct (f a k1) as [[b k2] out2]. reflexivity.
Qed.

Lemma stamps_app fs1 : forall k fs2,
  stamps_ k (fs1 ++ fs2) = (stamps_ k fs1 ++ stamps_ (k + length fs1) fs2)%list.
Proof.
  induction fs1 as [|f fs1 IH]; intros k fs2; simpl.
  - rewrite Nat.add_0_r. reflexivity.
  - rewrite IH, Nat.add_succ_r. reflexivity.
Qed.

Lemma stamped_ret : stamped_ (mret tt).
Proof. intros k. exists []. simpl. rewrite Nat.add_0_r. auto. Qed.

Lemma stamped_bind (m : gen unit) (f : unit -> gen unit) :
  stamped_ m -> (forall a, stamped_ (f a)) -> stamped_ (m ≫= f).
Proof.
  intros Hm Hf k. destruct (Hm k) as (fs1 & Hp1 & Hk1).
  destruct (Hf (fst (fst (m k))) (snd (fst (m k)))) as (fs2 & Hp2 & Hk2).
  exists (fs1 ++ fs2)%list.
  rewrite snd_bind, fst_bind, published_app, Hp1, Hp2, Hk2, Hk1, stamps_app, length_app.
  split; [reflexivity|lia].
Qed.

Lemma stamped_emit frame fields :
  stamped_ (_ ← yield frame; t ← time time_time; broadcast_event (event thread_id t fields)).
Proof. intros k. exists [fields]. simpl. split; [reflexivity|lia]. Qed.

Lemma stamped_for_each {A : Type} (body : A -> gen unit) (l : list A) :
  (forall x, stamped_ (body x)) -> stamped_ (for_each l body).
Proof.
  intros Hbody. induction l as [|x l IH]; simpl.
  - apply stamped_ret.
  - apply stamped_bind; [apply Hbody|intros _; exact IH].
Qed.

Lemma stamped_for_key {A : Type} (body : A -> gen unit) (field : option (list A)) :
  (forall x, stamped_ (body x)) -> stamped_ (for_key field body).
Proof.
  intros Hbody. destruct field as [l|]; simpl.
  - apply stamped_for_each, Hbody.
  - apply stamped_ret.
Qed.

Lemma stamped_on_update u : stamped_ (on_update time_time thread_id u).
Proof.
  unfold on_update.
  apply stamped_bind; [apply stamped_for_key|intros _].
  { intros [content|name content tool_call_id|]; simpl.
    - destruct (String.eqb content ""); [apply stamped_ret|].
      destruct (String.prefix _ content); [apply stamped_ret|]. apply stamped_emit.
    - apply stamped_emit.
    - apply stamped_ret. }
  apply stamped_bind; [apply stamped_for_key|intros _].
  { intros call. apply stamped_emit. }
  destruct (structured_response u) as [answer|]; simpl.
  - apply stamped_emit.
  - apply stamped_ret.
Qed.

Lemma stamped_run steps : stamped_ (run time_time thread_id steps).
Proof.
  induction steps as [|detail|values rest IH]; simpl.
  - apply stamped_ret.
  - apply stamped_emit.
  - apply stamped_bind; [|intros _; exact IH].
    apply stamped_for_each, stamped_on_update.
Qed.

Lemma stamps_read fieldss : forall k,
  map (fun e => Py.get e "timestamp" PNone) (stamps_ k fieldss)
  = map (fun i => Return (time_time i)) (seq k (length fieldss))
  /\ Forall (fun e => Py.get e "thread_id" PNone = Return (PInt thread_id)) (stamps_ k fieldss)
  /\ length (stamps_ k fieldss) = length fieldss.
Proof.
  induction fieldss as [|fields rest IH]; intros k; simpl.
  - split; [reflexivity|]. split; [constructor|reflexivity].
  - destruct (IH (S k)) as (Ht & Hid & Hlen).
    split; [rewrite Ht; reflexivity|]. split; [|rewrite Hlen; reflexivity].
    constructor; [reflexivity|exact Hid].
Qed.

Lemma trace_stamps agent msg :
  exists fieldss,
    published (trace time_time agent msg thread_id) = stamps_ 0%nat fieldss.
Proof.
  unfold trace, sse_generator.
  rewrite snd_bind. cbn [time fst snd app].
  rewrite snd_bind. cbn [broadcast_event fst snd app].
  rewrite snd_bind. cbn [yield fst snd app].
  rewrite snd_bind. cbn [yield fst snd].
  destruct (stamped_run (agent msg thread_id) 1%nat) as (fieldss & Hp & _).
  exists ([("type", PStr "start"); ("content", PStr ("New Request: " ++ msg))] :: fieldss).
  change (published (Broadcast ?e :: Yield ?f :: ?t)) with (e :: published t).
  rewrite published_app, Hp. simpl. rewrite app_nil_r. reflexivity.
Qed.
End StampFacts.

(** X10.  [sse_generator] reads the clock once for each event it
    broadcasts and no reading is dropped in between: the events of a
    request carry, in the order they are broadcast, the first, the second,
    the third reading of the clock, and each of them the thread of the
    request. *)
Theorem X10_events_carry_successive_clock_readings :
  forall (time_time : nat -> pyval) (agent : string -> Z -> astream)
         (msg : string) (thread_id : Z),
    let events := published (trace time_time agent msg thread_id) in
    map (fun e => Py.get e "timestamp" PNone) events
    = map (fun i => Return (time_time i)) (seq 0 (length events))
    /\ Forall (fun e => Py.get e "thread_id" PNone = Return (PInt thread_id)) events.
Proof.
  intros time_time agent msg thread_id events. subst events.
  destruct (trace_stamps time_time thread_id agent msg) as (fieldss & ->).
  destruct (stamps_read time_time thread_id fieldss 0%nat) as (Ht & Hid & ->).
  split; assumption.
Qed.

Section StreamFacts.
Import Py Json Translator TranslatorViews.

Lemma sse_append_inj label data label' data' r r' :
  Wire.frame_with label data (sse label data) ->
  Wire.frame_with label' data' (sse label' data') ->
  sse label data ++ r = sse label' data' ++ r' ->
  label = label' /\ data = data' /\ r = r'.
Proof.
  intros (_ & Hl & Hd) (_ & Hl' & Hd') Heq. unfold sse in Heq.
  destruct label as [l|], label' as [l'|]; cbv iota in Heq.
  - rewrite !append_assoc in Heq. apply append_cancel in Heq.
    apply line_split_unique in Heq as [-> Heq]; [|auto..].
    apply append_cancel in Heq.
    apply line_split_unique in Heq as [-> Heq]; [|auto..].
    apply append_cancel in Heq. auto.
  - rewrite !append_assoc, ?append_nil_l, !append_cons in Heq. discriminate.
  - rewrite !append_assoc, ?append_nil_l, !append_cons in Heq. discriminate.
  - rewrite !append_assoc, ?append_nil_l in Heq. apply append_cancel in Heq.
    apply line_split_unique in Heq as [-> Heq]; [|auto..].
    apply append_cancel in Heq. auto.
Qed.

Lemma framed_head f r : framed f -> exists c rest, f ++ r = String c rest.
Proof.
  intros (label & data & -> & _). unfold sse.
  destruct label as [l|]; cbv iota; rewrite ?append_nil_l, !append_cons; eauto.
Qed.

Lemma body_inj frames : forall frames',
  Forall framed frames -> Forall framed frames' ->
  body frames = body frames' -> frames = frames'.
Proof.
  induction frames as [|f frames IH]; intros [|f' frames'] Hfs Hfs' Heq; simpl in Heq.
  - reflexivity.
  - apply Forall_cons in Hfs' as [Hf' _].
    destruct (framed_head f' (body frames') Hf') as (c & rest & Hc).
    rewrite Hc in Heq. discriminate.
  - apply Forall_cons in Hfs as [Hf _].
    destruct (framed_head f (body frames) Hf) as (c & rest & Hc).
    rewrite Hc in Heq. discriminate.
  - apply Forall_cons in Hfs as [Hf Hfs]. apply Forall_cons in Hfs' as [Hf' Hfs'].
    destruct Hf as (label & data & Hframe). destruct Hf' as (label' & data' & Hframe').
    pose proof Hframe as (-> & _). pose proof Hframe' as (-> & _).
    apply sse_append_inj in Heq as (-> & -> & Heq); [|assumption..].
    f_equal. apply IH; assumption.
Qed.

Lemma framed_sse label data :
  (forall l, label = Some l -> one_line l = true) -> one_line data = true ->
  framed (sse label data).
Proof. intros Hl Hd. exists label, data. apply frame_with_sse; assumption. Qed.

Lemma framed_frame_of e : framed (frame_of e).
Proof.
  unfold frame_of. apply framed_sse; [|apply one_line_json_dumps].
  unfold label_of. intros l.
  destruct (eq_str (type_of e) "answer"); [intros [= <-]; reflexivity|].
  destruct (eq_str (type_of e) "error"); [intros [= <-]; reflexivity|discriminate].
Qed.

Lemma framed_yielded time_time agent msg thread_id :
  Forall framed (yielded (trace time_time agent msg thread_id)).
Proof.
  destruct (trace_shape time_time thread_id agent msg) as (events & Htrace & _).
  destruct (trace_projections time_time thread_id agent msg events Htrace) as [_ ->].
  constructor; [apply framed_sse; [intros l [= <-]|]; reflexivity|].
  apply Forall_app. split.
  - apply Forall_fmap, Forall_true. intros e. apply framed_frame_of.
  - constructor; [|constructor]. apply framed_sse; [intros l [= <-]|]; reflexivity.
Qed.

Lemma framed_monitor n : forall q s, Forall framed (fst (Bus.monitor_generator n q s)).
Proof.
  induction n as [|n IH]; intros q s; simpl; [constructor|].
  destruct (Bus.get q s) as [[data s1]|]; [|constructor].
  specialize (IH q s1). destruct (Bus.monitor_generator n q s1) as [frames s2]. simpl in *.
  constructor; [|exact IH].
  apply (framed_sse None); [discriminate|apply one_line_json_dumps].
Qed.
End StreamFacts.

(** X11.  The bytes of a response say what its frames are: two requests
    whose reply streams are the same text yielded the same frames, one by
    one, and so do two readings of the observer channel.  A line feed in
    a message, a tool result or an error text cannot end a frame early,
    [json.dumps] writes it as an escape. *)
Theorem X11_stream_bytes_determine_frames :
  (forall (time_time time_time' : nat -> pyval) (agent agent' : string -> Z -> astream)
          (msg msg' : string) (thread_id thread_id' : Z),
      TranslatorViews.body (yielded (trace time_time agent msg thread_id))
      = TranslatorViews.body (yielded (trace time_time' agent' msg' thread_id')) ->
      yielded (trace time_time agent msg thread_id)
      = yielded (trace time_time' agent' msg' thread_id'))
  /\ (forall (s s' : bus) (q q' n n' : nat),
        TranslatorViews.body (fst (monitor_generator n q s))
        = TranslatorViews.body (fst (monitor_generator n' q' s')) ->
        fst (monitor_generator n q s) = fst (monitor_generator n' q' s')).
Proof.
  split.
  - intros time_time time_time' agent agent' msg msg' thread_id thread_id'.
    apply body_inj; apply framed_yielded.
  - intros s s' q q' n n'. apply body_inj; apply framed_monitor.
Qed.

(** X11 on two requests whose upstream executions differ and whose reply
    streams do not: an empty thought is not passed on. *)
Lemma X11_stream_bytes_determine_frames_witness :
  let agent := fun (_ : string) (_ : Z) =>
    Step [ {| messages := Some [AIMessage ""]; tool_calls := None;
              structured_response := None |} ] Stop in
  let agent' := fun (_ : string) (_ : Z) => Stop in
  yielded (trace (fun k => PInt (Z.of_nat k)) agent "hi" 1)
  = yielded (trace (fun k => PInt 0) agent' "hello" 2).
Proof.
  intros agent agent'.
  apply (proj1 X11_stream_bytes_determine_frames). reflexivity.
Defined.

Section ReadingFacts.
Import Py Bus.

Lemma get_local q s x s' :
  get q s = Some (x, s') ->
  MONITOR_QUEUES s' = MONITOR_QUEUES s
  /\ next_id s' = next_id s
  /\ (forall q', q' <> q -> store s' !! q' = store s !! q').
Proof.
  unfold get. destruct (store s !! q) as [[|y buf]|]; try discriminate.
  intros [= <- <-]. simpl. split; [reflexivity|]. split; [reflexivity|].
  intros q' Hne. apply lookup_insert_ne. auto.
Qed.

Lemma monitor_generator_local n : forall q s,
  MONITOR_QUEUES (snd (monitor_generator n q s)) = MONITOR_QUEUES s
  /\ next_id (snd (monitor_generator n q s)) = next_id s
  /\ (forall q', q' <> q -> store (snd (monitor_generator n q s)) !! q' = store s !! q').
Proof.
  induction n as [|n IH]; intros q s; simpl; [auto|].
  destruct (get q s) as [[x s1]|] eqn:Hget; [|auto].
  destruct (get_local q s x s1 Hget) as (Hreg & Hnext & Hstore).
  destruct (IH q s1) as (Hreg' & Hnext' & Hstore').
  destruct (monitor_generator n q s1) as [frames s2]. simpl in *.
  split; [congruence|]. split; [congruence|].
  intros q' Hne. rewrite Hstore', Hstore by assumption. reflexivity.
Qed.

Lemma monitor_generator_stuck m q s :
  get q s = None -> monitor_generator m q s = ([], s).
Proof. intros Hget. destruct m as [|m]; simpl; [|rewrite Hget]; reflexivity. Qed.

Lemma monitor_generator_add n : forall m q s,
  fst (monitor_generator (n + m) q s)
  = (fst (monitor_generator n q s)
     ++ fst (monitor_generator m q (snd (monitor_generator n q s))))%list
  /\ snd (monitor_generator (n + m) q s)
     = snd (monitor_generator m q (snd (monitor_generator n q s))).
Proof.
  induction n as [|n IH]; intros m q s; [auto|].
  cbn [Nat.add monitor_generator].
  destruct (get q s) as [[x s1]|] eqn:Hget.
  - destruct (IH m q s1) as [Hf Hs].
    destruct (monitor_generator (n + m) q s1) as [frames s2].
    destruct (monitor_generator n q s1) as [frames1 s3]. simpl in *.
    rewrite Hf, Hs. auto.
  - simpl. rewrite (monitor_generator_stuck m q s Hget). auto.
Qed.
End ReadingFacts.

(** X12.  Reading a queue is the reader's own affair: [monitor_generator]
    leaves the list of queues and every other queue as they are, so no
    observer takes an event from another; and a stream read in two goes
    is the stream read in one. *)
Theorem X12_reading_is_local_and_composes :
  forall (s : bus) (q n m : nat),
    let r := monitor_generator n q s in
    MONITOR_QUEUES (snd r) = MONITOR_QUEUES s
    /\ (forall q', q' <> q -> store (snd r) !! q' = store s !! q')
    /\ fst (monitor_generator (n + m) q s)
       = (fst r ++ fst (monitor_generator m q (snd r)))%list
    /\ snd (monitor_generator (n + m) q s) = snd (monitor_generator m q (snd r)).
Proof.
  intros s q n m r. subst r.
  destruct (monitor_generator_local n q s) as (Hreg & _ & Hstore).
  destruct (monitor_generator_add n m q s) as [Hf Hs].
  split; [exact Hreg|]. split; [exact Hstore|]. split; assumption.
Qed.

(** ** The alert pusher *)

Section PusherFacts.
Import Py Pusher.

Variable repr_str : string -> string.

Lemma format_one_complete alert :
  complete alert = true -> exists m, format_one repr_str alert = Return m.
Proof.
  destruct alert as [| | | | |items]; try discriminate.
  unfold complete, format_one, subscript.
  destruct (items_lookup "status" items) as [st|]; [|discriminate].
  destruct (items_lookup "labels" items) as [[| | | | |labels]|]; try discriminate.
  destruct (items_lookup "annotations" items) as [[| | | | |annotations]|]; try discriminate.
  destruct (items_lookup "startsAt" items) as [startsAt|]; [|discriminate].
  intros _. simpl. eauto.
Qed.

Lemma format_one_incomplete alert :
  complete alert = false -> exists e, format_one repr_str alert = Raise e.
Proof.
  destruct alert as [| | | | |items]; try (intros _; simpl; eauto; fail).
  unfold complete, format_one, subscript.
  destruct (items_lookup "status" items) as [st|]; [|simpl; eauto].
  destruct (items_lookup "labels" items) as [[| | | | |labels]|]; try (simpl; eauto; fail).
  destruct (items_lookup "annotations" items) as [[| | | | |annotations]|];
    try (simpl; eauto; fail).
  destruct (items_lookup "startsAt" items) as [startsAt|]; [discriminate|simpl; eauto].
Qed.

Lemma for_append_all {A : Type} (body : pyval -> result A) l :
  List.Forall (fun x => exists y, body x = Return y) l ->
  exists ys, Forall2 (fun x y => body x = Return y) l ys /\ for_append body l = Return ys.
Proof.
  induction 1 as [|x l [y Hy] _ (ys & Hall & Hys)]; simpl.
  - exists []. split; [constructor|reflexivity].
  - exists (y :: ys). rewrite Hy. simpl. rewrite Hys. simpl.
    split; [constructor; assumption|reflexivity].
Qed.

Lemma for_append_first {A : Type} (body : pyval -> result A) good bad rest e :
  List.Forall (fun x => exists y, body x = Return y) good ->
  body bad = Raise e ->
  for_append body (good ++ bad :: rest) = Raise e.
Proof.
  intros Hgood Hbad. induction Hgood as [|x l [y Hy] _ IH]; simpl.
  - rewrite Hbad. reflexivity.
  - rewrite Hy. simpl. rewrite IH. reflexivity.
Qed.

Lemma complete_all l :
  forallb complete l = true ->
  List.Forall (fun x => exists m, format_one repr_str x = Return m) l.
Proof.
  induction l as [|x l IH]; simpl; [constructor|].
  intros [Hx Hl]%andb_prop. constructor; [apply format_one_complete, Hx|auto].
Qed.

Lemma format_alerts d a alerts :
  items_lookup "alerts" d = Some (PList (a :: alerts)) ->
  format_alert_for_agent repr_str (PDict d)
  = (formatted_messages ← for_append (format_one repr_str) (a :: alerts);
     Return (join nl formatted_messages)).
Proof. intros Hd. unfold format_alert_for_agent. simpl. rewrite Hd. reflexivity. Qed.

Lemma format_complete d a alerts :
  items_lookup "alerts" d = Some (PList (a :: alerts)) ->
  forallb complete (a :: alerts) = true ->
  exists msgs,
    Forall2 (fun alert m => format_one repr_str alert = Return m) (a :: alerts) msgs
    /\ format_alert_for_agent repr_str (PDict d) = Return (join nl msgs).
Proof.
  intros Hd Hall. rewrite (format_alerts d a alerts Hd).
  destruct (for_append_all (format_one repr_str) (a :: alerts) (complete_all _ Hall))
    as (msgs & Hmsgs & ->).
  exists msgs. split; [exact Hmsgs|reflexivity].
Qed.

Lemma format_incomplete d a alerts good bad rest :
  items_lookup "alerts" d = Some (PList (a :: alerts)) ->
  a :: alerts = (good ++ bad :: rest)%list ->
  forallb complete good = true ->
  complete bad = false ->
  exists e,
    format_one repr_str bad = Raise e
    /\ format_alert_for_agent repr_str (PDict d) = Raise e.
Proof.
  intros Hd Hsplit Hgood Hbad. rewrite (format_alerts d a alerts Hd), Hsplit.
  destruct (format_one_incomplete bad Hbad) as [e He].
  exists e. split; [exact He|].
  rewrite (for_append_first _ good bad rest e (complete_all _ Hgood) He). reflexivity.
Qed.

Lemma incomplete_split l :
  forallb complete l = false ->
  exists good bad rest,
    l = (good ++ bad :: rest)%list /\ forallb complete good = true /\ complete bad = false.
Proof.
  induction l as [|x l IH]; simpl; [discriminate|].
  destruct (complete x) eqn:Hx; simpl.
  - intros Hl. destruct (IH Hl) as (good & bad & rest & -> & Hgood & Hbad).
    exists (x :: good), bad, rest. simpl. rewrite Hx. auto.
  - intros _. exists [], x, l. auto.
Qed.

Lemma format_empty d :
  match items_lookup "alerts" d with Some alerts => truthy alerts = false | None => True end ->
  format_alert_for_agent repr_str (PDict d) = Return empty_notice.
Proof.
  intros Hd. unfold format_alert_for_agent. simpl.
  destruct (items_lookup "alerts" d) as [alerts|]; [rewrite Hd|]; reflexivity.
Qed.
End PusherFacts.

(** X13.  [format_alert_for_agent] on a notification with alerts: when
    each alert has a status, a start time and, as dicts, its labels and
    annotations, the text is made of one message for each alert, in their
    order, joined by line feeds; otherwise the first alert that lacks one
    of them raises, its exception is the one of the call, and the alerts
    after it are not looked at. *)
Theorem X13_format_alert_for_agent_all_or_nothing :
  forall (repr_str : string -> string) (d : list (string * pyval))
         (a : pyval) (alerts : list pyval),
    items_lookup "alerts" d = Some (PList (a :: alerts)) ->
    (forallb Pusher.complete (a :: alerts) = true ->
     exists msgs,
       Forall2 (fun alert m => Pusher.format_one repr_str alert = Pusher.Return m)
         (a :: alerts) msgs
       /\ Pusher.format_alert_for_agent repr_str (PDict d)
          = Pusher.Return (join nl msgs))
    /\ (forall good bad rest,
          a :: alerts = (good ++ bad :: rest)%list ->
          forallb Pusher.complete good = true ->
          Pusher.complete bad = false ->
          exists e,
            Pusher.format_one repr_str bad = Pusher.Raise e
            /\ Pusher.format_alert_for_agent repr_str (PDict d) = Pusher.Raise e).
Proof.
  intros repr_str d a alerts Hd. split.
  - apply format_complete, Hd.
  - intros good bad rest. apply format_incomplete, Hd.
Qed.

(** X13 on a notification with one firing alert without a severity. *)
Lemma X13_format_alert_for_agent_all_or_nothing_witness :
  let alert :=
    PDict [("status", PStr "firing");
           ("labels", PDict [("alertname", PStr "HostDown"); ("instance", PStr "pve1")]);
           ("annotations", PDict [("summary", PStr "node is down")]);
           ("startsAt", PStr "2024-01-01T00:00:00Z")] in
  exists msgs,
    Forall2 (fun alert m => Pusher.format_one repr_plain alert = Pusher.Return m) [alert] msgs
    /\ Pusher.format_alert_for_agent repr_plain (PDict [("alerts", PList [alert])])
       = Pusher.Return (join nl msgs).
Proof.
  intros alert.
  apply (proj1 (X13_format_alert_for_agent_all_or_nothing repr_plain
                  [("alerts", PList [alert])] alert [] eq_refl)).
  reflexivity.
Defined.

(** X14.  [receive_alert] forwards a notification with alerts as a whole
    or not at all.  One alert that lacks its status, its start time, its
    labels or its annotations, and nothing is posted to the agent and the
    answer is 500, whatever the other alerts say.  When every alert has
    them, one payload is posted, for the thread 999, and the answer is 200
    exactly when the agent accepts it, 500 otherwise. *)
Theorem X14_receive_alert_forwards_all_or_nothing :
  forall (repr_str : string -> string) (error_str : Pusher.error -> string)
         (post : pyval -> Pusher.reply) (d : list (string * pyval))
         (a : pyval) (alerts : list pyval),
    items_lookup "alerts" d = Some (PList (a :: alerts)) ->
    let r := Pusher.receive_alert repr_str error_str post (Pusher.Json (PDict d)) in
    (forallb Pusher.complete (a :: alerts) = false ->
     snd r = [] /\ Pusher.status_code (fst r) = 500)
    /\ (forallb Pusher.complete (a :: alerts) = true ->
        exists formatted_msg,
          Pusher.format_alert_for_agent repr_str (PDict d) = Pusher.Return formatted_msg
          /\ snd r = [Pusher.payload formatted_msg]
          /\ Py.get (Pusher.payload formatted_msg) "thread_id" PNone = Return (PInt 999)
          /\ (Pusher.status_code (fst r) = 200
              <-> post (Pusher.payload formatted_msg) = Pusher.Accepted)
          /\ (Pusher.status_code (fst r) = 200 \/ Pusher.status_code (fst r) = 500)).
Proof.
  intros repr_str error_str post d a alerts Hd r. subst r. split.
  - intros Hsome.
    destruct (incomplete_split _ Hsome) as (good & bad & rest & Hsplit & Hgood & Hbad).
    destruct (format_incomplete repr_str d a alerts good bad rest Hd Hsplit Hgood Hbad)
      as (e & _ & He).
    unfold Pusher.receive_alert. rewrite He. split; reflexivity.
  - intros Hall.
    destruct (format_complete repr_str d a alerts Hd Hall) as (msgs & _ & Hmsgs).
    exists (join nl msgs). split; [exact Hmsgs|].
    unfold Pusher.receive_alert. rewrite Hmsgs.
    destruct (post (Pusher.payload (join nl msgs))); cbn [fst snd Pusher.status_code
      Pusher.forwarded Pusher.agent_error Pusher.internal_error].
    + split; [reflexivity|]. split; [reflexivity|]. split; [|auto]. split; reflexivity.
    + split; [reflexivity|]. split; [reflexivity|]. split; [|auto].
      split; [lia|discriminate].
    + split; [reflexivity|]. split; [reflexivity|]. split; [|auto].
      split; [lia|discriminate].
Qed.

(** X14 on a notification whose second alert has no start time, the agent
    being ready to accept anything. *)
Lemma X14_receive_alert_forwards_all_or_nothing_witness :
  let good :=
    PDict [("status", PStr "firing"); ("labels", PDict []); ("annotations", PDict []);
           ("startsAt", PStr "2024-01-01T00:00:00Z")] in
  let bad :=
    PDict [("status", PStr "resolved"); ("labels", PDict []); ("annotations", PDict [])] in
  let r := Pusher.receive_alert repr_plain (fun _ => "") (fun _ => Pusher.Accepted)
             (Pusher.Json (PDict [("alerts", PList [good; bad])])) in
  snd r = [] /\ Pusher.status_code (fst r) = 500.
Proof.
  intros good bad.
  apply (proj1 (X14_receive_alert_forwards_all_or_nothing repr_plain (fun _ => "")
                  (fun _ => Pusher.Accepted) [("alerts", PList [good; bad])] good [bad]
                  eq_refl)).
  reflexivity.
Defined.

(** X15.  A notification without alerts is forwarded all the same: when
    ["alerts"] is missing or is empty ([None], an empty list, dict or
    string, zero, [False]), [receive_alert] posts the fixed notice to the
    agent, for the thread 999, and answers as the agent's reply has it. *)
Theorem X15_empty_notification_is_forwarded :
  forall (repr_str : string -> string) (error_str : Pusher.error -> string)
         (post : pyval -> Pusher.reply) (d : list (string * pyval)),
    match items_lookup "alerts" d with
    | Some alerts => Pusher.truthy alerts = false
    | None => True
    end ->
    let notice :=
      PDict [("message", PStr ("紧急告警通知，请注意:" ++ nl ++ "收到空告警通知。"));
             ("thread_id", PInt 999)] in
    let r := Pusher.receive_alert repr_str error_str post (Pusher.Json (PDict d)) in
    snd r = [notice]
    /\ (Pusher.status_code (fst r) = 200 <-> post notice = Pusher.Accepted).
Proof.
  intros repr_str error_str post d Hd notice r. subst r.
  unfold Pusher.receive_alert. rewrite (format_empty repr_str d Hd).
  change (Pusher.payload Pusher.empty_notice) with notice.
  destruct (post notice); cbn [fst snd Pusher.status_code Pusher.forwarded
    Pusher.agent_error Pusher.internal_error];
    (split; [reflexivity|]); split; try reflexivity; try lia; discriminate.
Qed.

(** X15 on a notification whose list of alerts is empty. *)
Lemma X15_empty_notification_is_forwarded_witness :
  let notice :=
    PDict [("message", PStr ("紧急告警通知，请注意:" ++ nl ++ "收到空告警通知。"));
           ("thread_id", PInt 999)] in
  let r := Pusher.receive_alert repr_plain (fun _ => "") (fun _ => Pusher.Accepted)
             (Pusher.Json (PDict [("status", PStr "firing"); ("alerts", PList [])])) in
  snd r = [notice]
  /\ (Pusher.status_code (fst r) = 200 <-> Pusher.Accepted = Pusher.Accepted).
Proof.
  intros notice.
  apply (X15_empty_notification_is_forwarded repr_plain (fun _ => "")
           (fun _ => Pusher.Accepted) [("status", PStr "firing"); ("alerts", PList [])]).
  reflexivity.
Defined.

(** ** Which thoughts are passed on *)

Section ThoughtFacts.
Import Py Translator TranslatorViews.

Variable time_time : nat -> pyval.
Variable thread_id : Z.

Lemma thinks_ret : thinks (mret tt) [].
Proof. intros k. reflexivity. Qed.

Lemma thinks_bind (m : gen unit) (f : unit -> gen unit) l1 l2 :
  thinks m l1 -> (forall a, thinks (f a) l2) -> thinks (m ≫= f) (l1 ++ l2)%list.
Proof.
  intros Hm Hf k. rewrite snd_bind, published_app, omap_app, Hm, Hf. reflexivity.
Qed.

Lemma thinks_for_each {A : Type} (body : A -> gen unit) (said : A -> list string) l :
  (forall x, thinks (body x) (said x)) -> thinks (for_each l body) (flat_map said l).
Proof.
  intros Hbody. induction l as [|x l IH]; simpl.
  - apply thinks_ret.
  - apply thinks_bind; [apply Hbody|intros _; exact IH].
Qed.

Lemma thinks_on_message m :
  thinks (on_message time_time thread_id m)
    (match ai_content m with Some c => List.filter shown [c] | None => [] end).
Proof.
  destruct m as [content|name content tool_call_id|]; simpl; unfold shown.
  - destruct (String.eqb content ""); [apply thinks_ret|].
    destruct (String.prefix _ content); [apply thinks_ret|].
    intros k. reflexivity.
  - intros k. reflexivity.
  - apply thinks_ret.
Qed.

Lemma thinks_messages l :
  thinks (for_each l (on_message time_time thread_id)) (List.filter shown (omap ai_content l)).
Proof.
  induction l as [|m l IH]; simpl; [apply thinks_ret|].
  pose proof (thinks_bind _ (fun _ => for_each l (on_message time_time thread_id)) _ _
                (thinks_on_message m) (fun _ => IH)) as H.
  destruct (ai_content m) as [c|]; simpl in *.
  - destruct (shown c); exact H.
  - exact H.
Qed.

Lemma thinks_on_update u :
  thinks (on_update time_time thread_id u) (List.filter shown (ai_contents_of u)).
Proof.
  unfold on_update, ai_contents_of.
  rewrite <- (app_nil_r (List.filter shown _)).
  apply thinks_bind; [|intros _].
  { destruct (messages u) as [l|]; simpl; [apply thinks_messages|apply thinks_ret]. }
  change (@nil string) with (@nil string ++ [])%list.
  apply thinks_bind; [|intros _].
  { destruct (tool_calls u) as [l|]; simpl; [|apply thinks_ret].
    induction l as [|call l IH]; simpl; [apply thinks_ret|].
    change (@nil string) with (@nil string ++ [])%list.
    apply thinks_bind; [intros k; reflexivity|intros _; exact IH]. }
  destruct (structured_response u) as [answer|]; simpl.
  - intros k. reflexivity.
  - apply thinks_ret.
Qed.

Lemma filter_flat_map {A : Type} (f : A -> list string) l :
  List.filter shown (flat_map f l) = flat_map (fun x => List.filter shown (f x)) l.
Proof.
  induction l as [|x l IH]; simpl; [reflexivity|].
  rewrite List.filter_app, IH. reflexivity.
Qed.

Lemma thinks_run steps :
  thinks (run time_time thread_id steps) (List.filter shown (ai_contents steps)).
Proof.
  induction steps as [|detail|values rest IH]; simpl.
  - apply thinks_ret.
  - intros k. reflexivity.
  - rewrite List.filter_app, filter_flat_map.
    apply thinks_bind; [|intros _; exact IH].
    apply thinks_for_each, thinks_on_update.
Qed.
End ThoughtFacts.

(** X16.  Which thoughts reach the observers: the events of type
    [thought] that [sse_generator] broadcasts carry, in their order, the
    contents of the AI messages of the execution that are not empty and do
    not start with [Returning structured response], each once, and
    nothing else; an AI message that fails the test leaves no thought. *)
Theorem X16_thoughts_are_the_shown_ai_messages :
  forall (time_time : nat -> pyval) (agent : string -> Z -> astream)
         (msg : string) (thread_id : Z),
    omap TranslatorViews.thought_of (published (trace time_time agent msg thread_id))
    = List.filter TranslatorViews.shown (TranslatorViews.ai_contents (agent msg thread_id)).
Proof.
  intros time_time agent msg thread_id.
  unfold trace, sse_generator.
  rewrite snd_bind. cbn [time fst snd app].
  rewrite snd_bind. cbn [broadcast_event fst snd app].
  rewrite snd_bind. cbn [yield fst snd app].
  rewrite snd_bind. cbn [yield fst snd].
  change (published (Broadcast ?e :: Yield ?f :: ?t)) with (e :: published t).
  rewrite published_app.
  change (omap TranslatorViews.thought_of (?e :: ?l))
    with (omap TranslatorViews.thought_of l).
  rewrite omap_app, (thinks_run time_time thread_id (agent msg thread_id) 1%nat).
  apply app_nil_r.
Qed.

(** ** The client, the health route and the tools *)

Section ClientFacts.
Import Py Poller Tools Client.

Lemma initialize_view url id secret :
  view (initialize_pve_agent url id secret)
  = Some {| Poller.is_authenticated := Client.truthy id && Client.truthy secret |}.
Proof.
  unfold initialize_pve_agent, authenticate, __init__. cbn [Client.token_id Client.token_secret].
  destruct (Client.truthy id && Client.truthy secret); reflexivity.
Qed.

Lemma initialize_health url id secret :
  health_check (initialize_pve_agent url id secret)
  = if Client.truthy id && Client.truthy secret
    then ("PVE Agent is authenticated and running.", 200)
    else ("PVE Agent is running, but PVE authentication failed.", 503).
Proof.
  unfold initialize_pve_agent, authenticate, __init__. cbn [Client.token_id Client.token_secret].
  destruct (Client.truthy id && Client.truthy secret); reflexivity.
Qed.
End ClientFacts.

(** X17.  The health route tells what the tools will do.  After
    [initialize_pve_agent], [health_check] answers 200 exactly when the
    token id and the token secret are both set and not empty; when it
    answers 503, [start_vm], [shutdown_vm], [reboot_vm], [delete_vm] and
    [monitor_pve_task] give their error message and send nothing, and
    when it answers 200 each of the four tools sends its one request. *)
Theorem X17_health_tells_what_the_tools_do :
  forall (repr_str : string -> string) (remote : string -> string -> nat -> nat * pyval)
         (PVE_API_URL : string) (PVE_TOKEN_ID PVE_TOKEN_SECRET : option string),
    let pve_client := Client.initialize_pve_agent PVE_API_URL PVE_TOKEN_ID PVE_TOKEN_SECRET in
    (snd (Client.health_check pve_client) = 200
     <-> Client.truthy PVE_TOKEN_ID && Client.truthy PVE_TOKEN_SECRET = true)
    /\ (snd (Client.health_check pve_client) = 200
        \/ snd (Client.health_check pve_client) = 503)
    /\ (forall tool method path (node : string) (vmid : Z) (w : world),
          In (tool, method, path) (vm_tools repr_str remote) ->
          (snd (Client.health_check pve_client) = 503 ->
           tool (Client.view pve_client) node vmid w
           = (Return "ERROR: PVE client is not authenticated.", w))
          /\ (snd (Client.health_check pve_client) = 200 ->
              calls (snd (tool (Client.view pve_client) node vmid w)) = S (calls w)))
    /\ (forall (node upid : string) (timeout : Z) (w : world),
          snd (Client.health_check pve_client) = 503 ->
          monitor_pve_task repr_str remote (Client.view pve_client) node upid timeout w
          = Some (Return "ERROR: PVE client is not initialized or authenticated.", w)).
Proof.
  intros repr_str remote url id secret pve_client. subst pve_client.
  rewrite initialize_health, initialize_view.
  destruct (Client.truthy id && Client.truthy secret); cbn [snd].
  - split; [split; reflexivity|]. split; [auto|]. split.
    + intros tool method path node vmid w Hin. split; [discriminate|]. intros _.
      pose proof (vm_tool_runs repr_str remote tool method path Hin
                    (Some {| Poller.is_authenticated := true |}) node vmid w) as H.
      cbn [Poller.is_authenticated] in H. destruct H as [success_message ->]. reflexivity.
    + discriminate.
  - split; [split; discriminate|]. split; [auto|]. split.
    + intros tool method path node vmid w Hin. split; [|discriminate]. intros _.
      exact (vm_tool_runs repr_str remote tool method path Hin
               (Some {| Poller.is_authenticated := false |}) node vmid w).
    + intros node upid timeout w _. reflexivity.
Qed.

(** X17 on a server started without a token id: [start_vm] refuses and
    sends nothing. *)
Lemma X17_health_tells_what_the_tools_do_witness :
  let pve_client :=
    Client.initialize_pve_agent "https://pve:8006/api2/json" None (Some "secret") in
  Client.health_check pve_client
  = ("PVE Agent is running, but PVE authentication failed.", 503)
  /\ start_vm repr_plain (scripted []) (Client.view pve_client) "pve" 101
       {| now := 0; calls := 0 |}
     = (Return "ERROR: PVE client is not authenticated.", {| now := 0; calls := 0 |}).
Proof.
  intros pve_client. split; [reflexivity|].
  apply (proj1 (proj2 (proj2 (X17_health_tells_what_the_tools_do repr_plain (scripted [])
                                "https://pve:8006/api2/json" None (Some "secret"))))
           (start_vm repr_plain (scripted [])) "POST"
           (fun node vmid => "/nodes/" ++ node ++ "/qemu/" ++ str_int vmid ++ "/status/start")
           "pve" 101 {| now := 0; calls := 0 |}).
  - simpl. auto.
  - reflexivity.
Defined.
